(** * server.py of text-generation-webui: a shallow embedding

    The chat half of [server.py] is modelled here: the prompt window
    builder ([generate_chat_prompt]), the streaming loop of
    [generate_reply], reply extraction ([extract_message_from_reply]),
    the conversation history and the operations on it, the dialogue
    tokenizer, the preset loader, the extensions, the character upload
    and the output formats of [formatted_outputs].

    Conventions.
    - A Python [str] is a [list ascii]; a character is read as the code
      point of the same number, so the model covers text in the Latin-1
      range.  Whitespace is what [str.strip] removes in that range.
    - The tokenizer, the language model and the extension scripts are not
      part of [server.py]; they are interfaces (type classes) here.
    - A Python exception is a value of [exn]; a function that can raise
      returns a [result]; an operation on the global [history] returns the
      history it leaves behind together with its [result]. *)

From stdpp Require Import gmap strings list.
From Stdlib Require Import DecimalString DecimalNat.
From Stdlib Require Import ZArith Ascii List Lia Bool.
Import ListNotations.

Local Open Scope Z_scope.
Local Open Scope nat_scope.
Local Open Scope list_scope.

(** ** Python strings *)

Definition str : Type := list ascii.

Definition LF : ascii := Ascii.ascii_of_nat 10.
Definition CR : ascii := Ascii.ascii_of_nat 13.

(** A string literal of the source without escapes. *)
Definition lit (s : String.string) : str := String.list_ascii_of_string s.

(** [str.isspace] on one character whose code point is below 256. *)
Definition is_space (c : ascii) : bool :=
  let n := Ascii.nat_of_ascii c in
  ((9 <=? n) && (n <=? 13)) || ((28 <=? n) && (n <=? 32))
  || (n =? 133) || (n =? 160).

Fixpoint drop_while (p : ascii -> bool) (s : str) : str :=
  match s with
  | [] => []
  | c :: s' => if p c then drop_while p s' else s
  end.

Fixpoint take_while (p : ascii -> bool) (s : str) : str :=
  match s with
  | [] => []
  | c :: s' => if p c then c :: take_while p s' else []
  end.

Definition lstrip (s : str) : str := drop_while is_space s.
Definition rstrip (s : str) : str := rev (drop_while is_space (rev s)).

(** [s.strip()] *)
Definition strip (s : str) : str := lstrip (rstrip s).

(** [s.rstrip(',')] *)
Definition rstrip_char (c : ascii) (s : str) : str :=
  rev (drop_while (Ascii.eqb c) (rev s)).

(** [s.startswith(p)] *)
Fixpoint startswith (p s : str) : bool :=
  match p, s with
  | [], _ => true
  | _ :: _, [] => false
  | a :: p', b :: s' => Ascii.eqb a b && startswith p' s'
  end.

(** [s.find(p)], with [None] for -1. *)
Fixpoint find_from (p s : str) (pos : nat) : option nat :=
  if startswith p s then Some pos
  else match s with
       | [] => None
       | _ :: s' => find_from p s' (S pos)
       end.

Definition find (p s : str) : option nat := find_from p s 0.

(** [p in s] *)
Definition contains (p s : str) : bool :=
  match find p s with Some _ => true | None => false end.

(** [s.split(c)] for a separator of one character: never empty. *)
Fixpoint split_on (c : ascii) (s : str) : list str :=
  match s with
  | [] => [[]]
  | a :: s' =>
      if Ascii.eqb a c then [] :: split_on c s'
      else match split_on c s' with
           | [] => [[a]]
           | w :: ws => (a :: w) :: ws
           end
  end.

(** [sep.join(l)] *)
Fixpoint join (sep : str) (l : list str) : str :=
  match l with
  | [] => []
  | [w] => w
  | w :: ws => w ++ sep ++ join sep ws
  end.

(** [s.replace(c, r)] for a pattern of one character. *)
Definition replace_char (c : ascii) (r : str) (s : str) : str :=
  flat_map (fun a => if Ascii.eqb a c then r else [a]) s.

(** [s.replace(p, r)] and [re.sub(p, r, s)] for a non-empty literal
    pattern: occurrences are taken left to right and do not overlap.
    [skip] counts the characters of the current occurrence still to pass. *)
Fixpoint replace_from (p r : str) (skip : nat) (s : str) : str :=
  match s with
  | [] => []
  | a :: s' =>
      match skip with
      | S k => replace_from p r k s'
      | O => if startswith p s
             then r ++ replace_from p r (length p - 1) s'
             else a :: replace_from p r 0 s'
      end
  end.

Definition replace (p r s : str) : str := replace_from p r 0 s.

(** The line boundaries of [str.splitlines] below code point 256, apart
    from the pair CR LF, which counts once. *)
Definition is_linebreak (c : ascii) : bool :=
  let n := Ascii.nat_of_ascii c in
  ((10 <=? n) && (n <=? 13)) || ((28 <=? n) && (n <=? 30)) || (n =? 133).

(** [s.splitlines()]: [cur] is the line being read, reversed. *)
Fixpoint splitlines_from (cur : str) (s : str) : list str :=
  match s with
  | [] => match cur with [] => [] | _ => [rev cur] end
  | a :: s' =>
      if is_linebreak a then
        match s' with
        | b :: s'' =>
            if Ascii.eqb a CR && Ascii.eqb b LF
            then rev cur :: splitlines_from [] s''
            else rev cur :: splitlines_from [] s'
        | [] => [rev cur]
        end
      else splitlines_from (a :: cur) s'
  end.

Definition splitlines (s : str) : list str := splitlines_from [] s.

(** ** Exceptions

    The exceptions that the modelled code raises on the inputs that the
    model covers.  [re.error] is not among them: a speaker name that
    [re] cannot compile, or reads as more than the name, is outside the
    model (see [regex_literal]). *)

Inductive exn : Type :=
| IndexError
| KeyError
| NameError
| SyntaxError
| TypeError.

Inductive result (A : Type) : Type :=
| Ok (a : A)
| Raise (e : exn).

Arguments Ok {A} a.
Arguments Raise {A} e.

(** [l[k]] with Python's negative indices. *)
Definition py_getitem {A : Type} (l : list A) (k : Z) : result A :=
  let n := Z.of_nat (length l) in
  let i := if (k <? 0)%Z then (n + k)%Z else k in
  if ((0 <=? i)%Z && (i <? n)%Z)
  then match nth_error l (Z.to_nat i) with
       | Some x => Ok x
       | None => Raise IndexError
       end
  else Raise IndexError.

(** [s[-j:]] for [j >= 1] and [s[:j]] *)
Definition suffix_of_len (j : nat) (s : str) : str := skipn (length s - j) s.
Definition prefix_of_len (j : nat) (s : str) : str := firstn j s.

(** ** The regular expressions of the source

    Every pattern built from a speaker name is [(^|\n)NAME:] with the
    name pasted in.  The model reads the name literally, which is what
    [re] does when the name has none of the characters below; theorems
    about these patterns say so with [regex_literal]. *)

Definition regex_special (c : ascii) : bool :=
  existsb (Ascii.eqb c) (lit ".^$*+?{}[]\|()").

Definition regex_literal (name : str) : bool :=
  forallb (fun c => negb (regex_special c)) name.

(** The first of [labels] such that the text starts with it and a colon:
    the length of what [(L1|L2|...):] matches here. *)
Fixpoint label_match (labels : list str) (t : str) : option nat :=
  match labels with
  | [] => None
  | l :: ls =>
      if startswith (l ++ lit ":") t then Some (length l + 1)
      else label_match ls t
  end.

(** What [(^|\n)(L1|L2|...):] matches at the current position: the matched
    length and the length of group 1.  [^] is tried first; it holds at
    position 0 only. *)
Definition marker_match (at_start : bool) (labels : list str) (t : str)
  : option (nat * nat) :=
  match (if at_start then label_match labels t else None) with
  | Some n => Some (n, 0)
  | None =>
      match t with
      | c :: t' =>
          if Ascii.eqb c LF
          then match label_match labels t' with
               | Some n => Some (S n, 1)
               | None => None
               end
          else None
      | [] => None
      end
  end.

(** [[m.start() for m in re.finditer("(^|\n)(L1|L2|...):", t)]]:
    matches are found left to right and do not overlap. *)
Fixpoint finditer_from (labels : list str) (pos skip : nat) (at_start : bool)
  (t : str) : list nat :=
  match t with
  | [] => []
  | _ :: t' =>
      match skip with
      | S k => finditer_from labels (S pos) k false t'
      | O =>
          match marker_match at_start labels t with
          | Some (n, _) => pos :: finditer_from labels (S pos) (n - 1) false t'
          | None => finditer_from labels (S pos) 0 false t'
          end
      end
  end.

Definition finditer_marker (labels : list str) (t : str) : list nat :=
  finditer_from labels 0 0 true t.

(** [re.sub("(\n|^)(L1|L2|...):", "\\1" + new + ":", t)] *)
Fixpoint sub_marker_from (labels : list str) (new : str) (skip : nat)
  (at_start : bool) (t : str) : str :=
  match t with
  | [] => []
  | a :: t' =>
      match skip with
      | S k => sub_marker_from labels new k false t'
      | O =>
          match marker_match at_start labels t with
          | Some (n, g) =>
              firstn g t ++ new ++ lit ":"
              ++ sub_marker_from labels new (n - 1) false t'
          | None => a :: sub_marker_from labels new 0 false t'
          end
      end
  end.

Definition sub_marker (labels : list str) (new : str) (t : str) : str :=
  sub_marker_from labels new 0 true t.

(** [re.sub(r"\n{3,}", "\n\n", t)]: a maximal run of three or more line
    feeds becomes two; [run] counts the line feeds just read. *)
Definition emit_run (run : nat) : str :=
  if run <? 3 then repeat LF run else [LF; LF].

Fixpoint collapse_from (run : nat) (t : str) : str :=
  match t with
  | [] => emit_run run
  | a :: t' =>
      if Ascii.eqb a LF then collapse_from (S run) t'
      else emit_run run ++ a :: collapse_from 0 t'
  end.

Definition collapse_newlines (t : str) : str := collapse_from 0 t.

(** ** External interfaces *)

(** The tokenizer of the loaded model. *)
Class Tokenizer : Type := {
  (** [tokenizer.encode(text, add_special_tokens=...)], not truncated *)
  tokenizer_encode : bool -> str -> list Z;
  (** [tokenizer.decode(ids, skip_special_tokens=True)] *)
  tokenizer_decode : list Z -> str;
  (** [tokenizer.eos_token_id] *)
  tokenizer_eos_token_id : Z
}.

(** [apply_extensions(text, typ)] for the three values of [typ]. *)
Class Extensions : Type := {
  ext_input : str -> str;
  ext_output : str -> str;
  ext_bot_prefix : str -> str
}.

(** What [generate_reply] passes to [model.generate].  The sampling
    parameters are handed through untouched and kept abstract. *)
Record GenerateParams (Sampling : Type) : Type := {
  gp_eos_token_id : Z;
  gp_stopping_criteria : option (list Z * nat);
  gp_sampling : Sampling;
  gp_min_length : Z;
  gp_synced_gpus : bool;
  gp_max_new_tokens : Z
}.

Arguments gp_eos_token_id {Sampling} _.
Arguments gp_stopping_criteria {Sampling} _.
Arguments gp_sampling {Sampling} _.
Arguments gp_min_length {Sampling} _.
Arguments gp_synced_gpus {Sampling} _.
Arguments gp_max_new_tokens {Sampling} _.

(** [model.generate(input_ids, ...)[0]].  Sampling is random: the first
    argument numbers the call, so that two calls on the same input may
    differ. *)
Class LanguageModel (Sampling : Type) : Type := {
  model_generate : nat -> list Z -> GenerateParams Sampling -> list Z
}.

(** The command-line flags the modelled functions read. *)
Record Args : Type := {
  args_chat : bool;
  args_cai_chat : bool;
  args_no_stream : bool;
  args_deepspeed : bool
}.

Definition chat_mode (args : Args) : bool := args_chat args || args_cai_chat args.

(** ** Conversation state *)

(** One row of a history: [[user_text, bot_text]]. *)
Definition turn : Type := (str * str)%type.

(** The global [history = {'internal': [], 'visible': []}]. *)
Record History : Type := {
  internal : list turn;
  visible : list turn
}.

Definition empty_history : History := {| internal := []; visible := [] |}.

(** The row [['', '']] that [chatbot_wrapper] appends before it generates. *)
Definition placeholder : turn := ([], []).

(** The marker on the user side of a character's opening turn. *)
Definition BEGIN_VISIBLE_CHAT : str := lit "<|BEGIN-VISIBLE-CHAT|>".

(** ** Tokenizing and cleaning *)

(** The last [n] elements: truncation on the left. *)
Definition keep_last {A : Type} (n : nat) (l : list A) : list A :=
  skipn (length l - n) l.

(** [encode(prompt, tokens_to_generate, add_special_tokens)[0]]: the
    tokenizer is asked to truncate to [2048 - tokens_to_generate] tokens,
    and [load_model] has set its truncation side to the left. *)
Definition encode {Tok : Tokenizer} (prompt : str) (tokens_to_generate : Z)
  (add_special_tokens : bool) : list Z :=
  keep_last (Z.to_nat (2048 - tokens_to_generate))
            (tokenizer_encode add_special_tokens prompt).

(** [decode(output_ids)] *)
Definition decode {Tok : Tokenizer} (output_ids : list Z) : str :=
  replace (lit "<|endoftext|>") [] (tokenizer_decode output_ids).

Definition clean_chat_message (text : str) : str :=
  let text := replace_char LF [LF; LF] text in
  let text := collapse_newlines text in
  strip text.

(** ** The prompt window builder *)

(** [rows.insert(1, x)] *)
Definition insert1 (x : str) (rows : list str) : list str :=
  match rows with
  | [] => [x]
  | r :: rs => r :: x :: rs
  end.

(** [rows.pop(1)], of which only the list left behind is used. *)
Definition pop1 (rows : list str) : result (list str) :=
  match rows with
  | r :: _ :: rs => Ok (r :: rs)
  | _ => Raise IndexError
  end.

(** [len(encode(''.join(rows), tokens)[0])] *)
Definition rows_len {Tok : Tokenizer} (rows : list str) (tokens : Z) : Z :=
  Z.of_nat (length (encode (concat rows) tokens true)).

(** The first [while] of [generate_chat_prompt].  The index [i] runs down
    the internal history, so the loop is a recursion on the history read
    backwards; [turns_rev] holds the turns at indices [i], [i-1], ..., 0. *)
Fixpoint history_rows {Tok : Tokenizer} (tokens : Z) (name1 name2 : str)
  (history_size : Z) (turns_rev : list turn) (rows : list str) (count : Z)
  : list str :=
  match turns_rev with
  | [] => rows
  | (user, bot) :: older =>
      if (rows_len rows tokens <? 2048 - tokens)%Z then
        let rows := insert1 (name2 ++ lit ": " ++ strip bot ++ [LF]) rows in
        let count := (count + 1)%Z in
        let '(rows, count) :=
          if negb (bool_decide (user = BEGIN_VISIBLE_CHAT))
          then (insert1 (name1 ++ lit ": " ++ strip user ++ [LF]) rows,
                (count + 1)%Z)
          else (rows, count) in
        if negb (history_size =? 0)%Z && (history_size <=? count)%Z
        then rows
        else history_rows tokens name1 name2 history_size older rows count
      else rows
  end.

(** The second [while]: two rows are popped at index 1 as long as there
    are more than [limit] rows and the budget is reached.  [None] means
    that [fuel] rounds were not enough. *)
Fixpoint trim_rows {Tok : Tokenizer} (fuel : nat) (tokens : Z) (limit : nat)
  (rows : list str) : option (result (list str)) :=
  if (limit <? length rows) && (2048 - tokens <=? rows_len rows tokens)%Z
  then
    match fuel with
    | O => None
    | S fuel' =>
        match pop1 rows with
        | Raise e => Some (Raise e)
        | Ok rows1 =>
            match pop1 rows1 with
            | Raise e => Some (Raise e)
            | Ok rows2 => trim_rows fuel' tokens limit rows2
            end
        end
    end
  else Some (Ok rows).

(** The rows of the prompt after both loops, and the [limit] in force. *)
Definition generate_chat_prompt_rows {Tok : Tokenizer} {Ext : Extensions}
  (text : str) (tokens : Z) (name1 name2 context : str) (history_size : Z)
  (impersonate : bool) (h : History) : option (result (list str)) * nat :=
  let text := clean_chat_message text in
  let rows := [strip context ++ [LF]] in
  let rows :=
    history_rows tokens name1 name2 history_size (rev (internal h)) rows 0 in
  let '(rows, limit) :=
    if negb impersonate
    then (rows ++ [name1 ++ lit ": " ++ text ++ [LF]]
               ++ [ext_bot_prefix (name2 ++ lit ":")], 3)
    else (rows ++ [name1 ++ lit ":"], 2) in
  (trim_rows (length rows) tokens limit rows, limit).

(** [generate_chat_prompt(text, tokens, name1, name2, context,
    history_size, impersonate)], reading the global history [h]. *)
Definition generate_chat_prompt {Tok : Tokenizer} {Ext : Extensions}
  (text : str) (tokens : Z) (name1 name2 context : str) (history_size : Z)
  (impersonate : bool) (h : History) : option (result str) :=
  match fst (generate_chat_prompt_rows text tokens name1 name2 context
               history_size impersonate h) with
  | Some (Ok rows) => Some (Ok (concat rows))
  | Some (Raise e) => Some (Raise e)
  | None => None
  end.

(** ** Reply extraction *)

(** The candidate reply: what follows, in the transcript [reply], the
    marker of [current] that the prompt [question] ends the count at.
    The name [current] is pasted into the pattern and read as it stands
    (see [regex_literal]). *)
Definition candidate_reply {Ext : Extensions} (question reply current : str)
  (extensions : bool) : result str :=
  let previous_idx := finditer_marker [current] question in
  let idx := finditer_marker [current] reply in
  match py_getitem idx (Z.of_nat (length previous_idx) - 1) with
  | Raise e => Raise e
  | Ok idx =>
      if extensions
      then Ok (skipn (idx + 1 + length (ext_bot_prefix (current ++ lit ":")))
                     reply)
      else Ok (skipn (idx + 1 + length (current ++ lit ":")) reply)
  end.

(** The branch [if check:] *)
Definition stop_at_newline (reply : str) : str :=
  strip (hd [] (split_on LF reply)).

(** The loop over [j in range(1, len(tmp))]. *)
Definition tail_is_partial (tmp reply : str) : bool :=
  existsb (fun j => bool_decide (suffix_of_len j reply = prefix_of_len j tmp))
          (seq 1 (length tmp - 1)).

(** The branch [else:], giving the reply and the two flags. *)
Definition scan_next_speaker (other reply : str) : str * bool * bool :=
  let '(reply, next_character_found) :=
    match find ([LF] ++ other ++ lit ":") reply with
    | Some idx => (firstn idx reply, true)
    | None => (reply, false)
    end in
  let reply := clean_chat_message reply in
  let tmp := [LF] ++ other ++ lit ":" in
  (reply, next_character_found, tail_is_partial tmp reply).

Definition extract_message_from_reply {Ext : Extensions}
  (question reply current other : str) (check extensions : bool)
  : result (str * bool * bool) :=
  match candidate_reply question reply current extensions with
  | Raise e => Raise e
  | Ok reply =>
      if check then Ok (stop_at_newline reply, false, false)
      else Ok (scan_next_speaker other reply)
  end.

(** ** Operations on the global history

    [Py A] is a computation that reads and writes the global [history]
    and returns an [A] or raises; the history at the moment of the raise
    is kept, since nothing in [server.py] rolls it back. *)

Definition Py (A : Type) : Type := History -> result A * History.

Definition ret {A : Type} (a : A) : Py A := fun h => (Ok a, h).

Definition bind {A B : Type} (m : Py A) (k : A -> Py B) : Py B :=
  fun h =>
    match m h with
    | (Ok a, h') => k a h'
    | (Raise e, h') => (Raise e, h')
    end.

Definition lift {A : Type} (r : result A) : Py A := fun h => (r, h).

Notation "'let*' x ':=' m 'in' k" := (bind m (fun x => k))
  (at level 10, x name, m at level 100, k at level 200).

Definition get_internal : Py (list turn) := fun h => (Ok (internal h), h).
Definition get_visible : Py (list turn) := fun h => (Ok (visible h), h).

Definition set_internal (l : list turn) : Py unit :=
  fun h => (Ok tt, {| internal := l; visible := visible h |}).
Definition set_visible (l : list turn) : Py unit :=
  fun h => (Ok tt, {| internal := internal h; visible := l |}).

(** [l.pop()] on a list value: the element and the list left behind. *)
Definition list_pop {A : Type} (l : list A) : result (A * list A) :=
  match rev l with
  | [] => Raise IndexError
  | x :: r => Ok (x, rev r)
  end.

(** [l[-1] = x] *)
Definition list_set_last {A : Type} (x : A) (l : list A) : result (list A) :=
  match rev l with
  | [] => Raise IndexError
  | _ :: r => Ok (rev r ++ [x])
  end.

(** [history['internal'].pop()] and [history['visible'].pop()] *)
Definition internal_pop : Py turn :=
  let* l := get_internal in
  let* p := lift (list_pop l) in
  let* _ := set_internal (snd p) in
  ret (fst p).

Definition visible_pop : Py turn :=
  let* l := get_visible in
  let* p := lift (list_pop l) in
  let* _ := set_visible (snd p) in
  ret (fst p).

(** [history['internal'].append(x)] and [history['visible'].append(x)] *)
Definition internal_append (x : turn) : Py unit :=
  let* l := get_internal in set_internal (l ++ [x]).
Definition visible_append (x : turn) : Py unit :=
  let* l := get_visible in set_visible (l ++ [x]).

(** [history['internal'][-1] = x] and [history['visible'][-1] = x] *)
Definition internal_set_last (x : turn) : Py unit :=
  let* l := get_internal in
  let* l' := lift (list_set_last x l) in
  set_internal l'.
Definition visible_set_last (x : turn) : Py unit :=
  let* l := get_visible in
  let* l' := lift (list_set_last x l) in
  set_visible l'.

(** [last = history['visible'].pop()] followed by
    [history['internal'].pop()], as [remove_last_message] and
    [regenerate_wrapper] do. *)
Definition pop_last_turn : Py turn :=
  let* last := visible_pop in
  let* _ := internal_pop in
  ret last.

(** [remove_last_message(name1, name2)]: the visible history (which the
    interface renders) and [last[0]]. *)
Definition remove_last_message : Py (list turn * str) :=
  let* l := get_internal in
  let* t := lift (py_getitem l (-1)) in
  let* last :=
    (if negb (bool_decide (fst t = BEGIN_VISIBLE_CHAT))
     then pop_last_turn
     else ret ([], [])) in
  let* v := get_visible in
  ret (v, fst last).

Definition send_last_reply_to_input : Py str :=
  let* l := get_internal in
  if (0 <? length l)
  then (let* t := lift (py_getitem l (-1)) in ret (snd t))
  else ret [].

(** [replace_last_reply(text, name1, name2)]; both branches on
    [args.cai_chat] leave the same two strings in the last visible row. *)
Definition replace_last_reply {Ext : Extensions} (text : str) : Py (list turn) :=
  let* v := get_visible in
  let* _ :=
    (if (0 <? length v)
     then (let* t := lift (py_getitem v (-1)) in
           let* _ := visible_set_last (fst t, text) in
           let* l := get_internal in
           let* u := lift (py_getitem l (-1)) in
           internal_set_last (fst u, ext_input text))
     else ret tt) in
  get_visible.

(** The index of the first row whose user side contains the marker: the
    [for] loop of [clear_chat_log] up to its [break]. *)
Fixpoint greeting_anchor (l : list turn) (i : nat) : option (nat * turn) :=
  match l with
  | [] => None
  | t :: l' =>
      if contains BEGIN_VISIBLE_CHAT (fst t) then Some (i, t)
      else greeting_anchor l' (S i)
  end.

(** [clear_chat_log(_character, name1, name2)] *)
Definition clear_chat_log (_character : str) : Py (list turn) :=
  let* _ :=
    (if negb (bool_decide (_character = lit "None"))
     then (let* l := get_internal in
           match greeting_anchor l 0 with
           | Some (i, t) =>
               let* _ := set_visible [([], snd t)] in
               set_internal (firstn (i + 1) l)
           | None => ret tt
           end)
     else (let* _ := set_internal [] in set_visible [])) in
  get_visible.

(** ** The generation controller *)

(** One call of [model.generate]: its input, its parameters, its output. *)
Record GenCall (Sampling : Type) : Type := {
  call_input : list Z;
  call_params : GenerateParams Sampling;
  call_output : list Z
}.

Arguments call_input {Sampling} _.
Arguments call_params {Sampling} _.
Arguments call_output {Sampling} _.

(** What a run of the generator [generate_reply] does when it is drained:
    the calls it issues, the texts it hands to [formatted_outputs] at its
    [yield]s, and the exception that ends it, if any.  In the chat modes
    [formatted_outputs] returns the text as it is, so the chat wrappers
    read [run_yields]; [run_outputs] below gives the values yielded in
    any mode. *)
Record GenRun (Sampling : Type) : Type := {
  run_calls : list (GenCall Sampling);
  run_yields : list str;
  run_raised : option exn
}.

Arguments run_calls {Sampling} _.
Arguments run_yields {Sampling} _.
Arguments run_raised {Sampling} _.

(** The text yielded for the output [output]. *)
Definition reply_text {Tok : Tokenizer} {Ext : Extensions} (args : Args)
  (original_question question : str) (output : list Z) : str :=
  let reply := decode output in
  if negb (chat_mode args)
  then original_question ++ ext_output (skipn (length question) reply)
  else reply.

(** The [for i in tqdm(range(tokens//8+1))] loop, with [rounds] rounds
    left; [i] numbers the call and [n] is the end token. *)
Fixpoint stream_loop {Sampling : Type} {Tok : Tokenizer} {Ext : Extensions}
  {Model : LanguageModel Sampling} (args : Args) (original_question question : str)
  (params : GenerateParams Sampling) (n : Z) (rounds i : nat)
  (input_ids : list Z) : GenRun Sampling :=
  match rounds with
  | O => {| run_calls := []; run_yields := []; run_raised := None |}
  | S rounds' =>
      let output := model_generate i input_ids params in
      let call := {| call_input := input_ids; call_params := params;
                     call_output := output |} in
      let reply := reply_text args original_question question output in
      match py_getitem output (-1) with
      | Raise e =>
          {| run_calls := [call]; run_yields := [reply];
             run_raised := Some e |}
      | Ok last =>
          if (last =? n)%Z
          then {| run_calls := [call]; run_yields := [reply];
                  run_raised := None |}
          else
            let rest := stream_loop args original_question question params n
                          rounds' (S i) output in
            {| run_calls := call :: run_calls rest;
               run_yields := reply :: run_yields rest;
               run_raised := run_raised rest |}
      end
  end.

(** The end token [n]: the tokenizer's, or the last token of the text
    the caller gives. *)
Definition end_token {Tok : Tokenizer} (eos_token : option str) : result Z :=
  match eos_token with
  | None => Ok tokenizer_eos_token_id
  | Some e => py_getitem (tokenizer_encode true e) (-1)
  end.

(** [generate_reply(question, tokens, <sampling parameters>, eos_token,
    stopping_string)], drained. *)
Definition generate_reply {Sampling : Type} {Tok : Tokenizer} {Ext : Extensions}
  {Model : LanguageModel Sampling} (args : Args) (question : str) (tokens : Z)
  (sampling : Sampling) (min_length : Z) (eos_token stopping_string : option str)
  : GenRun Sampling :=
  let original_question := question in
  let question :=
    if negb (chat_mode args) then ext_input question else question in
  let input_ids := encode question tokens true in
  match end_token eos_token with
  | Raise e => {| run_calls := []; run_yields := []; run_raised := Some e |}
  | Ok n =>
      let stopping_criteria_list :=
        match stopping_string with
        | Some s => Some (encode s 0 false, length input_ids)
        | None => None
        end in
      let params := {|
        gp_eos_token_id := n;
        gp_stopping_criteria := stopping_criteria_list;
        gp_sampling := sampling;
        gp_min_length := if args_no_stream args then min_length else 0%Z;
        gp_synced_gpus := args_deepspeed args;
        gp_max_new_tokens := if args_no_stream args then tokens else 8%Z
      |} in
      if args_no_stream args then
        let output := model_generate 0 input_ids params in
        {| run_calls := [{| call_input := input_ids; call_params := params;
                            call_output := output |}];
           run_yields := [reply_text args original_question question output];
           run_raised := None |}
      else
        let rest := stream_loop args original_question question params n
                      (Z.to_nat (tokens / 8 + 1)) 0 input_ids in
        {| run_calls := run_calls rest;
           run_yields := original_question :: run_yields rest;
           run_raised := run_raised rest |}
  end.

(** ** The chat wrapper *)

(** How the [for reply in generate_reply(...)] loop of [chatbot_wrapper]
    ends. *)
Inductive loop_end : Type :=
| Exhausted
| Broke
| Raised (e : exn).

(** The body of the loop, run over the replies [replies] of the
    generator; the result also lists the values yielded. *)
Fixpoint chatbot_loop {Ext : Extensions} (question text original_text : str)
  (name1 name2 : str) (check : bool) (replies : list str) (h : History)
  : loop_end * History * list (list turn) :=
  match replies with
  | [] => (Exhausted, h, [])
  | reply :: rest =>
      match extract_message_from_reply question reply name2 name1 check true
      with
      | Raise e => (Raised e, h, [])
      | Ok (reply, next_character_found, substring_found) =>
          match (let* _ := internal_set_last (text, reply) in
                 visible_set_last (original_text, ext_output reply)) h with
          | (Raise e, h') => (Raised e, h', [])
          | (Ok _, h') =>
              let ys := if negb substring_found then [visible h'] else [] in
              if next_character_found : bool then (Broke, h', ys)
              else
                let '(e, h'', ys') :=
                  chatbot_loop question text original_text name1 name2 check
                               rest h' in
                (e, h'', ys ++ ys')
          end
      end
  end.

(** What a drained run of a chat generator leaves: how it ended, the
    history, the values yielded. *)
Definition ChatRun : Type := (result unit * History * list (list turn))%type.

(** [chatbot_wrapper] from the point where the generator [g] has been
    made: the two [append]s, the loop, the last [yield]. *)
Definition chatbot_stream {Ext : Extensions} {Sampling : Type}
  (question text original_text name1 name2 : str) (check : bool)
  (g : GenRun Sampling) (h : History) : ChatRun :=
  match (let* _ := internal_append placeholder in
         visible_append placeholder) h with
  | (Raise e, h') => (Raise e, h', [])
  | (Ok _, h') =>
      let '(e, h'', ys) :=
        chatbot_loop question text original_text name1 name2 check
                     (run_yields g) h' in
      match e, run_raised g with
      | Raised e, _ => (Raise e, h'', ys)
      | Exhausted, Some e => (Raise e, h'', ys)
      | _, _ => (Ok tt, h'', ys ++ [visible h''])
      end
  end.

(** [chatbot_wrapper(text, tokens, <sampling parameters>, name1, name2,
    context, check, history_size)], drained. *)
Definition chatbot_wrapper {Sampling : Type} {Tok : Tokenizer} {Ext : Extensions}
  {Model : LanguageModel Sampling} (args : Args) (text : str) (tokens : Z)
  (sampling : Sampling) (min_length : Z) (name1 name2 context : str)
  (check : bool) (history_size : Z) (h : History) : option ChatRun :=
  let original_text := text in
  let text := ext_input text in
  match generate_chat_prompt text tokens name1 name2 context history_size
          false h with
  | None => None
  | Some (Raise e) => Some (Raise e, h, [])
  | Some (Ok question) =>
      let eos_token := if check then Some [LF] else None in
      let g := generate_reply args question tokens sampling min_length
                 eos_token (Some ([LF] ++ name1 ++ lit ":")) in
      Some (chatbot_stream question text original_text name1 name2 check g h)
  end.

(** [regenerate_wrapper(...)], drained; with [args.cai_chat] the values
    yielded are renderings of the same histories. *)
Definition regenerate_wrapper {Sampling : Type} {Tok : Tokenizer} {Ext : Extensions}
  {Model : LanguageModel Sampling} (args : Args) (tokens : Z)
  (sampling : Sampling) (min_length : Z) (name1 name2 context : str)
  (check : bool) (history_size : Z) (h : History) : option ChatRun :=
  match pop_last_turn h with
  | (Raise e, h') => Some (Raise e, h', [])
  | (Ok last, h') =>
      chatbot_wrapper args (fst last) tokens sampling min_length name1 name2
                      context check history_size h'
  end.

(** ** Dialogue tokenizer *)

(** [[dialogue[idx[i]:idx[i+1]].strip() ...]] followed by
    [dialogue[idx[-1]:].strip()], for a non-empty increasing [idx]. *)
Fixpoint message_slices (dialogue : str) (idx : list nat) : list str :=
  match idx with
  | [] => []
  | a :: rest =>
      match rest with
      | [] => [strip (skipn a dialogue)]
      | b :: _ =>
          strip (firstn (b - a) (skipn a dialogue))
          :: message_slices dialogue rest
      end
  end.

(** The [for i in messages] loop; [entry] is the pair being filled. *)
Fixpoint pair_messages (name1 name2 : str) (messages : list str)
  (entry : turn) : list turn :=
  match messages with
  | [] => []
  | i :: rest =>
      if startswith (name1 ++ lit ":") i then
        pair_messages name1 name2 rest
          (strip (skipn (length (name1 ++ lit ":")) i), snd entry)
      else if startswith (name2 ++ lit ":") i then
        let entry := (fst entry, strip (skipn (length (name2 ++ lit ":")) i)) in
        (if negb ((length (fst entry) =? 0) && (length (snd entry) =? 0))
         then [entry] else [])
        ++ pair_messages name1 name2 rest ([], [])
      else pair_messages name1 name2 rest entry
  end.

(** [tokenize_dialogue(dialogue, name1, name2)].  The two names are
    pasted into the pattern of [re.finditer], and [name2] into the
    replacement template of the last [re.sub]; they are read as they
    stand here, which is what [re] does for names with [regex_literal].
    For any other name [re] may match differently or raise [re.error]:
    such names are outside the model. *)
Definition tokenize_dialogue (dialogue name1 name2 : str) : list turn :=
  let dialogue := replace (lit "<START>") [] dialogue in
  let dialogue := replace (lit "<start>") [] dialogue in
  let dialogue := sub_marker [lit "Anon"; lit "anon"] (lit "You") dialogue in
  let dialogue := sub_marker [lit "[CHARACTER]"] name2 dialogue in
  let idx := finditer_marker [name1; name2] dialogue in
  if length idx =? 0 then []
  else pair_messages name1 name2 (message_slices dialogue idx) ([], []).

(** ** Loading a history file and a character *)

(** An uploaded history file as [json.loads] and the [in] tests of
    [load_history] see it. *)
Inductive HistoryFile : Type :=
| FileData (data : list turn) (data_visible : option (list turn))
| FileChat (chat : list str)
| FileOther
| FileNotJson (text : str).

(** [':'.join(x.split(':')[1:]).strip()] *)
Definition after_colon (x : str) : str :=
  strip (join (lit ":") (tl (split_on ":"%char x))).

(** [[[l[i], l[i+1]] for i in range(0, len(l)-1, 2)]] *)
Fixpoint pair_up (l : list str) : list turn :=
  match l with
  | a :: b :: rest => (a, b) :: pair_up rest
  | _ => []
  end.

(** [load_history(file, name1, name2)] *)
Definition load_history (file : HistoryFile) (name1 name2 : str) : Py unit :=
  match file with
  | FileData data data_visible =>
      let* _ := set_internal data in
      match data_visible with
      | Some v => set_visible v
      | None => set_visible data
      end
  | FileChat chat =>
      let l := map after_colon chat in
      match chat with
      | first :: _ =>
          if startswith (name2 ++ lit ":") first then
            let i := (BEGIN_VISIBLE_CHAT, hd [] l) :: pair_up (tl l) in
            let* _ := set_internal i in
            set_visible (([], hd [] l) :: pair_up (tl l))
          else
            let* _ := set_internal (pair_up l) in
            set_visible (pair_up l)
      | [] =>
          let* _ := set_internal (pair_up l) in
          set_visible (pair_up l)
      end
  | FileOther => ret tt
  | FileNotJson text =>
      let* _ := set_internal (tokenize_dialogue text name1 name2) in
      let* i := get_internal in
      set_visible i
  end.

(** The fields of a character file that [load_character] reads; [None]
    is a key that the file does not have. *)
Record CharacterFile : Type := {
  char_name : option str;
  char_persona : option str;
  world_scenario : option str;
  example_dialogue : option str;
  char_greeting : option str
}.

(** ['key' in data and data['key'] != ''] *)
Definition present (field : option str) : option str :=
  match field with
  | Some (c :: s) => Some (c :: s)
  | _ => None
  end.

(** The two entries of [settings] that [load_character] reads. *)
Record Settings : Type := {
  context_pygmalion : str;
  name2_pygmalion : str
}.

(** [load_character(_character, name1, name2)]; [data] is the content of
    [characters/{_character}.json].  The result is [name2], [context] and
    the visible history. *)
Definition load_character {Ext : Extensions} (settings : Settings)
  (_character : str) (data : CharacterFile) (name1 name2 : str)
  : Py (str * str * list turn) :=
  let* _ := set_internal [] in
  let* _ := set_visible [] in
  let* nc :=
    (if negb (bool_decide (_character = lit "None")) then
       match char_name data with
       | None => lift (Raise KeyError)
       | Some name2 =>
           let context := [] in
           let context :=
             match present (char_persona data) with
             | Some p => context ++ name2 ++ lit "'s Persona: " ++ p ++ [LF]
             | None => context
             end in
           let context :=
             match present (world_scenario data) with
             | Some w => context ++ lit "Scenario: " ++ w ++ [LF]
             | None => context
             end in
           let context := strip context ++ [LF] ++ lit "<START>" ++ [LF] in
           let* _ :=
             match present (example_dialogue data) with
             | Some d => set_internal (tokenize_dialogue d name1 name2)
             | None => ret tt
             end in
           let* _ :=
             match char_greeting data with
             | Some g =>
                 if 0 <? length (strip g) then
                   let* _ := internal_append (BEGIN_VISIBLE_CHAT, g) in
                   visible_append ([], ext_output g)
                 else
                   let* _ :=
                     internal_append (BEGIN_VISIBLE_CHAT, lit "Hello there!") in
                   visible_append ([], lit "Hello there!")
             | None =>
                 let* _ :=
                   internal_append (BEGIN_VISIBLE_CHAT, lit "Hello there!") in
                 visible_append ([], lit "Hello there!")
             end in
           ret (name2, context)
       end
     else ret (name2_pygmalion settings, context_pygmalion settings)) in
  let* v := get_visible in
  ret (fst nc, snd nc, v).

(** ** Decoding presets *)

(** The Python values of a preset: what [eval] makes of the text right of
    the [=] sign, and [min(1.99, v)].  Both can raise.  [py_eval] is given
    the text alone, which is what [eval] depends on when the text names
    nothing: a literal.  An expression that reads or changes
    [generate_params] or [i], which [eval] would run in the frame of
    [load_preset_values], is outside the model; the theorems on presets
    say so with [plain_preset]. *)
Class PyValues (value : Type) : Type := {
  py_eval : str -> result value;
  py_min_1_99 : value -> result value;
  py_bool : bool -> value;
  py_int : Z -> value
}.

(** The names of the twelve sampling parameters, in the order in which
    [load_preset_values] returns them as a tuple. *)
Definition preset_fields : list str :=
  [lit "do_sample"; lit "temperature"; lit "top_p"; lit "typical_p";
   lit "repetition_penalty"; lit "top_k"; lit "min_length";
   lit "no_repeat_ngram_size"; lit "num_beams"; lit "penalty_alpha";
   lit "length_penalty"; lit "early_stopping"].

(** The dictionary [generate_params] before the file is read. *)
Definition default_params {value : Type} {Val : PyValues value}
  : gmap str value :=
  <[lit "early_stopping" := py_bool false]>
  (<[lit "no_repeat_ngram_size" := py_int 0]>
  (<[lit "length_penalty" := py_int 1]>
  (<[lit "min_length" := py_int 0]>
  (<[lit "penalty_alpha" := py_int 0]>
  (<[lit "num_beams" := py_int 1]>
  (<[lit "top_k" := py_int 50]>
  (<[lit "repetition_penalty" := py_int 1]>
  (<[lit "typical_p" := py_int 1]>
  (<[lit "top_p" := py_int 1]>
  (<[lit "temperature" := py_int 1]>
  (<[lit "do_sample" := py_bool true]> ∅))))))))))).

(** [i.rstrip(',').strip().split('=')], and the key and the text of the
    value when the line passes the test
    [len(i) == 2 and i[0].strip() != 'tokens']. *)
Definition preset_assignment (line : str) : option (str * str) :=
  match split_on "="%char (strip (rstrip_char ","%char line)) with
  | [k; v] =>
      if negb (bool_decide (strip k = lit "tokens"))
      then Some (strip k, strip v)
      else None
  | _ => None
  end.

(** The [for i in preset.splitlines()] loop. *)
Fixpoint preset_lines {value : Type} {Val : PyValues value} (lines : list str)
  (generate_params : gmap str value) : result (gmap str value) :=
  match lines with
  | [] => Ok generate_params
  | line :: rest =>
      match preset_assignment line with
      | Some (k, v) =>
          match py_eval v with
          | Ok x => preset_lines rest (<[k := x]> generate_params)
          | Raise e => Raise e
          end
      | None => preset_lines rest generate_params
      end
  end.

(** [generate_params[key]] *)
Definition dict_get {value : Type} (d : gmap str value) (key : str)
  : result value :=
  match d !! key with
  | Some v => Ok v
  | None => Raise KeyError
  end.

(** [[d[k] for k in keys]] *)
Fixpoint dict_get_all {value : Type} (d : gmap str value) (keys : list str)
  : result (list value) :=
  match keys with
  | [] => Ok []
  | k :: ks =>
      match dict_get d k with
      | Raise e => Raise e
      | Ok v =>
          match dict_get_all d ks with
          | Raise e => Raise e
          | Ok vs => Ok (v :: vs)
          end
      end
  end.

(** The two shapes of the result of [load_preset_values]. *)
Inductive PresetResult (value : Type) : Type :=
| PresetDict (generate_params : gmap str value)
| PresetTuple (values : list value).

Arguments PresetDict {value} _.
Arguments PresetTuple {value} _.

(** [load_preset_values(preset_menu, return_dict)] where [lines] is
    [preset.splitlines()] for the text of [presets/{preset_menu}.txt]. *)
Definition load_preset_lines {value : Type} {Val : PyValues value}
  (lines : list str) (return_dict : bool) : result (PresetResult value) :=
  match preset_lines lines default_params with
  | Raise e => Raise e
  | Ok generate_params =>
      match dict_get generate_params (lit "temperature") with
      | Raise e => Raise e
      | Ok t =>
          match py_min_1_99 t with
          | Raise e => Raise e
          | Ok t' =>
              let generate_params := <[lit "temperature" := t']> generate_params in
              if return_dict then Ok (PresetDict generate_params)
              else match dict_get_all generate_params preset_fields with
                   | Raise e => Raise e
                   | Ok vs => Ok (PresetTuple vs)
                   end
          end
      end
  end.

Definition load_preset_values {value : Type} {Val : PyValues value}
  (preset : str) (return_dict : bool) : result (PresetResult value) :=
  load_preset_lines (splitlines preset) return_dict.

(** ** Impersonating the user *)

(** The loop of [impersonate_wrapper] over the replies of the generator;
    [last] is the variable [reply] as the loop leaves it, if it was ever
    bound. *)
Fixpoint impersonate_loop {Ext : Extensions} (question name1 name2 : str)
  (check : bool) (replies : list str) (last : option str)
  : loop_end * option str * list str :=
  match replies with
  | [] => (Exhausted, last, [])
  | reply :: rest =>
      match extract_message_from_reply question reply name1 name2 check false
      with
      | Raise e => (Raised e, Some reply, [])
      | Ok (reply, next_character_found, substring_found) =>
          let ys := if negb substring_found then [ext_output reply] else [] in
          if next_character_found : bool then (Broke, Some reply, ys)
          else
            let '(e, last', ys') :=
              impersonate_loop question name1 name2 check rest (Some reply) in
            (e, last', ys ++ ys')
      end
  end.

(** [impersonate_wrapper] from the point where the generator [g] has been
    made: the loop and the last [yield], which reads the variable [reply]
    and fails with [UnboundLocalError], a [NameError], when the loop never
    bound it. *)
Definition impersonate_stream {Ext : Extensions} {Sampling : Type}
  (question name1 name2 : str) (check : bool) (g : GenRun Sampling)
  : result unit * list str :=
  let '(e, last, ys) :=
    impersonate_loop question name1 name2 check (run_yields g) None in
  match e, run_raised g with
  | Raised e, _ => (Raise e, ys)
  | Exhausted, Some e => (Raise e, ys)
  | _, _ =>
      match last with
      | Some reply => (Ok tt, ys ++ [ext_output reply])
      | None => (Raise NameError, ys)
      end
  end.

(** [impersonate_wrapper(text, tokens, <sampling parameters>, name1,
    name2, context, check, history_size)], drained: how it ends and the
    values it yields.  It reads the global history [h] and does not write
    it. *)
Definition impersonate_wrapper {Sampling : Type} {Tok : Tokenizer}
  {Ext : Extensions} {Model : LanguageModel Sampling} (args : Args)
  (text : str) (tokens : Z) (sampling : Sampling) (min_length : Z)
  (name1 name2 context : str) (check : bool) (history_size : Z)
  (h : History) : option (result unit * list str) :=
  match generate_chat_prompt text tokens name1 name2 context history_size
          true h with
  | None => None
  | Some (Raise e) => Some (Raise e, [])
  | Some (Ok question) =>
      let eos_token := if check then Some [LF] else None in
      let g := generate_reply args question tokens sampling min_length
                 eos_token (Some ([LF] ++ name2 ++ lit ":")) in
      Some (impersonate_stream question name1 name2 check g)
  end.

(** ** Extensions *)

(** What the module [extensions.{ext}.script] offers; a modifier that the
    module does not define ([hasattr] is false) is [None]. *)
Record Script : Type := {
  input_modifier : option (str -> str);
  output_modifier : option (str -> str);
  bot_prefix_modifier : option (str -> str)
}.

(** [extension_state]: a dictionary from the name of an extension to
    [[enabled, priority]], in the order of insertion. *)
Definition ExtensionState : Type := list (str * (bool * nat)).

(** [extension_state[ext] = v]: a key that is there keeps its place. *)
Fixpoint state_set (ext : str) (v : bool * nat) (state : ExtensionState)
  : ExtensionState :=
  match state with
  | [] => [(ext, v)]
  | (k, w) :: rest =>
      if bool_decide (k = ext) then (k, v) :: rest
      else (k, w) :: state_set ext v rest
  end.

(** The loop over [enumerate(args.extensions.split(','))], from the
    index [i] on. *)
Fixpoint load_extensions (available_extensions : list str)
  (names : list str) (i : nat) (state : ExtensionState) : ExtensionState :=
  match names with
  | [] => state
  | ext :: rest =>
      load_extensions available_extensions rest (S i)
        (if bool_decide (ext ∈ available_extensions)
         then state_set ext (true, i) state
         else state)
  end.

(** [extension_state] as the start of [server.py] leaves it for the
    flag [--extensions]; without the flag it is empty. *)
Definition initial_extension_state (available_extensions : list str)
  (args_extensions : option str) : ExtensionState :=
  match args_extensions with
  | Some s => load_extensions available_extensions (split_on ","%char s) 0 []
  | None => []
  end.

(** [sorted(extension_state, key=lambda x : extension_state[x][1])]:
    [sorted] is stable, so of two entries with the same priority the one
    inserted first comes first. *)
Fixpoint insert_by_priority (x : str * (bool * nat)) (l : ExtensionState)
  : ExtensionState :=
  match l with
  | [] => [x]
  | y :: l' =>
      if x.2.2 <=? y.2.2 then x :: y :: l'
      else y :: insert_by_priority x l'
  end.

Definition sorted_by_priority (state : ExtensionState) : ExtensionState :=
  fold_right insert_by_priority [] state.

(** The body of the loop of [apply_extensions] for one enabled
    extension. *)
Definition apply_modifier (script : Script) (typ text : str) : str :=
  if bool_decide (typ = lit "input") then
    match input_modifier script with Some f => f text | None => text end
  else if bool_decide (typ = lit "output") then
    match output_modifier script with Some f => f text | None => text end
  else if bool_decide (typ = lit "bot_prefix") then
    match bot_prefix_modifier script with Some f => f text | None => text end
  else text.

(** [apply_extensions(text, typ)]; [scripts] gives the module of an
    extension that has been imported. *)
Definition apply_extensions (scripts : str -> Script)
  (extension_state : ExtensionState) (text typ : str) : str :=
  fold_left
    (fun text (entry : str * (bool * nat)) =>
       if entry.2.1 then apply_modifier (scripts entry.1) typ text
       else text)
    (sorted_by_priority extension_state) text.

(** The three uses of [apply_extensions] in the chat functions. *)
Definition loaded_extensions (scripts : str -> Script)
  (extension_state : ExtensionState) : Extensions := {|
  ext_input := fun text =>
    apply_extensions scripts extension_state text (lit "input");
  ext_output := fun text =>
    apply_extensions scripts extension_state text (lit "output");
  ext_bot_prefix := fun text =>
    apply_extensions scripts extension_state text (lit "bot_prefix")
|}.

(** ** Uploading a character *)

(** [str(i)] for a natural number. *)
Definition decimal (i : nat) : str :=
  lit (NilEmpty.string_of_uint (Nat.to_uint i)).

(** [f'{i:03d}']: the decimal digits of [i], filled up with zeros on the
    left to three characters. *)
Definition format_03d (i : nat) : str :=
  let d := decimal i in
  repeat "0"%char (3 - length d) ++ d.

(** The [while] loop of [upload_character].  [files] holds the names [n]
    for which [characters/{n}.json] exists; [None] means that [fuel]
    rounds were not enough. *)
Fixpoint free_name (fuel : nat) (files : gset str)
  (char_name outfile_name : str) (i : nat) : option str :=
  if bool_decide (outfile_name ∈ files) then
    match fuel with
    | O => None
    | S fuel' =>
        free_name fuel' files char_name
          (char_name ++ lit "_" ++ format_03d i) (S i)
    end
  else Some outfile_name.

(** [upload_character(json_file, img, tavern)] for a file that
    [json.loads] reads as [data]: the name it returns and the character
    files that exist afterwards (the file of that name is written,
    whether it was there or not). *)
Definition upload_character (files : gset str) (data : CharacterFile)
  (tavern : bool) : option (result (str * gset str)) :=
  match char_name data with
  | None => Some (Raise KeyError)
  | Some name =>
      match free_name (size files) files name name 1 with
      | None => None
      | Some outfile_name =>
          let outfile_name :=
            if tavern then lit "TavernAI-" ++ outfile_name
            else outfile_name in
          Some (Ok (outfile_name, {[ outfile_name ]} ∪ files))
      end
  end.

(** ** LaTeX delimiters *)

(** [fix_galactica(s)] *)
Definition fix_galactica (s : str) : str :=
  let s := replace (lit "\[") (lit "$") s in
  let s := replace (lit "\]") (lit "$") s in
  let s := replace (lit "\(") (lit "$") s in
  let s := replace (lit "\)") (lit "$") s in
  let s := replace (lit "$$") (lit "$") s in
  s.

(** ** Formatting the output *)

(** [[0-9]] *)
Definition is_digit (c : ascii) : bool :=
  let n := Ascii.nat_of_ascii c in
  (48 <=? n) && (n <=? 57).

(** The three patterns of [fix_gpt4chan] are made of literal texts and
    of starred classes of one character.  Each starred class is followed
    by a literal that starts with a character outside the class, so a
    match takes the whole run of the class and there is nothing to go
    back on. *)
Inductive piece : Type :=
| Literal (s : str)
| Star (class : ascii -> bool).

(** The length of what the pattern matches at the start of [t]. *)
Fixpoint match_pieces (pattern : list piece) (t : str) : option nat :=
  match pattern with
  | [] => Some 0
  | Literal s :: rest =>
      if startswith s t
      then option_map (Nat.add (length s))
             (match_pieces rest (skipn (length s) t))
      else None
  | Star class :: rest =>
      let n := length (take_while class t) in
      option_map (Nat.add n) (match_pieces rest (skipn n t))
  end.

(** [re.sub(pattern, r, t)] for a pattern that matches no empty text:
    matches are taken left to right and do not overlap; [skip] counts the
    characters of the current match still to pass. *)
Fixpoint sub_pieces_from (pattern : list piece) (r : str) (skip : nat)
  (t : str) : str :=
  match t with
  | [] => []
  | a :: t' =>
      match skip with
      | S k => sub_pieces_from pattern r k t'
      | O =>
          match match_pieces pattern t with
          | Some n => r ++ sub_pieces_from pattern r (n - 1) t'
          | None => a :: sub_pieces_from pattern r 0 t'
          end
      end
  end.

Definition sub_pieces (pattern : list piece) (r t : str) : str :=
  sub_pieces_from pattern r 0 t.

(** ["--- [0-9]*\n>>[0-9]*\n---"], ["--- [0-9]*\n *\n---"] and
    ["--- [0-9]*\n\n\n---"] *)
Definition empty_quote : list piece :=
  [Literal (lit "--- "); Star is_digit; Literal ([LF] ++ lit ">>");
   Star is_digit; Literal ([LF] ++ lit "---")].

Definition blank_reply : list piece :=
  [Literal (lit "--- "); Star is_digit; Literal [LF];
   Star (Ascii.eqb " "%char); Literal ([LF] ++ lit "---")].

Definition three_line_feeds : list piece :=
  [Literal (lit "--- "); Star is_digit; Literal ([LF; LF; LF] ++ lit "---")].

(** [fix_gpt4chan(s)] *)
Definition fix_gpt4chan (s : str) : str :=
  Nat.iter 10
    (fun s =>
       let s := sub_pieces empty_quote (lit "---") s in
       let s := sub_pieces blank_reply (lit "---") s in
       let s := sub_pieces three_line_feeds (lit "---") s in
       s)
    s.

(** [s.lower()] below code point 256: the letters A to Z and the
    capital letters of Latin-1. *)
Definition lower_char (c : ascii) : ascii :=
  let n := Ascii.nat_of_ascii c in
  if ((65 <=? n) && (n <=? 90))
     || ((192 <=? n) && (n <=? 222) && negb (n =? 215))
  then Ascii.ascii_of_nat (n + 32)
  else c.

Definition lower (s : str) : str := map lower_char s.

(** [generate_basic_html] and [generate_4chan_html] of the module
    [html_generator]. *)
Class HtmlGenerator : Type := {
  generate_basic_html : str -> str;
  generate_4chan_html : str -> str
}.

(** What [formatted_outputs] returns: the reply alone in the chat modes,
    else the triple of the reply, the text of the LaTeX tab and the
    HTML. *)
Inductive Output : Type :=
| ChatReply (reply : str)
| Outputs (reply latex html : str).

(** [model_name.lower().startswith('galactica')] and
    [model_name.lower().startswith(('gpt4chan', 'gpt-4chan', '4chan'))] *)
Definition is_galactica (model_name : str) : bool :=
  startswith (lit "galactica") (lower model_name).

Definition is_gpt4chan (model_name : str) : bool :=
  startswith (lit "gpt4chan") (lower model_name)
  || startswith (lit "gpt-4chan") (lower model_name)
  || startswith (lit "4chan") (lower model_name).

Definition ONLY_GALACTICA : str :=
  lit "Only applicable for GALACTICA models.".

(** [formatted_outputs(reply, model_name)] *)
Definition formatted_outputs {Html : HtmlGenerator} (args : Args)
  (reply model_name : str) : Output :=
  if negb (chat_mode args) then
    if is_galactica model_name then
      let reply := fix_galactica reply in
      Outputs reply reply (generate_basic_html reply)
    else if is_gpt4chan model_name then
      let reply := fix_gpt4chan reply in
      Outputs reply ONLY_GALACTICA (generate_4chan_html reply)
    else Outputs reply ONLY_GALACTICA (generate_basic_html reply)
  else ChatReply reply.

(** The values that [generate_reply] yields: every text of the run goes
    through [formatted_outputs] with the global [model_name]. *)
Definition run_outputs {Html : HtmlGenerator} {Sampling : Type} (args : Args)
  (model_name : str) (g : GenRun Sampling) : list Output :=
  map (fun reply => formatted_outputs args reply model_name) (run_yields g).

(** ** Concrete collaborators for the examples *)

(** A tokenizer with one token per character and no special tokens. *)
Definition char_tokenizer : Tokenizer := {|
  tokenizer_encode := fun _ s => map (fun c => Z.of_nat (Ascii.nat_of_ascii c)) s;
  tokenizer_decode := fun ids => map (fun z => Ascii.ascii_of_nat (Z.to_nat z)) ids;
  tokenizer_eos_token_id := 0%Z
|}.

(** No extension is loaded: [apply_extensions] returns its text. *)
Definition no_extensions : Extensions := {|
  ext_input := fun s => s;
  ext_output := fun s => s;
  ext_bot_prefix := fun s => s
|}.

(** A model that ends its answer at once: it adds the end token, if it
    may add a token at all. *)
Definition eos_model : LanguageModel unit := {|
  model_generate := fun _ input params =>
    if (0 <? gp_max_new_tokens params)%Z
    then input ++ [gp_eos_token_id params]
    else input
|}.

(** The values of integer and Boolean literals, and the float 1.99. *)
Inductive literal : Type :=
| LBool (b : bool)
| LInt (z : Z)
| LFloat_1_99.

Fixpoint digits_value (acc : Z) (s : str) : option Z :=
  match s with
  | [] => Some acc
  | c :: s' =>
      let n := Ascii.nat_of_ascii c in
      if (48 <=? n) && (n <=? 57)
      then digits_value (10 * acc + Z.of_nat (n - 48))%Z s'
      else None
  end.

(** [eval] on the texts of the examples: [True], [False] and decimal
    integers without sign.  A number that starts with a zero and is not
    zero is a syntax error, and so is the empty text.  The examples use
    no other text; this instance takes any other for a name that is not
    defined. *)
Definition literal_eval (s : str) : result literal :=
  if bool_decide (s = lit "True") then Ok (LBool true)
  else if bool_decide (s = lit "False") then Ok (LBool false)
  else match s with
       | [] => Raise SyntaxError
       | c :: _ =>
           match digits_value 0 s with
           | Some z =>
               if bool_decide (c = "0"%char) && negb (z =? 0)%Z
               then Raise SyntaxError
               else Ok (LInt z)
           | None => Raise NameError
           end
       end.

(** [min(1.99, v)]: [v] when [v < 1.99], else [1.99]. *)
Definition literal_min_1_99 (v : literal) : result literal :=
  match v with
  | LBool b => Ok (LBool b)
  | LInt z => if (z <=? 1)%Z then Ok (LInt z) else Ok LFloat_1_99
  | LFloat_1_99 => Ok LFloat_1_99
  end.

Definition literal_values : PyValues literal := {|
  py_eval := literal_eval;
  py_min_1_99 := literal_min_1_99;
  py_bool := LBool;
  py_int := LInt
|}.

(** The flags of a chat session with streaming. *)
Definition chat_streaming : Args := {|
  args_chat := true;
  args_cai_chat := false;
  args_no_stream := false;
  args_deepspeed := false
|}.

(** The flags of the default interface, outside the chat modes, with
    the reply made in one call. *)
Definition notebook_no_stream : Args := {|
  args_chat := false;
  args_cai_chat := false;
  args_no_stream := true;
  args_deepspeed := false
|}.

(** HTML that is the text between two tags. *)
Definition tagged_html : HtmlGenerator := {|
  generate_basic_html := fun s => lit "<div>" ++ s ++ lit "</div>";
  generate_4chan_html := fun s => lit "<div id=4chan>" ++ s ++ lit "</div>"
|}.

(** ** Predicates and constructions of the statements *)

(** The characters of a line: all but the line feed. *)
Definition not_LF (c : ascii) : bool := negb (Ascii.eqb c LF).

(** The string has a character that is not white space. *)
Definition has_text (s : str) : bool := existsb (fun c => negb (is_space c)) s.

Definition no_colon (s : str) : bool :=
  forallb (fun c => negb (Ascii.eqb c ":"%char)) s.

(** The calls follow one another: each takes the output of the one
    before, the first takes [input]. *)
Fixpoint chained {Sampling : Type} (input : list Z)
  (calls : list (GenCall Sampling)) : Prop :=
  match calls with
  | [] => True
  | c :: cs => call_input c = input /\ chained (call_output c) cs
  end.

(** What the library promises of [model.generate]: the output is the input
    followed by at most [max_new_tokens] new tokens. *)
Definition honours_max_new_tokens {Sampling : Type}
  (Model : LanguageModel Sampling) : Prop :=
  forall (i : nat) (input : list Z) (params : GenerateParams Sampling),
  exists new,
    model_generate i input params = input ++ new
    /\ (Z.of_nat (length new) <= Z.max 0 (gp_max_new_tokens params))%Z.



(** Two dictionaries that differ at most at [k]. *)
Definition agree_except {value : Type} (k : str) (m1 m2 : gmap str value)
  : Prop :=
  forall j, j <> k -> m1 !! j = m2 !! j.

(** A value text in which [eval] finds no name to look up and nothing
    to call: [True], [False], or digits and points only.  On such a text
    [eval] depends on the text alone and leaves the frame of
    [load_preset_values] as it is. *)
Definition plain_value (v : str) : bool :=
  bool_decide (v = lit "True") || bool_decide (v = lit "False")
  || forallb (fun c => is_digit c || Ascii.eqb c "."%char) v.

(** Every assignment of the file has such a value. *)
Definition plain_preset (lines : list str) : bool :=
  forallb (fun line => match preset_assignment line with
                       | Some (_, v) => plain_value v
                       | None => true
                       end) lines.

(** No white space at either end. *)
Definition trimmed (s : str) : bool :=
  match s with
  | [] => true
  | c :: _ => negb (is_space c)
  end
  && match rev s with
     | [] => true
     | c :: _ => negb (is_space c)
     end.

(** The models whose replies [formatted_outputs] leaves as they are. *)
Definition plain_model (model_name : str) : bool :=
  negb (is_galactica model_name) && negb (is_gpt4chan model_name).

(** The example dialogue of a character, when the file has one. *)
Definition example_turns (data : CharacterFile) (name1 name2 : str)
  : list turn :=
  match present (example_dialogue data) with
  | Some d => tokenize_dialogue d name1 name2
  | None => []
  end.

(** The speaker names that a call of [load_character] pastes into the
    patterns of [tokenize_dialogue]: [name1] and the [char_name] of the
    file, when there is a character and its file has an example
    dialogue; none otherwise. *)
Definition character_patterns (_character : str) (data : CharacterFile)
  (name1 : str) : list str :=
  if bool_decide (_character = lit "None") then []
  else match char_name data, present (example_dialogue data) with
       | Some name2, Some _ => [name1; name2]
       | _, _ => []
       end.

(** The same for [load_history], which tokenizes a file that is not
    JSON. *)
Definition history_patterns (file : HistoryFile) (name1 name2 : str)
  : list str :=
  match file with
  | FileNotJson _ => [name1; name2]
  | _ => []
  end.

(** A history file whose [data_visible], if it has one, is no longer
    than its [data]: what [save_history] writes from a history with no
    more visible rows than internal ones. *)
Definition history_file_ok (file : HistoryFile) : Prop :=
  match file with
  | FileData data (Some v) => length v <= length data
  | _ => True
  end.

Section Reachability.

Context {Ext : Extensions} {Sampling : Type}.

(** One operation on the history.  [step_stream] is a run of the chat
    generator over any replies, drained or abandoned at a [yield];
    [regenerate_wrapper] is [step_pop] followed by [step_stream].  The
    speaker names that an operation pastes into a pattern are names that
    the pattern reads as they stand. *)
Inductive step : History -> History -> Prop :=
| step_stream (question text original_text name1 name2 : str) (check : bool)
    (g : GenRun Sampling) (h : History) :
    regex_literal name2 = true ->
    step h (chatbot_stream question text original_text name1 name2 check g h).1.2
| step_pop (h : History) :
    step h (pop_last_turn h).2
| step_remove_last (h : History) :
    step h (remove_last_message h).2
| step_replace_last (text : str) (h : History) :
    step h (replace_last_reply text h).2
| step_clear (_character : str) (h : History) :
    step h (clear_chat_log _character h).2
| step_load_character (settings : Settings) (_character : str)
    (data : CharacterFile) (name1 name2 : str) (h : History) :
    forallb regex_literal (character_patterns _character data name1) = true ->
    step h (load_character settings _character data name1 name2 h).2
| step_load_history (file : HistoryFile) (name1 name2 : str) (h : History) :
    forallb regex_literal (history_patterns file name1 name2) = true ->
    history_file_ok file ->
    step h (load_history file name1 name2 h).2.

(** The histories that a session can be in. *)
Inductive reachable : History -> Prop :=
| reach_start : reachable empty_history
| reach_step (h h' : History) : reachable h -> step h h' -> reachable h'.

End Reachability.

(** The two [settings] entries as [server.py] sets them. *)
Definition default_settings : Settings := {|
  context_pygmalion :=
    lit "Kawaii's persona: Kawaii is a cheerful person who loves to make others smile. She is an optimist who loves to spread happiness and positivity wherever she goes."
    ++ [LF] ++ lit "<START>";
  name2_pygmalion := lit "Kawaii"
|}.

(** A character file with one turn of example dialogue. *)
Definition aqua : CharacterFile := {|
  char_name := Some (lit "Aqua");
  char_persona := Some (lit "Aqua is a cheerful guide.");
  world_scenario := None;
  example_dialogue :=
    Some (lit "You: Hi" ++ [LF] ++ lit "Aqua: Hello! How can I help?");
  char_greeting := Some (lit "Welcome back!")
|}.

(** ["{name1}: {turn.user}\n{name2}: {turn.bot}\n"] for each turn. *)
Definition reconstruct (name1 name2 : str) (turns : list turn) : str :=
  flat_map (fun t => name1 ++ lit ": " ++ t.1 ++ [LF]
                     ++ name2 ++ lit ": " ++ t.2 ++ [LF]) turns.

(** A speaker name that the patterns read as it stands and that labels a
    line: no line feed, no colon, no blank in front, not empty. *)
Definition plain_name (name : str) : bool :=
  regex_literal name
  && forallb (fun c => not_LF c && negb (Ascii.eqb c ":"%char)) name
  && match name with
     | c :: _ => negb (is_space c)
     | [] => false
     end.

(** The names that [tokenize_dialogue] rewrites to [You]. *)
Definition not_anon (name : str) : bool :=
  negb (bool_decide (name = lit "Anon")) && negb (bool_decide (name = lit "anon")).

(** A pair of one-line messages of which one at least has text. *)
Definition single_line_pair (t : turn) : bool :=
  forallb not_LF t.1 && forallb not_LF t.2 && (has_text t.1 || has_text t.2).

Definition strip_turn (t : turn) : turn := (strip t.1, strip t.2).

(** The lines of the transcript without their line feeds. *)
Definition contents_of (name1 name2 : str) (turns : list turn) : list str :=
  flat_map (fun t => [name1 ++ lit ": " ++ t.1; name2 ++ lit ": " ++ t.2]) turns.

(** The text after the first line: each further line after a line feed,
    and the line feed that ends the last line. *)
Fixpoint tail_text (cs : list str) : str :=
  match cs with
  | [] => [LF]
  | c :: cs' => LF :: c ++ tail_text cs'
  end.

(** Where the lines [cs] start in [tail_text cs] when it starts at [pos]. *)
Fixpoint positions (pos : nat) (cs : list str) : list nat :=
  match cs with
  | [] => []
  | c :: cs' => pos :: positions (pos + 1 + length c) cs'
  end.

(** A line that starts with one of the labels, wholly inside the line. *)
Definition labelled (labels : list str) (c : str) : Prop :=
  forallb not_LF c = true
  /\ exists n, 1 <= n <= length c
               /\ forall rest, label_match labels (c ++ rest) = Some n.

(** Lines that start with none of the labels are left as they are. *)
Definition unlabelled (labels : list str) (c : str) : Prop :=
  forallb not_LF c = true /\ forall rest, label_match labels (c ++ rest) = None.

(** ** Further predicates and constructions of the statements *)

(** The rows that the first loop of [generate_chat_prompt] makes of one
    turn, in the order of the prompt. *)
Definition turn_rows (name1 name2 : str) (t : turn) : list str :=
  (if bool_decide (t.1 = BEGIN_VISIBLE_CHAT) then []
   else [name1 ++ lit ": " ++ strip t.1 ++ [LF]])
  ++ [name2 ++ lit ": " ++ strip t.2 ++ [LF]].

(** The rows of a whole history, oldest turn first. *)
Definition history_row_list (name1 name2 : str) (turns : list turn)
  : list str :=
  flat_map (turn_rows name1 name2) turns.

(** The rows that [generate_chat_prompt] appends after the history. *)
Definition closing_rows {Ext : Extensions} (text name1 name2 : str)
  (impersonate : bool) : list str :=
  if negb impersonate
  then [name1 ++ lit ": " ++ clean_chat_message text ++ [LF];
        ext_bot_prefix (name2 ++ lit ":")]
  else [name1 ++ lit ":"].

(** The opening line that [load_character] stores and the one it shows:
    the greeting of the file, or [Hello there!] when it is missing or
    blank. *)
Definition opening_lines {Ext : Extensions} (data : CharacterFile)
  : str * str :=
  match char_greeting data with
  | Some g =>
      if 0 <? length (strip g) then (g, ext_output g)
      else (lit "Hello there!", lit "Hello there!")
  | None => (lit "Hello there!", lit "Hello there!")
  end.

(** A reply as [extract_message_from_reply] returns it: stripped, left
    unchanged by [clean_chat_message], and without a line of the other
    speaker in it, for a name without line feed. *)
Definition clean_reply (other r : str) : Prop :=
  strip r = r
  /\ clean_chat_message r = r
  /\ (forallb not_LF other = true ->
      contains ([LF] ++ other ++ lit ":") r = false).

(** What a run of the chat generator on the history [h] leaves: every
    earlier row of both histories as it was and one row after them.  The
    new rows are the placeholder, or they carry [text] (internally) and
    [original_text] (visibly) with a reply of the bot, which is stored as
    extracted in the internal history and after the output extensions in
    the visible one.  Every value yielded is the earlier visible history
    with one row after it, and a run that ends without exception yields
    the final visible history last. *)
Definition one_row_added {Ext : Extensions} (text original_text name1 : str)
  (h : History) (run : ChatRun) : Prop :=
  exists t' v' : turn,
    internal run.1.2 = internal h ++ [t']
    /\ visible run.1.2 = visible h ++ [v']
    /\ ((t' = placeholder /\ v' = placeholder)
        \/ exists r, t' = (text, r)
                     /\ v' = (original_text, ext_output r)
                     /\ clean_reply name1 r)
    /\ Forall (fun y => exists w, y = visible h ++ [w]) run.2
    /\ (run.1.1 = Ok tt -> list.last run.2 = Some (visible run.1.2)).

(** The line assigns the key [k]. *)
Definition assigns_key (k line : str) : bool :=
  match preset_assignment line with
  | Some (k', _) => bool_decide (k' = k)
  | None => false
  end.

(** The number of [=] signs of a line. *)
Definition equals_signs (line : str) : nat :=
  length (List.filter (fun c => Ascii.eqb c "="%char) line).

(** The text with every run of line feeds made a run of two; [in_run]
    says that the character before was a line feed. *)
Fixpoint two_line_feeds (in_run : bool) (s : str) : str :=
  match s with
  | [] => []
  | a :: s' =>
      if Ascii.eqb a LF
      then (if in_run then two_line_feeds true s'
            else LF :: LF :: two_line_feeds true s')
      else a :: two_line_feeds false s'
  end.

(** [p] occurs in [s], read off the positions one by one. *)
Fixpoint occurs (p s : str) : bool :=
  startswith p s
  || match s with
     | [] => false
     | _ :: s' => occurs p s'
     end.

(** The entries that the loader makes of the names from the index [i]
    on, when no name comes twice. *)
Fixpoint loaded_entries (available_extensions : list str)
  (names : list str) (i : nat) : ExtensionState :=
  match names with
  | [] => []
  | ext :: rest =>
      (if bool_decide (ext ∈ available_extensions) then [(ext, (true, i))]
       else [])
      ++ loaded_entries available_extensions rest (S i)
  end.

(** The names that the loop tries, in its order. *)
Definition candidate (char_name : str) (i : nat) : str :=
  match i with
  | O => char_name
  | S _ => char_name ++ lit "_" ++ format_03d i
  end.

(** The number that a string of decimal digits stands for. *)
Definition parse_decimal (s : str) : option nat :=
  option_map Nat.of_uint
    (NilEmpty.uint_of_string (String.string_of_list_ascii s)).

(** The four delimiters that [fix_galactica] is to remove. *)
Definition latex_delimiters : list str :=
  [lit "\["; lit "\]"; lit "\("; lit "\)"].

(** * Properties *)

(** ** Strings *)

Lemma ascii_eqb_eq (a b : ascii) : Ascii.eqb a b = true <-> a = b.
Proof. apply Ascii.eqb_eq. Qed.

Lemma ascii_eqb_refl (a : ascii) : Ascii.eqb a a = true.
Proof. apply Ascii.eqb_refl. Qed.

Lemma LF_is_space : is_space LF = true.
Proof. reflexivity. Qed.

Lemma not_space_not_LF (c : ascii) : is_space c = false -> Ascii.eqb c LF = false.
Proof.
  intros Hc. destruct (Ascii.eqb c LF) eqn:E; [|reflexivity].
  apply ascii_eqb_eq in E. subst c. rewrite LF_is_space in Hc. discriminate.
Qed.

Lemma drop_while_idem (p : ascii -> bool) (s : str) :
  drop_while p (drop_while p s) = drop_while p s.
Proof.
  induction s as [|c s IH]; simpl; [reflexivity|].
  destruct (p c) eqn:E; [exact IH|]. simpl. rewrite E. reflexivity.
Qed.

Lemma drop_while_snoc (p : ascii -> bool) (s : str) (c : ascii) :
  drop_while p (s ++ [c]) =
  match drop_while p s with
  | [] => if p c then [] else [c]
  | r => r ++ [c]
  end.
Proof.
  induction s as [|a s IH]; simpl; [reflexivity|].
  destruct (p a); [exact IH|reflexivity].
Qed.

(** [rstrip] read from the front of the string. *)
Lemma rstrip_cons (c : ascii) (s : str) :
  rstrip (c :: s) =
  match rstrip s with
  | [] => if is_space c then [] else [c]
  | r => c :: r
  end.
Proof.
  unfold rstrip. simpl. rewrite drop_while_snoc.
  destruct (drop_while is_space (rev s)) as [|a r]; simpl.
  - destruct (is_space c); reflexivity.
  - rewrite rev_app_distr. simpl.
    destruct (rev r ++ [a]) eqn:E; [|reflexivity].
    destruct (rev r); discriminate.
Qed.

Lemma rstrip_nil : rstrip [] = [].
Proof. reflexivity. Qed.

Lemma lstrip_idem (s : str) : lstrip (lstrip s) = lstrip s.
Proof. apply drop_while_idem. Qed.

Lemma rstrip_idem (s : str) : rstrip (rstrip s) = rstrip s.
Proof.
  unfold rstrip. rewrite rev_involutive, drop_while_idem. reflexivity.
Qed.

Lemma lstrip_rstrip_comm (s : str) : lstrip (rstrip s) = rstrip (lstrip s).
Proof.
  induction s as [|c s IH]; [reflexivity|].
  rewrite rstrip_cons. unfold lstrip at 2. simpl.
  destruct (is_space c) eqn:E.
  - fold (lstrip s). rewrite <- IH.
    destruct (rstrip s) as [|a r]; [reflexivity|].
    unfold lstrip. simpl. rewrite E. reflexivity.
  - rewrite rstrip_cons.
    destruct (rstrip s) as [|a r]; unfold lstrip; simpl; rewrite E; reflexivity.
Qed.

Lemma strip_idem (s : str) : strip (strip s) = strip s.
Proof.
  unfold strip.
  rewrite <- (lstrip_rstrip_comm (rstrip s)), rstrip_idem, lstrip_idem.
  reflexivity.
Qed.

(** A property of all characters survives stripping. *)
Lemma forallb_drop_while (q p : ascii -> bool) (s : str) :
  forallb q s = true -> forallb q (drop_while p s) = true.
Proof.
  induction s as [|c s IH]; simpl; [trivial|].
  intros H. apply andb_true_iff in H as [Hc Hs].
  destruct (p c); [auto|]. simpl. rewrite Hc, Hs. reflexivity.
Qed.

Lemma forallb_rev_str (q : ascii -> bool) (s : str) :
  forallb q (rev s) = forallb q s.
Proof.
  induction s as [|c s IH]; simpl; [reflexivity|].
  rewrite forallb_app, IH. simpl. rewrite andb_true_r. apply andb_comm.
Qed.

Lemma forallb_strip (q : ascii -> bool) (s : str) :
  forallb q s = true -> forallb q (strip s) = true.
Proof.
  intros H. unfold strip, lstrip, rstrip.
  apply forallb_drop_while. rewrite forallb_rev_str.
  apply forallb_drop_while. rewrite forallb_rev_str. exact H.
Qed.

(** [s.split('\n')[0]] is what comes before the first line feed. *)
Lemma split_on_head (s : str) :
  hd [] (split_on LF s) = take_while not_LF s.
Proof.
  induction s as [|c s IH]; simpl; [reflexivity|].
  unfold not_LF at 1. destruct (Ascii.eqb c LF); simpl; [reflexivity|].
  rewrite <- IH. destruct (split_on LF s); reflexivity.
Qed.

Lemma take_while_all (p : ascii -> bool) (s : str) :
  forallb p s = true -> take_while p s = s.
Proof.
  induction s as [|c s IH]; simpl; [reflexivity|].
  intros H. apply andb_true_iff in H as [Hc Hs].
  rewrite Hc, IH by exact Hs. reflexivity.
Qed.

Lemma take_while_forallb (p : ascii -> bool) (s : str) :
  forallb p (take_while p s) = true.
Proof.
  induction s as [|c s IH]; simpl; [reflexivity|].
  destruct (p c) eqn:E; simpl; [rewrite E; exact IH|reflexivity].
Qed.

Lemma stop_at_newline_spec (s : str) :
  stop_at_newline s = strip (take_while not_LF s).
Proof. unfold stop_at_newline. rewrite split_on_head. reflexivity. Qed.

Lemma stop_at_newline_single_line (s : str) :
  forallb not_LF (stop_at_newline s) = true.
Proof.
  rewrite stop_at_newline_spec. apply forallb_strip, take_while_forallb.
Qed.

(** What [drop_while] leaves does not start with a character that
    satisfies the test, and what it drops are characters that do. *)
Lemma take_drop_while (p : ascii -> bool) (s : str) :
  take_while p s ++ drop_while p s = s.
Proof.
  induction s as [|c s IH]; simpl; [reflexivity|].
  destruct (p c); simpl; [rewrite IH|]; reflexivity.
Qed.

Lemma drop_while_head (p : ascii -> bool) (s : str) :
  match drop_while p s with
  | [] => True
  | c :: _ => p c = false
  end.
Proof.
  induction s as [|c s IH]; simpl; [exact I|].
  destruct (p c) eqn:E; [exact IH|exact E].
Qed.

(** [strip] removes white space at the two ends, and all of it: what is
    left has none at either end. *)
Lemma strip_spec (s : str) :
  exists before after,
    s = before ++ strip s ++ after
    /\ forallb is_space before = true
    /\ forallb is_space after = true
    /\ trimmed (strip s) = true.
Proof.
  exists (take_while is_space (rstrip s)),
         (rev (take_while is_space (rev s))).
  split; [|split; [|split]].
  - unfold strip, lstrip. rewrite app_assoc, take_drop_while.
    unfold rstrip. rewrite <- rev_app_distr, take_drop_while.
    symmetry. apply rev_involutive.
  - apply take_while_forallb.
  - rewrite forallb_rev_str. apply take_while_forallb.
  - unfold trimmed. apply andb_true_intro. split.
    + unfold strip, lstrip.
      pose proof (drop_while_head is_space (rstrip s)) as H.
      destruct (drop_while is_space (rstrip s)); [reflexivity|].
      rewrite H. reflexivity.
    + unfold strip. rewrite lstrip_rstrip_comm. unfold rstrip.
      rewrite rev_involutive.
      pose proof (drop_while_head is_space (rev (lstrip s))) as H.
      destruct (drop_while is_space (rev (lstrip s))); [reflexivity|].
      rewrite H. reflexivity.
Qed.

(** ** Stop at newline *)

(** C9. The truncate-and-trim step of the stop-at-newline branch gives a
    single-line, trimmed string, and applied to such a result it gives the
    same string again. *)
Theorem C9_stop_at_newline_idempotent (s : str) :
  forallb not_LF (stop_at_newline s) = true
  /\ strip (stop_at_newline s) = stop_at_newline s
  /\ stop_at_newline (stop_at_newline s) = stop_at_newline s.
Proof.
  split; [apply stop_at_newline_single_line|].
  assert (Hs : strip (stop_at_newline s) = stop_at_newline s).
  { rewrite stop_at_newline_spec. apply strip_idem. }
  split; [exact Hs|].
  rewrite (stop_at_newline_spec (stop_at_newline s)).
  rewrite take_while_all by apply stop_at_newline_single_line.
  exact Hs.
Qed.

(** C5. With stop-at-newline on, the extracted reply is the candidate cut
    at its first line feed and trimmed; both flags stay false and the
    other speaker's name plays no part.  Cut at the first line feed: the
    candidate is a line without line feed followed by nothing or by a
    line feed.  Trimmed: the line is the reply with white space before
    and after it, and the reply has no white space at either end. *)
Theorem C5_stop_at_newline_extraction {Ext : Extensions}
  (question reply current other : str) (extensions : bool) (cand : str) :
  regex_literal current = true ->
  candidate_reply question reply current extensions = Ok cand ->
  exists r line rest before after,
    extract_message_from_reply question reply current other true extensions
    = Ok (r, false, false)
    /\ r = strip (take_while not_LF cand)
    /\ cand = line ++ rest
    /\ forallb not_LF line = true
    /\ match rest with [] => True | c :: _ => c = LF end
    /\ line = before ++ r ++ after
    /\ forallb is_space before = true
    /\ forallb is_space after = true
    /\ trimmed r = true.
Proof.
  intros _ Hc.
  destruct (strip_spec (take_while not_LF cand))
    as [before [after [Hline [Hb [Ha Ht]]]]].
  exists (strip (take_while not_LF cand)), (take_while not_LF cand),
         (drop_while not_LF cand), before, after.
  split.
  { unfold extract_message_from_reply. rewrite Hc.
    rewrite stop_at_newline_spec. reflexivity. }
  split; [reflexivity|].
  split; [symmetry; apply take_drop_while|].
  split; [apply take_while_forallb|].
  split.
  { pose proof (drop_while_head not_LF cand) as H.
    destruct (drop_while not_LF cand) as [|c rest]; [exact I|].
    unfold not_LF in H. apply negb_false_iff, ascii_eqb_eq in H. exact H. }
  split; [exact Hline|]. split; [exact Hb|]. split; [exact Ha|exact Ht].
Qed.

(** The scenario of C5: the raw candidate [Sure, I can help.\nYou: thanks]
    gives exactly [Sure, I can help.], and so does the same candidate
    with blanks around its first line. *)
Lemma C5_scenario :
  let question := lit "Chat." ++ [LF] ++ lit "You: Hi" ++ [LF] ++ lit "Bot:" in
  let cand := lit "Sure, I can help." ++ [LF] ++ lit "You: thanks" in
  let padded := lit "  Sure, I can help. " ++ [LF] ++ lit "You: thanks" in
  regex_literal (lit "Bot") = true
  /\ candidate_reply (Ext := no_extensions) question (question ++ cand)
       (lit "Bot") true = Ok cand
  /\ extract_message_from_reply (Ext := no_extensions) question
       (question ++ cand) (lit "Bot") (lit "You") true true
     = Ok (lit "Sure, I can help.", false, false)
  /\ candidate_reply (Ext := no_extensions) question (question ++ padded)
       (lit "Bot") true = Ok padded
  /\ extract_message_from_reply (Ext := no_extensions) question
       (question ++ padded) (lit "Bot") (lit "You") true true
     = Ok (lit "Sure, I can help.", false, false).
Proof.
  intros question cand padded.
  assert (Hl : regex_literal (lit "Bot") = true) by reflexivity.
  assert (Hc : candidate_reply (Ext := no_extensions) question
                 (question ++ cand) (lit "Bot") true = Ok cand)
    by reflexivity.
  assert (Hp : candidate_reply (Ext := no_extensions) question
                 (question ++ padded) (lit "Bot") true = Ok padded)
    by reflexivity.
  split; [exact Hl|]. split; [exact Hc|]. split; [|split; [exact Hp|]].
  - destruct (C5_stop_at_newline_extraction (Ext := no_extensions) question
                (question ++ cand) (lit "Bot") (lit "You") true cand Hl Hc)
      as [r [line [rest [before [after [He [Hr _]]]]]]].
    rewrite He, Hr. reflexivity.
  - destruct (C5_stop_at_newline_extraction (Ext := no_extensions) question
                (question ++ padded) (lit "Bot") (lit "You") true padded
                Hl Hp)
      as [r [line [rest [before [after [He [Hr _]]]]]]].
    rewrite He, Hr. reflexivity.
Defined.

(** ** Remove last message *)

Lemma list_pop_snoc {A : Type} (l : list A) (x : A) :
  list_pop (l ++ [x]) = Ok (x, l).
Proof.
  unfold list_pop. rewrite rev_app_distr. simpl.
  rewrite rev_involutive. reflexivity.
Qed.

Lemma py_getitem_last {A : Type} (l : list A) (x : A) :
  py_getitem (l ++ [x]) (-1) = Ok x.
Proof.
  unfold py_getitem. rewrite length_app. simpl.
  replace (Z.of_nat (length l + 1) + -1)%Z with (Z.of_nat (length l)) by lia.
  rewrite (proj2 (Z.leb_le _ _)) by lia.
  rewrite (proj2 (Z.ltb_lt _ _)) by lia.
  simpl. rewrite Nat2Z.id.
  rewrite nth_error_app2 by lia. rewrite Nat.sub_diag. reflexivity.
Qed.

Lemma py_getitem_nil {A : Type} (k : Z) :
  py_getitem (@nil A) k = Raise IndexError.
Proof.
  unfold py_getitem. simpl.
  destruct (k <? 0)%Z eqn:E; simpl.
  - apply Z.ltb_lt in E. rewrite (proj2 (Z.leb_gt _ _)) by lia. reflexivity.
  - change (Z.of_nat 0) with 0%Z. rewrite E, andb_false_r. reflexivity.
Qed.

(** When the user side of the last internal turn is the begin-chat
    marker, [remove_last_message] changes neither history and reports the
    empty text; otherwise, when the visible history has a last row too,
    it pops the last row of both histories, keeps all earlier rows, and
    reports the user side of the visible row it popped. *)
Lemma remove_last_message_spec (h : History) (earlier : list turn) (t : turn) :
  internal h = earlier ++ [t] ->
  (fst t = BEGIN_VISIBLE_CHAT ->
   remove_last_message h = (Ok (visible h, []), h))
  /\ (fst t <> BEGIN_VISIBLE_CHAT ->
      forall (shown : list turn) (last : turn),
        visible h = shown ++ [last] ->
        remove_last_message h
        = (Ok (shown, fst last), {| internal := earlier; visible := shown |})).
Proof.
  intros Hi. destruct h as [hi hv]. simpl in Hi. subst hi.
  split.
  - intros Ht. unfold remove_last_message, bind, get_internal, lift. simpl.
    rewrite py_getitem_last. rewrite bool_decide_eq_true_2 by exact Ht.
    reflexivity.
  - intros Ht shown last Hv. simpl in Hv. subst hv.
    unfold remove_last_message, bind, get_internal, lift. simpl.
    rewrite py_getitem_last. rewrite bool_decide_eq_false_2 by exact Ht.
    unfold pop_last_turn, visible_pop, internal_pop, bind, get_visible,
      get_internal, lift, set_visible, set_internal, ret.
    cbn. rewrite list_pop_snoc. cbn. rewrite list_pop_snoc. reflexivity.
Qed.

Example remove_last_message_pops :
  remove_last_message
    {| internal := [(lit "Hi", lit "Hello!"); (lit "Bye", lit "See you")];
       visible := [(lit "Hi", lit "Hello!"); (lit "Bye", lit "See you.")] |}
  = (Ok ([(lit "Hi", lit "Hello!")], lit "Bye"),
     {| internal := [(lit "Hi", lit "Hello!")];
        visible := [(lit "Hi", lit "Hello!")] |}).
Proof. reflexivity. Qed.

Example remove_last_message_keeps_greeting :
  let h := {| internal := [(BEGIN_VISIBLE_CHAT, lit "Welcome back!")];
              visible := [([], lit "Welcome back!")] |} in
  remove_last_message h = (Ok (visible h, []), h).
Proof. reflexivity. Qed.

(** C10. [remove_last_message] is to leave a scripted opening turn alone
    and otherwise to pop the last turn of both histories, in every state.
    On the history of a fresh session, which has no last turn, it does
    neither: the lookup [history['internal'][-1]] raises [IndexError],
    where [send_last_reply_to_input] and [replace_last_reply] test the
    length first and return. *)
Theorem C10_empty_history_raises :
  remove_last_message empty_history = (Raise IndexError, empty_history)
  /\ send_last_reply_to_input empty_history = (Ok [], empty_history)
  /\ replace_last_reply (Ext := no_extensions) (lit "Hi") empty_history
     = (Ok [], empty_history).
Proof. repeat split. Qed.

(** ** The index lookup of reply extraction *)

Lemma py_getitem_in_range {A : Type} (l : list A) (k : Z) :
  (- Z.of_nat (length l) <= k < Z.of_nat (length l))%Z ->
  exists x, py_getitem l k = Ok x.
Proof.
  intros Hk. unfold py_getitem.
  set (i := if (k <? 0)%Z then (Z.of_nat (length l) + k)%Z else k).
  assert (Hi : (0 <= i < Z.of_nat (length l))%Z).
  { subst i. destruct (k <? 0)%Z eqn:E.
    - apply Z.ltb_lt in E. lia.
    - apply Z.ltb_ge in E. lia. }
  rewrite (proj2 (Z.leb_le _ _)) by lia.
  rewrite (proj2 (Z.ltb_lt _ _)) by lia. simpl.
  destruct (nth_error l (Z.to_nat i)) as [x|] eqn:E; [eauto|].
  apply nth_error_None in E. lia.
Qed.

Lemma py_getitem_out_of_range {A : Type} (l : list A) (k : Z) :
  (k < - Z.of_nat (length l) \/ Z.of_nat (length l) <= k)%Z ->
  py_getitem l k = Raise IndexError.
Proof.
  intros Hk. unfold py_getitem.
  destruct (k <? 0)%Z eqn:E.
  - apply Z.ltb_lt in E.
    destruct (0 <=? Z.of_nat (length l) + k)%Z eqn:E1.
    + apply Z.leb_le in E1. lia.
    + reflexivity.
  - apply Z.ltb_ge in E.
    rewrite (proj2 (Z.ltb_ge k (Z.of_nat (length l)))) by lia.
    rewrite andb_false_r. reflexivity.
Qed.

Lemma py_getitem_raises {A : Type} (l : list A) (k : Z) (e : exn) :
  py_getitem l k = Raise e -> e = IndexError.
Proof.
  unfold py_getitem.
  destruct (_ && _); [|congruence].
  destruct (nth_error _ _); congruence.
Qed.

(** The lookup [idx[len(previous_idx)-1]] of [candidate_reply] succeeds
    exactly when the transcript has a marker and at least as many as the
    prompt. *)
Lemma candidate_reply_lookup {Ext : Extensions} (question reply current : str)
  (extensions : bool) :
  let n_prompt := length (finditer_marker [current] question) in
  let n_full := length (finditer_marker [current] reply) in
  ((exists cand, candidate_reply question reply current extensions = Ok cand)
   <-> 1 <= n_full /\ n_prompt <= n_full)
  /\ (candidate_reply question reply current extensions = Raise IndexError
      <-> n_full = 0 \/ n_full < n_prompt).
Proof.
  intros n_prompt n_full. unfold candidate_reply.
  fold n_prompt.
  destruct (Nat.eq_dec n_full 0) as [Hz|Hz];
    [|destruct (Nat.lt_ge_cases n_full n_prompt) as [Hlt|Hge]].
  - rewrite py_getitem_out_of_range by (fold n_full; lia).
    split; split; try (intros [c Hc]; discriminate); try lia; auto.
  - rewrite py_getitem_out_of_range by (fold n_full; lia).
    split; split; try (intros [c Hc]; discriminate); try lia; auto.
  - destruct (py_getitem_in_range (finditer_marker [current] reply)
                (Z.of_nat n_prompt - 1)) as [x Hx]; [fold n_full; lia|].
    rewrite Hx.
    split; split; try lia; try discriminate.
    + intros _. destruct extensions; eauto.
    + destruct extensions; discriminate.
Qed.

Lemma chatbot_loop_app {Ext : Extensions} (question text original_text : str)
  (name1 name2 : str) (check : bool) (pre rest : list str)
  (h h' : History) (ys : list (list turn)) :
  chatbot_loop question text original_text name1 name2 check pre h
  = (Exhausted, h', ys) ->
  chatbot_loop question text original_text name1 name2 check (pre ++ rest) h
  = let '(e, h'', ys') :=
      chatbot_loop question text original_text name1 name2 check rest h' in
    (e, h'', ys ++ ys').
Proof.
  revert h ys. induction pre as [|r pre IH]; intros h ys Hpre.
  - simpl in Hpre. injection Hpre as <- <-. simpl.
    destruct (chatbot_loop _ _ _ _ _ _ rest h) as [[e h''] ys']. reflexivity.
  - simpl in Hpre |- *.
    destruct (extract_message_from_reply question r name2 name1 check true)
      as [[[rep ncf] sf]|e]; [|discriminate].
    destruct (bind _ _ h) as [[u|e] h1]; [|discriminate].
    destruct ncf; [discriminate|].
    destruct (chatbot_loop _ _ _ _ _ _ pre h1) as [[e1 h2] ys1] eqn:E.
    injection Hpre as -> -> <-.
    rewrite (IH h1 ys1 E).
    destruct (chatbot_loop _ _ _ _ _ _ rest h') as [[e h''] ys'].
    rewrite app_assoc. reflexivity.
Qed.

(** C7 (amended). The index lookup of reply extraction is in bounds
    whenever the transcript has more markers of the current speaker than
    the prompt; more precisely it is in bounds exactly when the transcript
    has at least one marker and at least as many as the prompt, and it
    raises [IndexError] exactly when the transcript has no marker or fewer
    than the prompt.  When it raises on a reply of the generator inside
    [chatbot_wrapper], the loop ends with that exception and the history
    is the one written for the replies before it. *)
Theorem C7_lookup_and_failure {Ext : Extensions} (question reply current : str)
  (extensions : bool) :
  regex_literal current = true ->
  let n_prompt := length (finditer_marker [current] question) in
  let n_full := length (finditer_marker [current] reply) in
  (n_prompt < n_full ->
   exists cand, candidate_reply question reply current extensions = Ok cand)
  /\ ((exists cand, candidate_reply question reply current extensions = Ok cand)
      <-> 1 <= n_full /\ n_prompt <= n_full)
  /\ (candidate_reply question reply current extensions = Raise IndexError
      <-> n_full = 0 \/ n_full < n_prompt)
  /\ (forall (Sampling : Type) (text original_text name1 : str) (check : bool)
        (g : GenRun Sampling) (pre post : list str) (h h' : History)
        (ys : list (list turn)),
        run_yields g = pre ++ reply :: post ->
        chatbot_loop question text original_text name1 current check pre
          {| internal := internal h ++ [placeholder];
             visible := visible h ++ [placeholder] |}
        = (Exhausted, h', ys) ->
        candidate_reply question reply current true = Raise IndexError ->
        chatbot_stream question text original_text name1 current check g h
        = (Raise IndexError, h', ys)).
Proof.
  intros _ n_prompt n_full.
  destruct (candidate_reply_lookup question reply current extensions)
    as [Hok Hraise].
  fold n_prompt n_full in Hok, Hraise.
  split; [|split; [exact Hok|split; [exact Hraise|]]].
  - intros Hlt. apply Hok. lia.
  - intros Sampling text original_text name1 check g pre post h h' ys
      Hg Hpre Hfail.
    unfold chatbot_stream.
    cbv [bind internal_append visible_append get_internal get_visible
         set_internal set_visible].
    cbn [internal visible]. rewrite Hg.
    rewrite (chatbot_loop_app _ _ _ _ _ _ pre (reply :: post) _ h' ys Hpre).
    cbn [chatbot_loop]. unfold extract_message_from_reply. rewrite Hfail.
    rewrite app_nil_r. reflexivity.
Qed.

(** The generated text has no marker of the bot, yet the lookup succeeds:
    the prompt ends with the marker that the lookup lands on. *)
Lemma C7_counterexample :
  let question := lit "Chat." ++ [LF] ++ lit "You: Hi" ++ [LF] ++ lit "Bot:" in
  let generated := lit " Hello there" in
  finditer_marker [lit "Bot"] generated = []
  /\ length (finditer_marker [lit "Bot"] (question ++ generated))
     = length (finditer_marker [lit "Bot"] question)
  /\ candidate_reply (Ext := no_extensions) question (question ++ generated)
       (lit "Bot") true = Ok generated.
Proof. repeat split. Qed.

(** An instance: the streamed prompt is extracted, the next reply has no
    marker and the loop ends on the raise with the first reply written. *)
Lemma C7_witness :
  let question := lit "Chat." ++ [LF] ++ lit "You: Hi" ++ [LF] ++ lit "Bot:" in
  let g : GenRun unit :=
    {| run_calls := []; run_yields := [question; lit "no label here"];
       run_raised := None |} in
  regex_literal (lit "Bot") = true
  /\ chatbot_stream (Ext := no_extensions) question (lit "Hi") (lit "Hi")
       (lit "You") (lit "Bot") false g empty_history
     = (Raise IndexError,
        {| internal := [(lit "Hi", [])]; visible := [(lit "Hi", [])] |},
        [[(lit "Hi", [])]]).
Proof.
  intros question g. split; [reflexivity|].
  exact (proj2 (proj2 (proj2
           (C7_lookup_and_failure (Ext := no_extensions) question
              (lit "no label here") (lit "Bot") true eq_refl)))
           unit (lit "Hi") (lit "Hi") (lit "You") false g [question] []
           empty_history _ _ eq_refl eq_refl eq_refl).
Defined.

(** ** The streaming loop *)

Section StreamLoop.

Context {Sampling : Type} {Tok : Tokenizer} {Ext : Extensions} {Model : LanguageModel Sampling}.
Variables (args : Args) (original_question question : str).
Variables (params : GenerateParams Sampling) (n : Z).

Lemma stream_loop_params (rounds i : nat) (input_ids : list Z) :
  Forall (fun c => call_params c = params)
    (run_calls (stream_loop args original_question question params n
                  rounds i input_ids)).
Proof.
  revert i input_ids. induction rounds as [|r IH]; intros i input_ids; simpl.
  - constructor.
  - destruct (py_getitem _ _) as [last|e]; simpl.
    + destruct (last =? n)%Z; simpl; repeat constructor. apply IH.
    + repeat constructor.
Qed.

Lemma stream_loop_count (rounds i : nat) (input_ids : list Z) :
  length (run_calls (stream_loop args original_question question params n
                       rounds i input_ids)) <= rounds.
Proof.
  revert i input_ids. induction rounds as [|r IH]; intros i input_ids; simpl.
  - lia.
  - destruct (py_getitem _ _) as [last|e]; simpl; [|lia].
    destruct (last =? n)%Z; simpl; [lia|].
    specialize (IH (S i) (model_generate i input_ids params)). lia.
Qed.

Lemma stream_loop_chained (rounds i : nat) (input_ids : list Z) :
  chained input_ids
    (run_calls (stream_loop args original_question question params n
                  rounds i input_ids)).
Proof.
  revert i input_ids. induction rounds as [|r IH]; intros i input_ids; simpl.
  - exact I.
  - destruct (py_getitem _ _) as [last|e]; simpl; [|auto].
    destruct (last =? n)%Z; simpl; [auto|].
    split; [reflexivity|apply IH].
Qed.

Lemma stream_loop_outputs (rounds i : nat) (input_ids : list Z) :
  Forall (fun c => exists k,
            call_output c = model_generate k (call_input c) (call_params c))
    (run_calls (stream_loop args original_question question params n
                  rounds i input_ids)).
Proof.
  revert i input_ids. induction rounds as [|r IH]; intros i input_ids; simpl.
  - constructor.
  - destruct (py_getitem _ _) as [last|e]; simpl.
    + destruct (last =? n)%Z; simpl; repeat constructor; eauto.
    + repeat constructor. eauto.
Qed.

(** No call follows one whose output ends with the end token. *)
Lemma stream_loop_stops (rounds i : nat) (input_ids : list Z)
  (pre post : list (GenCall Sampling)) (c : GenCall Sampling) :
  run_calls (stream_loop args original_question question params n
               rounds i input_ids) = pre ++ c :: post ->
  py_getitem (call_output c) (-1) = Ok n ->
  post = [].
Proof.
  revert i input_ids pre.
  induction rounds as [|r IH]; intros i input_ids pre; simpl.
  - destruct pre; discriminate.
  - destruct (py_getitem (model_generate i input_ids params) (-1))
      as [last|e] eqn:E; simpl.
    + destruct (last =? n)%Z eqn:En; simpl.
      * intros Hc _. destruct pre as [|a [|b pre]]; simpl in Hc;
          injection Hc; intros; subst; try reflexivity; try discriminate.
      * intros Hc Hend. destruct pre as [|a pre]; simpl in Hc.
        -- injection Hc as <- _. simpl in Hend. rewrite E in Hend.
           injection Hend as ->. rewrite Z.eqb_refl in En. discriminate.
        -- injection Hc as _ Hc. exact (IH _ _ _ Hc Hend).
    + intros Hc _. destruct pre as [|a [|b pre]]; simpl in Hc;
        injection Hc; intros; subst; try reflexivity; try discriminate.
Qed.

End StreamLoop.

(** C4 (amended). In streaming mode every call of [model.generate] asks
    for 8 new tokens on top of the sequence that the call before returned,
    so each call extends the sequence by at most 8 tokens when the model
    keeps to [max_new_tokens]; there are at most [tokens // 8 + 1] calls;
    and no call follows one whose output ends with the end token, which is
    the tokenizer's end-of-sequence token or the last token of the
    caller's text. *)
Theorem C4_streaming_increments {Sampling : Type} {Tok : Tokenizer}
  {Ext : Extensions} {Model : LanguageModel Sampling}
  (args : Args) (question : str) (tokens : Z) (sampling : Sampling)
  (min_length : Z) (eos_token stopping_string : option str) :
  args_no_stream args = false ->
  let run := generate_reply args question tokens sampling min_length
               eos_token stopping_string in
  Forall (fun c =>
            gp_max_new_tokens (call_params c) = 8%Z
            /\ Ok (gp_eos_token_id (call_params c)) = end_token eos_token
            /\ exists k, call_output c
                         = model_generate k (call_input c) (call_params c))
         (run_calls run)
  /\ (honours_max_new_tokens Model ->
      Forall (fun c => exists new, call_output c = call_input c ++ new
                                   /\ length new <= 8)
             (run_calls run))
  /\ chained (encode (if negb (chat_mode args) then ext_input question
                      else question) tokens true)
             (run_calls run)
  /\ length (run_calls run) <= Z.to_nat (tokens / 8 + 1)
  /\ (forall pre c post,
        run_calls run = pre ++ c :: post ->
        py_getitem (call_output c) (-1) = Ok (gp_eos_token_id (call_params c)) ->
        post = []).
Proof.
  intros Hstream run. subst run. unfold generate_reply.
  destruct (end_token eos_token) as [n|e] eqn:En.
  2:{ simpl. repeat split; try constructor; try lia.
      intros pre c post Hc. destruct pre; discriminate. }
  rewrite Hstream. cbn [run_calls].
  set (q := if negb (chat_mode args) then ext_input question else question).
  set (params := {| gp_eos_token_id := n; gp_stopping_criteria := _;
                    gp_sampling := sampling; gp_min_length := 0%Z;
                    gp_synced_gpus := args_deepspeed args;
                    gp_max_new_tokens := 8%Z |}).
  set (calls := run_calls (stream_loop args question q params n
                             (Z.to_nat (tokens / 8 + 1)) 0
                             (encode q tokens true))).
  assert (Hp : Forall (fun c => call_params c = params) calls)
    by apply stream_loop_params.
  assert (Ho : Forall (fun c => exists k,
                call_output c = model_generate k (call_input c) (call_params c))
              calls) by apply stream_loop_outputs.
  rewrite Forall_forall in Hp, Ho.
  split; [|split; [|split; [apply stream_loop_chained|split;
             [apply stream_loop_count|]]]].
  - apply Forall_forall. intros c Hin.
    rewrite (Hp c Hin). repeat split. rewrite <- (Hp c Hin). exact (Ho c Hin).
  - intros Hmodel. apply Forall_forall. intros c Hin.
    destruct (Ho c Hin) as [k Hk]. rewrite (Hp c Hin) in Hk.
    destruct (Hmodel k (call_input c) params) as [new [Hnew Hlen]].
    exists new. split; [congruence|]. simpl in Hlen. lia.
  - intros pre c post Hc Hend.
    assert (Hcp : call_params c = params).
    { apply Hp. fold calls in Hc. rewrite Hc.
      apply in_or_app. right. left. reflexivity. }
    rewrite Hcp in Hend. simpl in Hend.
    exact (stream_loop_stops args question q params n _ _ _ pre post c Hc Hend).
Qed.

Lemma eos_model_honours_max_new_tokens : honours_max_new_tokens eos_model.
Proof.
  intros i input params. simpl.
  destruct (0 <? gp_max_new_tokens params)%Z eqn:E.
  - exists [gp_eos_token_id params]. split; [reflexivity|].
    apply Z.ltb_lt in E. simpl. lia.
  - exists []. split; [rewrite app_nil_r; reflexivity|]. simpl. lia.
Qed.

(** An instance: the character tokenizer and a model that ends at once. *)
Lemma C4_witness :
  let run := generate_reply (Tok := char_tokenizer) (Ext := no_extensions)
               (Model := eos_model) chat_streaming (lit "Hi") 200 tt 0
               None None in
  args_no_stream chat_streaming = false
  /\ honours_max_new_tokens eos_model
  /\ Forall (fun c => exists new, call_output c = call_input c ++ new
                                  /\ length new <= 8)
            (run_calls run)
  /\ length (run_calls run) <= Z.to_nat (200 / 8 + 1).
Proof.
  intros run.
  pose proof (C4_streaming_increments (Tok := char_tokenizer)
                (Ext := no_extensions) (Model := eos_model)
                chat_streaming (lit "Hi") 200 tt 0 None None eq_refl)
    as [_ [Hmost [_ [Hcount _]]]].
  split; [reflexivity|]. split; [exact eos_model_honours_max_new_tokens|].
  split; [exact (Hmost eos_model_honours_max_new_tokens)|exact Hcount].
Defined.

(** A model that ends its answer at once: the only call extends the
    sequence by one token, not by eight. *)
Lemma C4_counterexample :
  let run := generate_reply (Tok := char_tokenizer) (Ext := no_extensions)
               (Model := eos_model) chat_streaming (lit "Hi") 200 tt 0
               None None in
  honours_max_new_tokens eos_model
  /\ map call_input (run_calls run) = [[72; 105]%Z]
  /\ map call_output (run_calls run) = [[72; 105; 0]%Z]
  /\ map (fun c => gp_max_new_tokens (call_params c)) (run_calls run) = [8%Z].
Proof.
  split; [exact eos_model_honours_max_new_tokens|]. repeat split.
Qed.

(** ** The prompt window *)

Lemma keep_last_length {A : Type} (n : nat) (l : list A) :
  length (keep_last n l) = Nat.min n (length l).
Proof. unfold keep_last. rewrite length_skipn. lia. Qed.

(** Truncation does not hide an overlong prompt from the test of the
    loops: the truncated length is below the budget exactly when the full
    length is. *)
Lemma rows_len_below_budget {Tok : Tokenizer} (rows : list str) (tokens : Z) :
  (rows_len rows tokens <? 2048 - tokens)%Z = true
  <-> (Z.of_nat (length (tokenizer_encode true (concat rows)))
       < 2048 - tokens)%Z.
Proof.
  unfold rows_len, encode. rewrite keep_last_length, Z.ltb_lt. lia.
Qed.

Lemma pop1_length (rows rows' : list str) :
  pop1 rows = Ok rows' -> length rows = S (length rows').
Proof.
  destruct rows as [|r [|a rs]]; simpl; try discriminate.
  intros H. injection H as <-. reflexivity.
Qed.

Lemma pop1_ok (rows : list str) :
  2 <= length rows -> exists rows', pop1 rows = Ok rows'.
Proof.
  destruct rows as [|r [|a rs]]; simpl; try lia. eauto.
Qed.

(** The second loop ends, never pops from a list that is too short, and
    leaves rows that are within the budget or no more than [limit]. *)
Lemma trim_rows_spec {Tok : Tokenizer} (tokens : Z) (limit : nat) :
  2 <= limit ->
  forall (fuel : nat) (rows : list str),
    length rows <= fuel ->
    exists rows',
      trim_rows fuel tokens limit rows = Some (Ok rows')
      /\ ((rows_len rows' tokens <? 2048 - tokens)%Z = true
          \/ length rows' <= limit).
Proof.
  intros Hlimit. induction fuel as [|fuel IH]; intros rows Hfuel.
  - simpl. destruct (limit <? length rows) eqn:E.
    + apply Nat.ltb_lt in E. lia.
    + simpl. exists rows. split; [reflexivity|]. right.
      apply Nat.ltb_ge in E. exact E.
  - simpl. destruct (limit <? length rows) eqn:E; simpl.
    + destruct (2048 - tokens <=? rows_len rows tokens)%Z eqn:Eb.
      * apply Nat.ltb_lt in E.
        destruct (pop1_ok rows) as [rows1 H1]; [lia|].
        pose proof (pop1_length _ _ H1) as L1.
        destruct (pop1_ok rows1) as [rows2 H2]; [lia|].
        pose proof (pop1_length _ _ H2) as L2.
        rewrite H1, H2. apply IH. lia.
      * exists rows. split; [reflexivity|]. left.
        apply Z.leb_gt in Eb. apply Z.ltb_lt. exact Eb.
    + exists rows. split; [reflexivity|]. right.
      apply Nat.ltb_ge in E. exact E.
Qed.

(** The builder always returns, and what it returns is within the
    budget or has no more than the mandatory rows. *)
Lemma generate_chat_prompt_rows_spec {Tok : Tokenizer} {Ext : Extensions}
  (text : str) (tokens : Z) (name1 name2 context : str) (history_size : Z)
  (impersonate : bool) (h : History) :
  let limit := if impersonate then 2 else 3 in
  exists rows,
    generate_chat_prompt_rows text tokens name1 name2 context history_size
      impersonate h = (Some (Ok rows), limit)
    /\ generate_chat_prompt text tokens name1 name2 context history_size
         impersonate h = Some (Ok (concat rows))
    /\ ((Z.of_nat (length (tokenizer_encode true (concat rows)))
         < 2048 - tokens)%Z
        \/ length rows <= limit).
Proof.
  intros limit. unfold generate_chat_prompt, generate_chat_prompt_rows.
  set (rows0 := history_rows tokens name1 name2 history_size
                  (rev (internal h)) [strip context ++ [LF]] 0).
  destruct impersonate; simpl negb; cbv iota; cbn [fst].
  - destruct (trim_rows_spec tokens 2 (le_n 2) _ (rows0 ++ [name1 ++ lit ":"])
                (le_n _)) as [rows [Ht Hr]].
    exists rows. rewrite Ht. repeat split.
    destruct Hr as [Hr|Hr]; [left; apply rows_len_below_budget; exact Hr|].
    right. exact Hr.
  - destruct (trim_rows_spec tokens 3 (le_S _ _ (le_n 2)) _
                (rows0 ++ [name1 ++ lit ": " ++ clean_chat_message text ++ [LF]]
                       ++ [ext_bot_prefix (name2 ++ lit ":")])
                (le_n _)) as [rows [Ht Hr]].
    exists rows. rewrite Ht. repeat split.
    destruct Hr as [Hr|Hr]; [left; apply rows_len_below_budget; exact Hr|].
    right. exact Hr.
Qed.


Lemma generate_chat_prompt_returns {Tok : Tokenizer} {Ext : Extensions}
  (text : str) (tokens : Z) (name1 name2 context : str) (history_size : Z)
  (impersonate : bool) (h : History) :
  exists question,
    generate_chat_prompt text tokens name1 name2 context history_size
      impersonate h = Some (Ok question).
Proof.
  destruct (generate_chat_prompt_rows_spec text tokens name1 name2 context
              history_size impersonate h) as [rows [_ [Hq _]]].
  eauto.
Qed.

(** C1 (amended). The prompt builder always returns; the prompt it
    returns tokenizes to fewer than [2048 - tokens] tokens, unless no more
    than the mandatory rows are left in it (the context header and the
    two closing rows, or the one closing row when impersonating): the
    second loop stops there whatever the length. *)
Theorem C1_prompt_budget {Tok : Tokenizer} {Ext : Extensions}
  (text : str) (tokens : Z) (name1 name2 context : str) (history_size : Z)
  (impersonate : bool) (h : History) :
  let limit := if impersonate then 2 else 3 in
  exists rows,
    generate_chat_prompt_rows text tokens name1 name2 context history_size
      impersonate h = (Some (Ok rows), limit)
    /\ generate_chat_prompt text tokens name1 name2 context history_size
         impersonate h = Some (Ok (concat rows))
    /\ ((Z.of_nat (length (tokenizer_encode true (concat rows)))
         < 2048 - tokens)%Z
        \/ length rows <= limit).
Proof.
  apply generate_chat_prompt_rows_spec.
Qed.

(** With the default context, 2000 tokens to generate and an empty
    history, the mandatory rows alone take 65 tokens of the character
    tokenizer, more than the 48 that are left. *)
Lemma C1_counterexample :
  exists prompt,
    generate_chat_prompt (Tok := char_tokenizer) (Ext := no_extensions)
      (lit "hi") 2000 (lit "Person 1") (lit "Person 2")
      (lit "This is a conversation between two people.") 0 false empty_history
    = Some (Ok prompt)
    /\ length (tokenizer_encode (Tokenizer := char_tokenizer) true prompt) = 65
    /\ ~ (Z.of_nat (length (tokenizer_encode (Tokenizer := char_tokenizer)
                              true prompt)) < 2048 - 2000)%Z.
Proof.
  eexists. split; [reflexivity|]. split; [reflexivity|].
  simpl. lia.
Qed.

(** ** Presets *)

Section Presets.

Context {value : Type} {Val : PyValues value}.

Lemma preset_assignment_not_tokens (line k v : str) :
  preset_assignment line = Some (k, v) -> k <> lit "tokens".
Proof.
  unfold preset_assignment.
  destruct (split_on _ _) as [|a [|b [|c l]]]; try discriminate.
  destruct (bool_decide (strip a = lit "tokens")) eqn:E; simpl; [discriminate|].
  intros H. injection H as <- _.
  apply bool_decide_eq_false in E. exact E.
Qed.

Lemma default_params_tokens :
  (default_params : gmap str value) !! lit "tokens" = None.
Proof.
  unfold default_params.
  repeat (rewrite lookup_insert_ne by discriminate).
  apply lookup_empty.
Qed.

(** The loop never writes the key [tokens]. *)
Lemma preset_lines_tokens (lines : list str) (m m' : gmap str value) :
  m !! lit "tokens" = None ->
  preset_lines lines m = Ok m' ->
  m' !! lit "tokens" = None.
Proof.
  revert m. induction lines as [|line rest IH]; intros m Hm; simpl.
  - intros H. injection H as <-. exact Hm.
  - destruct (preset_assignment line) as [[k v]|] eqn:E; [|apply IH; exact Hm].
    destruct (py_eval v) as [x|e]; [|discriminate].
    apply IH. rewrite lookup_insert_ne; [exact Hm|].
    exact (preset_assignment_not_tokens _ _ _ E).
Qed.

(** The loop keeps the keys that are there. *)
Lemma preset_lines_keeps (lines : list str) (m m' : gmap str value) (k : str) :
  is_Some (m !! k) ->
  preset_lines lines m = Ok m' ->
  is_Some (m' !! k).
Proof.
  revert m. induction lines as [|line rest IH]; intros m Hm; simpl.
  - intros H. injection H as <-. exact Hm.
  - destruct (preset_assignment line) as [[k' v]|]; [|apply IH; exact Hm].
    destruct (py_eval v) as [x|e]; [|discriminate].
    apply IH. destruct (decide (k' = k)) as [->|Hne].
    + rewrite lookup_insert_eq. eauto.
    + rewrite lookup_insert_ne by exact Hne. exact Hm.
Qed.

(** Every assignment of the file, recognised or not, leaves an entry. *)
Lemma preset_lines_entry (lines : list str) (m m' : gmap str value)
  (line k v : str) :
  In line lines ->
  preset_assignment line = Some (k, v) ->
  preset_lines lines m = Ok m' ->
  is_Some (m' !! k).
Proof.
  revert m. induction lines as [|l rest IH]; intros m Hin Hline; simpl.
  - destruct Hin.
  - destruct Hin as [->|Hin].
    + rewrite Hline. destruct (py_eval v) as [x|e]; [|discriminate].
      apply preset_lines_keeps. rewrite lookup_insert_eq. eauto.
    + destruct (preset_assignment l) as [[k' v']|]; [|apply IH; assumption].
      destruct (py_eval v') as [x|e]; [|discriminate].
      apply IH; assumption.
Qed.

Lemma agree_except_insert (k j : str) (x : value) (m1 m2 : gmap str value) :
  agree_except k m1 m2 -> agree_except k (<[j := x]> m1) (<[j := x]> m2).
Proof.
  intros Ha i Hi. destruct (decide (j = i)) as [->|Hne].
  - rewrite !lookup_insert_eq. reflexivity.
  - rewrite !lookup_insert_ne by exact Hne. apply Ha. exact Hi.
Qed.

Lemma preset_lines_agree (k : str) (lines : list str) (m1 m2 : gmap str value) :
  agree_except k m1 m2 ->
  match preset_lines lines m1, preset_lines lines m2 with
  | Ok a, Ok b => agree_except k a b
  | Raise e1, Raise e2 => e1 = e2
  | _, _ => False
  end.
Proof.
  revert m1 m2. induction lines as [|line rest IH]; intros m1 m2 Ha; simpl.
  - exact Ha.
  - destruct (preset_assignment line) as [[k' v]|]; [|apply IH; exact Ha].
    destruct (py_eval v) as [x|e]; [|reflexivity].
    apply IH, agree_except_insert, Ha.
Qed.

Lemma preset_lines_app (l1 l2 : list str) (m : gmap str value) :
  preset_lines (l1 ++ l2) m =
  match preset_lines l1 m with
  | Ok m' => preset_lines l2 m'
  | Raise e => Raise e
  end.
Proof.
  revert m. induction l1 as [|line rest IH]; intros m; simpl; [reflexivity|].
  destruct (preset_assignment line) as [[k v]|]; [|apply IH].
  destruct (py_eval v) as [x|e]; [apply IH|reflexivity].
Qed.

Lemma dict_get_all_agree (k : str) (keys : list str) (m1 m2 : gmap str value) :
  agree_except k m1 m2 -> ~ In k keys ->
  dict_get_all m1 keys = dict_get_all m2 keys.
Proof.
  intros Ha. induction keys as [|j keys IH]; intros Hk; simpl; [reflexivity|].
  unfold dict_get. rewrite (Ha j) by (intros ->; apply Hk; left; reflexivity).
  rewrite IH by (intros Hin; apply Hk; right; exact Hin). reflexivity.
Qed.

Lemma dict_get_all_length (keys : list str) (m : gmap str value)
  (vs : list value) :
  dict_get_all m keys = Ok vs -> length vs = length keys.
Proof.
  revert vs. induction keys as [|j keys IH]; intros vs; simpl.
  - intros H. injection H as <-. reflexivity.
  - destruct (dict_get m j); [|discriminate].
    destruct (dict_get_all m keys) as [ws|]; [|discriminate].
    intros H. injection H as <-. simpl. f_equal. apply IH. reflexivity.
Qed.

(** The tuple form does not see an assignment to a key outside the twelve
    fields, provided its value evaluates. *)
Lemma load_preset_lines_frame (before after : list str) (line k v : str)
  (x : value) :
  preset_assignment line = Some (k, v) ->
  ~ In k preset_fields ->
  py_eval v = Ok x ->
  load_preset_lines (before ++ line :: after) false
  = load_preset_lines (before ++ after) false.
Proof.
  intros Hline Hk Hx. unfold load_preset_lines.
  rewrite !preset_lines_app.
  destruct (preset_lines before default_params) as [m|e]; [|reflexivity].
  cbn [preset_lines]. rewrite Hline, Hx.
  assert (Ha : agree_except k (<[k := x]> m) m).
  { intros j Hj. apply lookup_insert_ne. congruence. }
  pose proof (preset_lines_agree k after _ _ Ha) as Hr.
  destruct (preset_lines after (<[k := x]> m)) as [a|e1];
    destruct (preset_lines after m) as [b|e2]; try contradiction;
    [|congruence].
  assert (Hkt : lit "temperature" <> k).
  { intros <-. apply Hk. right. left. reflexivity. }
  unfold dict_get at 1 2. rewrite (Hr (lit "temperature")) by exact Hkt.
  destruct (b !! lit "temperature") as [t|]; [|reflexivity].
  destruct (py_min_1_99 t) as [t'|e]; [|reflexivity].
  rewrite (dict_get_all_agree k preset_fields _ (<[lit "temperature" := t']> b));
    [reflexivity| |exact Hk].
  apply agree_except_insert, Hr.
Qed.

End Presets.

(** C6 (amended). For a preset file whose values are plain literals,
    which [eval] reads without touching the dictionary: loading it never
    writes the key [tokens].  The tuple form returns the twelve
    recognised fields only, so an assignment to any other key, if its
    value evaluates, does not change the result.  The dictionary form
    keeps an entry for every assignment of the file but [tokens],
    whether its key is recognised or not. *)
Theorem C6_preset_keys {value : Type} {Val : PyValues value} :
  (forall (preset : str) (m : gmap str value),
      plain_preset (splitlines preset) = true ->
      load_preset_values preset true = Ok (PresetDict m) ->
      m !! lit "tokens" = None
      /\ forall line k v,
           In line (splitlines preset) ->
           preset_assignment line = Some (k, v) ->
           is_Some (m !! k))
  /\ (forall (before after : list str) (line k v : str) (x : value),
        plain_preset (before ++ line :: after) = true ->
        preset_assignment line = Some (k, v) ->
        ~ In k preset_fields ->
        py_eval v = Ok x ->
        load_preset_lines (before ++ line :: after) false
        = load_preset_lines (before ++ after) false)
  /\ (forall (lines : list str) (vs : list value),
        plain_preset lines = true ->
        load_preset_lines lines false = Ok (PresetTuple vs) ->
        length vs = 12).
Proof.
  split; [|split].
  - intros preset m _. unfold load_preset_values, load_preset_lines.
    destruct (preset_lines (splitlines preset) default_params) as [p|e] eqn:E;
      [|discriminate].
    destruct (dict_get p (lit "temperature")) as [t|e]; [|discriminate].
    destruct (py_min_1_99 t) as [t'|e]; [|discriminate].
    intros H. injection H as <-. split.
    + rewrite lookup_insert_ne by discriminate.
      exact (preset_lines_tokens _ _ _ default_params_tokens E).
    + intros line k v Hin Hline.
      pose proof (preset_lines_entry _ _ _ _ _ _ Hin Hline E) as Hs.
      destruct (decide (lit "temperature" = k)) as [<-|Hne].
      * rewrite lookup_insert_eq. eauto.
      * rewrite lookup_insert_ne by exact Hne. exact Hs.
  - intros before after line k v x _. apply load_preset_lines_frame.
  - intros lines vs _. unfold load_preset_lines.
    destruct (preset_lines lines default_params) as [p|e]; [|discriminate].
    destruct (dict_get p (lit "temperature")) as [t|e]; [|discriminate].
    destruct (py_min_1_99 t) as [t'|e]; [|discriminate].
    destruct (dict_get_all _ preset_fields) as [ws|e] eqn:E; [|discriminate].
    intros H. injection H as <-.
    exact (dict_get_all_length _ _ _ E).
Qed.

Lemma foo_not_a_field : ~ In (lit "foo") preset_fields.
Proof.
  intros H. repeat (destruct H as [H|H]; [discriminate H|]). exact H.
Qed.

(** An instance: a line [foo=1,] between recognised assignments. *)
Lemma C6_witness :
  let before := [lit "temperature=2"] in
  let after := [lit "tokens=5"; lit "top_k=40,"] in
  plain_preset (before ++ lit "foo=1," :: after) = true
  /\ preset_assignment (lit "foo=1,") = Some (lit "foo", lit "1")
  /\ ~ In (lit "foo") preset_fields
  /\ py_eval (PyValues := literal_values) (lit "1") = Ok (LInt 1)
  /\ load_preset_lines (Val := literal_values)
       (before ++ lit "foo=1," :: after) false
     = load_preset_lines (Val := literal_values) (before ++ after) false.
Proof.
  intros before after.
  refine (conj eq_refl (conj eq_refl (conj foo_not_a_field (conj eq_refl _)))).
  exact (proj1 (proj2 (C6_preset_keys (Val := literal_values)))
           before after (lit "foo=1,") (lit "foo") (lit "1") (LInt 1)
           eq_refl eq_refl foo_not_a_field eq_refl).
Defined.

(** The dictionary that [create_settings_menus] asks for has an entry for
    the unrecognised key [foo] of the file, whose value is a plain
    literal. *)
Lemma C6_counterexample :
  exists m,
    plain_preset (splitlines (lit "foo=1")) = true
    /\ load_preset_values (Val := literal_values) (lit "foo=1") true
       = Ok (PresetDict m)
    /\ m !! lit "foo" = Some (LInt 1)
    /\ ~ In (lit "foo") preset_fields.
Proof.
  eexists. split; [reflexivity|]. split; [reflexivity|].
  split; [|exact foo_not_a_field].
  rewrite lookup_insert_ne by discriminate.
  apply lookup_insert_eq.
Qed.

(** ** The lengths of the two histories *)






















Lemma greeting_anchor_bound (l : list turn) (i0 i : nat) (t : turn) :
  greeting_anchor l i0 = Some (i, t) -> i0 <= i < i0 + length l.
Proof.
  revert i0. induction l as [|a l IH]; intros i0; simpl; [discriminate|].
  destruct (contains BEGIN_VISIBLE_CHAT a.1).
  - intros H. injection H as <- _. lia.
  - intros H. apply IH in H. lia.
Qed.




Section ReachabilityFacts.

Context {Ext : Extensions} {Sampling : Type}.



End ReachabilityFacts.

(** The chat wrappers are made of these steps. *)
Lemma chatbot_wrapper_returns {Sampling : Type} {Tok : Tokenizer}
  {Ext : Extensions} {Model : LanguageModel Sampling} (args : Args)
  (text : str) (tokens : Z) (sampling : Sampling) (min_length : Z)
  (name1 name2 context : str) (check : bool) (history_size : Z)
  (h : History) :
  exists question g,
    chatbot_wrapper args text tokens sampling min_length name1 name2 context
      check history_size h
    = Some (chatbot_stream (Sampling := Sampling) question (ext_input text)
              text name1 name2 check g h).
Proof.
  unfold chatbot_wrapper.
  destruct (generate_chat_prompt_returns (ext_input text) tokens name1 name2
              context history_size false h) as [question Hq].
  rewrite Hq. eauto.
Qed.

Lemma chatbot_wrapper_reachable {Sampling : Type} {Tok : Tokenizer}
  {Ext : Extensions} {Model : LanguageModel Sampling} (args : Args)
  (text : str) (tokens : Z) (sampling : Sampling) (min_length : Z)
  (name1 name2 context : str) (check : bool) (history_size : Z)
  (h : History) :
  regex_literal name2 = true ->
  reachable (Sampling := Sampling) h ->
  exists run,
    chatbot_wrapper args text tokens sampling min_length name1 name2 context
      check history_size h = Some run
    /\ reachable (Sampling := Sampling) run.1.2.
Proof.
  intros Hlit Hh.
  destruct (chatbot_wrapper_returns args text tokens sampling min_length
              name1 name2 context check history_size h) as [q [g Hw]].
  eexists. split; [exact Hw|].
  eapply reach_step; [exact Hh|apply step_stream; exact Hlit].
Qed.

Lemma regenerate_wrapper_reachable {Sampling : Type} {Tok : Tokenizer}
  {Ext : Extensions} {Model : LanguageModel Sampling} (args : Args)
  (tokens : Z) (sampling : Sampling) (min_length : Z)
  (name1 name2 context : str) (check : bool) (history_size : Z)
  (h : History) :
  regex_literal name2 = true ->
  reachable (Sampling := Sampling) h ->
  exists run,
    regenerate_wrapper args tokens sampling min_length name1 name2 context
      check history_size h = Some run
    /\ reachable (Sampling := Sampling) run.1.2.
Proof.
  intros Hlit Hh. unfold regenerate_wrapper.
  assert (Hp : reachable (Sampling := Sampling) (pop_last_turn h).2)
    by (eapply reach_step; [exact Hh|apply step_pop]).
  destruct (pop_last_turn h) as [[last|e] h1]; simpl in Hp.
  - apply chatbot_wrapper_reachable; [exact Hlit|exact Hp].
  - eexists. split; [reflexivity|]. exact Hp.
Qed.




(** ** The partial label at the end of a reply *)

Lemma has_text_app (a b : str) : has_text (a ++ b) = has_text a || has_text b.
Proof. apply existsb_app. Qed.

Lemma rstrip_has_text (s : str) : has_text s = true -> rstrip s <> [].
Proof.
  induction s as [|c s IH]; simpl; [discriminate|].
  rewrite rstrip_cons. intros H.
  destruct (rstrip s) as [|a r] eqn:E; [|discriminate].
  destruct (is_space c) eqn:Ec; [|discriminate].
  simpl in H. exfalso. apply IH; [exact H|reflexivity].
Qed.

Lemma rstrip_app_text (a b : str) :
  has_text b = true -> rstrip (a ++ b) = a ++ rstrip b.
Proof.
  intros Hb. induction a as [|c a IH]; [reflexivity|].
  simpl. rewrite rstrip_cons, IH.
  destruct (a ++ rstrip b) eqn:E; [|reflexivity].
  apply app_eq_nil in E as [_ E]. exfalso. exact (rstrip_has_text _ Hb E).
Qed.

Lemma lstrip_app_text (a b : str) :
  has_text a = true -> lstrip (a ++ b) = lstrip a ++ b.
Proof.
  induction a as [|c a IH]; simpl; [discriminate|].
  unfold lstrip. simpl. destruct (is_space c); simpl; [exact IH|reflexivity].
Qed.

(** What [rstrip] removes is a suffix. *)
Lemma rstrip_prefix (s : str) : exists w, s = rstrip s ++ w.
Proof.
  induction s as [|c s [w IH]]; [exists []; reflexivity|].
  rewrite rstrip_cons. destruct (rstrip s) as [|a r] eqn:E.
  - destruct (is_space c).
    + exists (c :: s). reflexivity.
    + exists w. simpl in IH. rewrite IH at 1. reflexivity.
  - exists w. rewrite IH at 1. reflexivity.
Qed.

Lemma replace_char_app (c : ascii) (r a b : str) :
  replace_char c r (a ++ b) = replace_char c r a ++ replace_char c r b.
Proof. apply flat_map_app. Qed.

Lemma replace_char_absent (r s : str) :
  forallb not_LF s = true -> replace_char LF r s = s.
Proof.
  induction s as [|a s IH]; simpl; [reflexivity|].
  unfold not_LF at 1. intros H. apply andb_true_iff in H as [Ha Hs].
  apply negb_true_iff in Ha. unfold replace_char in *. simpl.
  rewrite Ha. simpl. f_equal. exact (IH Hs).
Qed.

Lemma has_text_replace_char (r s : str) :
  has_text s = true -> has_text (replace_char LF r s) = true.
Proof.
  induction s as [|a s IH]; simpl; [discriminate|].
  unfold replace_char. simpl. fold (replace_char LF r s).
  rewrite has_text_app. intros H. apply orb_true_iff in H as [Ha|Hs].
  - apply negb_true_iff in Ha. rewrite (not_space_not_LF _ Ha). simpl.
    rewrite Ha. reflexivity.
  - rewrite (IH Hs). apply orb_true_r.
Qed.

Lemma collapse_from_single_line (s : str) :
  forallb not_LF s = true -> collapse_from 0 s = s.
Proof.
  induction s as [|a s IH]; simpl; [reflexivity|].
  unfold not_LF at 1. intros H. apply andb_true_iff in H as [Ha Hs].
  apply negb_true_iff in Ha. rewrite Ha. simpl. f_equal. exact (IH Hs).
Qed.

Lemma emit_run_two (run : nat) : emit_run (S (S run)) = [LF; LF].
Proof. unfold emit_run. destruct run; reflexivity. Qed.

(** Two line feeds before a character that is none stay two, whatever
    comes before them. *)
Lemma collapse_from_before_line (x : str) (c : ascii) (p : str) :
  Ascii.eqb c LF = false ->
  forall run, exists y,
    collapse_from run (x ++ LF :: LF :: c :: p)
    = y ++ LF :: LF :: c :: collapse_from 0 p
    /\ (has_text x = true -> has_text y = true).
Proof.
  intros Hc. induction x as [|a x IH]; intros run.
  - exists []. cbn [collapse_from app].
    rewrite !ascii_eqb_refl, Hc, emit_run_two.
    split; [reflexivity|discriminate].
  - cbn [collapse_from app]. destruct (Ascii.eqb a LF) eqn:Ea.
    + destruct (IH (S run)) as [y [Hy Ht]]. exists y. split; [exact Hy|].
      apply ascii_eqb_eq in Ea. subst a. intros Hx. apply Ht. exact Hx.
    + destruct (IH 0) as [y [Hy Ht]]. exists (emit_run run ++ a :: y).
      rewrite Hy. split; [rewrite <- app_assoc; reflexivity|].
      rewrite has_text_app. simpl. intros H.
      apply orb_true_iff in H as [Ha|Hx].
      * rewrite Ha. simpl. apply orb_true_r.
      * rewrite (Ht Hx). rewrite !orb_true_r. reflexivity.
Qed.

Lemma startswith_app (p s : str) :
  startswith p s = true -> exists rest, s = p ++ rest.
Proof.
  revert s. induction p as [|a p IH]; intros s; [exists s; reflexivity|].
  destruct s as [|b s]; simpl; [discriminate|].
  intros H. apply andb_true_iff in H as [Hab Hp].
  apply ascii_eqb_eq in Hab. subst b.
  destruct (IH s Hp) as [rest ->]. exists rest. reflexivity.
Qed.

Lemma startswith_refl_app (p rest : str) : startswith p (p ++ rest) = true.
Proof.
  induction p as [|a p IH]; simpl; [reflexivity|].
  rewrite ascii_eqb_refl. exact IH.
Qed.

(** The loop over [j] finds a tail that is a line feed and a non-empty
    prefix of the other speaker's name. *)
Lemma tail_is_partial_found (z q rest : str) :
  tail_is_partial ([LF] ++ (q ++ rest) ++ lit ":") (z ++ LF :: q) = true.
Proof.
  unfold tail_is_partial. apply existsb_exists.
  exists (S (length q)). split.
  - apply in_seq. simpl. rewrite !length_app. simpl. lia.
  - apply bool_decide_eq_true.
    unfold suffix_of_len, prefix_of_len.
    rewrite length_app. simpl.
    replace (length z + S (length q) - S (length q)) with (length z + 0) by lia.
    rewrite skipn_app, Nat.add_0_r, skipn_all, Nat.sub_diag. simpl.
    f_equal. rewrite <- app_assoc, firstn_app, firstn_all, Nat.sub_diag.
    simpl. rewrite app_nil_r. reflexivity.
Qed.

(** A candidate that ends, after some text, with a line feed and the
    beginning of a line keeps that ending through
    [clean_chat_message], up to the blanks at the very end. *)
Lemma clean_chat_message_tail (body p : str) :
  has_text body = true -> has_text p = true -> forallb not_LF p = true ->
  exists z q w,
    clean_chat_message (body ++ [LF] ++ p) = z ++ LF :: q /\ p = q ++ w.
Proof.
  intros Hbody Hp Hline.
  destruct p as [|c p]; [discriminate|].
  assert (Hc : Ascii.eqb c LF = false).
  { simpl in Hline. apply andb_true_iff in Hline as [Hc _].
    apply negb_true_iff in Hc. exact Hc. }
  unfold clean_chat_message.
  rewrite replace_char_app.
  change (replace_char LF [LF; LF] ([LF] ++ c :: p))
    with (LF :: LF :: replace_char LF [LF; LF] (c :: p)).
  rewrite (replace_char_absent _ (c :: p) Hline).
  destruct (collapse_from_before_line (replace_char LF [LF; LF] body) c p Hc 0)
    as [y [Hy Hty]].
  unfold collapse_newlines. rewrite Hy.
  rewrite collapse_from_single_line
    by (simpl in Hline; apply andb_true_iff in Hline as [_ Hl]; exact Hl).
  specialize (Hty (has_text_replace_char _ _ Hbody)).
  unfold strip.
  change (y ++ LF :: LF :: c :: p) with (y ++ [LF; LF] ++ c :: p).
  rewrite app_assoc, (rstrip_app_text _ (c :: p) Hp).
  rewrite <- app_assoc, (lstrip_app_text y _ Hty).
  destruct (rstrip_prefix (c :: p)) as [w Hw].
  exists (lstrip y ++ [LF]), (rstrip (c :: p)), w.
  split; [rewrite <- app_assoc; reflexivity|exact Hw].
Qed.

(** C3 (amended). With stop-at-newline off, a candidate with no complete
    [\n{other}:] in it that ends, after some text, with a line feed and a
    prefix of the other speaker's name (with a character that is not
    blank, and no line feed) raises the substring-found flag.  The
    scenario of a candidate ending in [\nYo] for the speaker [You] is an
    instance. *)
Theorem C3_partial_label_detected {Ext : Extensions}
  (question reply current other : str) (extensions : bool) (body p : str) :
  regex_literal current = true ->
  candidate_reply question reply current extensions = Ok (body ++ [LF] ++ p) ->
  startswith p other = true ->
  has_text body = true ->
  has_text p = true ->
  forallb not_LF p = true ->
  find ([LF] ++ other ++ lit ":") (body ++ [LF] ++ p) = None ->
  extract_message_from_reply question reply current other false extensions
  = Ok (clean_chat_message (body ++ [LF] ++ p), false, true).
Proof.
  intros _ Hc Hprefix Hbody Hp Hline Hfind.
  unfold extract_message_from_reply. rewrite Hc.
  unfold scan_next_speaker. rewrite Hfind.
  destruct (clean_chat_message_tail body p Hbody Hp Hline)
    as [z [q [w [Hclean Hq]]]].
  destruct (startswith_app _ _ Hprefix) as [rest Hrest].
  rewrite Hclean.
  replace other with (q ++ (w ++ rest))
    by (rewrite Hrest, Hq, <- app_assoc; reflexivity).
  rewrite tail_is_partial_found. reflexivity.
Qed.

(** The scenario of C3: stop-at-newline off, the other speaker is [You],
    the candidate ends in [great!\nYo]. *)
Lemma C3_scenario :
  let question := lit "Chat." ++ [LF] ++ lit "You: Hi" ++ [LF] ++ lit "Bot:" in
  let body := lit " That sounds great!" in
  let p := lit "Yo" in
  regex_literal (lit "Bot") = true
  /\ candidate_reply (Ext := no_extensions) question
       (question ++ body ++ [LF] ++ p) (lit "Bot") true
     = Ok (body ++ [LF] ++ p)
  /\ startswith p (lit "You") = true
  /\ has_text body = true
  /\ has_text p = true
  /\ forallb not_LF p = true
  /\ find ([LF] ++ lit "You" ++ lit ":") (body ++ [LF] ++ p) = None
  /\ extract_message_from_reply (Ext := no_extensions) question
       (question ++ body ++ [LF] ++ p) (lit "Bot") (lit "You") false true
     = Ok (lit "That sounds great!" ++ [LF; LF] ++ lit "Yo", false, true).
Proof.
  intros question body p.
  repeat (split; [reflexivity|]).
  rewrite (C3_partial_label_detected (Ext := no_extensions) question
             (question ++ body ++ [LF] ++ p) (lit "Bot") (lit "You") true
             body p eq_refl eq_refl eq_refl eq_refl eq_refl eq_refl eq_refl).
  reflexivity.
Defined.

(** The tail [\n] alone is a non-empty proper prefix of [\nYou:], but
    [clean_chat_message] strips it before the tails are compared: the
    flag stays down. *)
Lemma C3_counterexample :
  let question := lit "Chat." ++ [LF] ++ lit "You: Hi" ++ [LF] ++ lit "Bot:" in
  let cand := lit " That sounds great!" ++ [LF] in
  let tmp := [LF] ++ lit "You" ++ lit ":" in
  candidate_reply (Ext := no_extensions) question (question ++ cand)
    (lit "Bot") true = Ok cand
  /\ suffix_of_len 1 cand = prefix_of_len 1 tmp
  /\ 1 < length tmp
  /\ extract_message_from_reply (Ext := no_extensions) question
       (question ++ cand) (lit "Bot") (lit "You") false true
     = Ok (lit "That sounds great!", false, false).
Proof.
  intros question cand tmp.
  split; [reflexivity|]. split; [reflexivity|].
  split; [simpl; lia|reflexivity].
Qed.

(** ** Tokenizing a pasted dialogue *)

Lemma label_match_nil (labels : list str) : label_match labels [] = None.
Proof.
  induction labels as [|l ls IH]; simpl; [reflexivity|].
  destruct l; simpl; exact IH.
Qed.

Lemma marker_match_inside (labels : list str) (c : ascii) (t : str) :
  Ascii.eqb c LF = false -> marker_match false labels (c :: t) = None.
Proof. intros H. unfold marker_match. rewrite H. reflexivity. Qed.

(** Inside a line nothing matches: the scan runs to its end. *)
Lemma finditer_from_content (labels : list str) (c r : str) :
  forallb not_LF c = true ->
  forall pos skip, skip <= length c ->
    finditer_from labels pos skip false (c ++ r)
    = finditer_from labels (pos + length c) 0 false r.
Proof.
  intros Hc. induction c as [|a c IH]; intros pos skip Hs.
  - simpl in *. replace skip with 0 by lia. rewrite Nat.add_0_r. reflexivity.
  - simpl in Hc. apply andb_true_iff in Hc as [Ha Hc].
    apply negb_true_iff in Ha.
    cbn [app finditer_from length]. destruct skip as [|k].
    + rewrite (marker_match_inside _ _ _ Ha), (IH Hc) by lia.
      f_equal. lia.
    + rewrite (IH Hc) by (simpl in Hs; lia). f_equal. lia.
Qed.

Lemma finditer_from_tail (labels : list str) (cs : list str) :
  Forall (labelled labels) cs ->
  forall pos, finditer_from labels pos 0 false (tail_text cs) = positions pos cs.
Proof.
  induction 1 as [|c cs [Hline [n [Hn Hl]]] _ IH]; intros pos.
  - cbn [tail_text finditer_from]. unfold marker_match.
    rewrite ascii_eqb_refl, label_match_nil. reflexivity.
  - cbn [tail_text finditer_from positions]. unfold marker_match.
    rewrite ascii_eqb_refl, Hl.
    rewrite (finditer_from_content labels c _ Hline) by lia.
    rewrite IH. f_equal. f_equal. lia.
Qed.

Lemma finditer_marker_text (labels : list str) (c : str) (cs : list str) :
  labelled labels c -> Forall (labelled labels) cs ->
  finditer_marker labels (c ++ tail_text cs) = 0 :: positions (length c) cs.
Proof.
  intros [Hline [n [Hn Hl]]] Hcs. unfold finditer_marker.
  destruct c as [|a c]; [simpl in Hn; lia|].
  cbn [app finditer_from]. unfold marker_match.
  change (a :: c ++ tail_text cs) with ((a :: c) ++ tail_text cs).
  rewrite Hl. cbn [app].
  simpl in Hline. apply andb_true_iff in Hline as [_ Hline].
  rewrite (finditer_from_content labels c _ Hline) by (simpl in Hn; lia).
  rewrite (finditer_from_tail _ _ Hcs). reflexivity.
Qed.

Lemma strip_space_cons (c : ascii) (s : str) :
  is_space c = true -> strip (c :: s) = strip s.
Proof.
  intros Hc. unfold strip. rewrite !lstrip_rstrip_comm.
  unfold lstrip at 1. simpl. rewrite Hc. reflexivity.
Qed.

Lemma strip_snoc_LF (s : str) : strip (s ++ [LF]) = strip s.
Proof.
  unfold strip, rstrip. rewrite rev_app_distr. reflexivity.
Qed.

Lemma strip_LF_cons (s : str) : strip (LF :: s) = strip s.
Proof. apply strip_space_cons. reflexivity. Qed.

Lemma message_slices_two (d : str) (a b : nat) (rest : list nat) :
  message_slices d (a :: b :: rest)
  = strip (firstn (b - a) (skipn a d)) :: message_slices d (b :: rest).
Proof. reflexivity. Qed.

(** The slices between the line starts are the lines, stripped. *)
Lemma message_slices_tail (cs : list str) :
  cs <> [] ->
  forall pre,
    message_slices (pre ++ tail_text cs) (positions (length pre) cs)
    = map strip cs.
Proof.
  induction cs as [|c cs IH]; intros Hne pre; [contradiction|].
  cbn [positions tail_text map].
  destruct cs as [|c2 cs].
  - cbn [positions message_slices tail_text map].
    rewrite skipn_app, skipn_all, Nat.sub_diag. cbn [app skipn].
    change (LF :: c ++ [LF]) with ((LF :: c) ++ [LF]).
    rewrite strip_snoc_LF, strip_LF_cons. reflexivity.
  - remember (c2 :: cs) as cs' eqn:Ecs.
    assert (Hcs' : cs' <> []) by (subst cs'; discriminate).
    specialize (IH Hcs' (pre ++ LF :: c)).
    rewrite length_app in IH. cbn [length] in IH.
    replace (length pre + S (length c)) with (length pre + 1 + length c)
      in IH by lia.
    rewrite <- app_assoc in IH. cbn [app] in IH.
    destruct (positions (length pre + 1 + length c) cs') as [|b rest] eqn:Ep.
    { subst cs'. discriminate. }
    rewrite message_slices_two, IH. f_equal.
    assert (Hb : b = length pre + 1 + length c)
      by (subst cs'; simpl in Ep; injection Ep as <- _; reflexivity).
    rewrite Hb.
    replace (length pre + 1 + length c - length pre) with (S (length c)) by lia.
    rewrite skipn_app, skipn_all, Nat.sub_diag. cbn [app skipn firstn].
    rewrite firstn_app, firstn_all, Nat.sub_diag. cbn [firstn].
    rewrite app_nil_r. apply strip_LF_cons.
Qed.

Lemma message_slices_text (c : str) (cs : list str) :
  message_slices (c ++ tail_text cs) (0 :: positions (length c) cs)
  = map strip (c :: cs).
Proof.
  destruct cs as [|c2 cs].
  - cbn [positions message_slices tail_text map].
    rewrite skipn_O, strip_snoc_LF. reflexivity.
  - remember (c2 :: cs) as cs' eqn:Ecs.
    assert (Hcs' : cs' <> []) by (subst cs'; discriminate).
    pose proof (message_slices_tail cs' Hcs' c) as Ht.
    destruct (positions (length c) cs') as [|b rest] eqn:Ep.
    { subst cs'. discriminate. }
    rewrite message_slices_two, Ht. cbn [map]. f_equal.
    assert (Hb : b = length c)
      by (subst cs'; simpl in Ep; injection Ep as <- _; reflexivity).
    rewrite Hb, Nat.sub_0_r, skipn_O.
    rewrite firstn_app, firstn_all, Nat.sub_diag. cbn [firstn].
    rewrite app_nil_r. reflexivity.
Qed.

(** A pattern that occurs nowhere is replaced nowhere. *)
Lemma find_from_none (p s : str) (pos : nat) :
  find_from p s pos = None ->
  startswith p s = false
  /\ match s with [] => True | _ :: s' => find_from p s' (S pos) = None end.
Proof.
  destruct s as [|a s]; simpl.
  - destruct (startswith p []); [discriminate|auto].
  - destruct (startswith p (a :: s)); [discriminate|auto].
Qed.

Lemma replace_from_absent (p r s : str) (pos : nat) :
  find_from p s pos = None -> replace_from p r 0 s = s.
Proof.
  revert pos. induction s as [|a s IH]; intros pos H; [reflexivity|].
  destruct (find_from_none _ _ _ H) as [Hs Hrest].
  cbn [replace_from]. rewrite Hs. f_equal. exact (IH _ Hrest).
Qed.

Lemma replace_absent (p r s : str) :
  find p s = None -> replace p r s = s.
Proof. apply replace_from_absent. Qed.

Lemma sub_marker_from_content (labels : list str) (new c r : str) :
  forallb not_LF c = true ->
  sub_marker_from labels new 0 false (c ++ r)
  = c ++ sub_marker_from labels new 0 false r.
Proof.
  induction c as [|a c IH]; intros Hc; [reflexivity|].
  simpl in Hc. apply andb_true_iff in Hc as [Ha Hc].
  apply negb_true_iff in Ha.
  cbn [app sub_marker_from]. rewrite (marker_match_inside _ _ _ Ha).
  f_equal. exact (IH Hc).
Qed.

Lemma sub_marker_from_tail (labels : list str) (new : str) (cs : list str) :
  Forall (unlabelled labels) cs ->
  sub_marker_from labels new 0 false (tail_text cs) = tail_text cs.
Proof.
  induction 1 as [|c cs [Hline Hl] _ IH].
  - cbn [tail_text sub_marker_from]. unfold marker_match.
    rewrite ascii_eqb_refl, label_match_nil. reflexivity.
  - cbn [tail_text sub_marker_from]. unfold marker_match.
    rewrite ascii_eqb_refl, Hl.
    rewrite (sub_marker_from_content labels new c _ Hline), IH. reflexivity.
Qed.

Lemma sub_marker_text (labels : list str) (new c : str) (cs : list str) :
  c <> [] -> unlabelled labels c -> Forall (unlabelled labels) cs ->
  sub_marker labels new (c ++ tail_text cs) = c ++ tail_text cs.
Proof.
  intros Hne [Hline Hl] Hcs. unfold sub_marker.
  destruct c as [|a c]; [contradiction|].
  cbn [app sub_marker_from]. unfold marker_match.
  change (a :: c ++ tail_text cs) with ((a :: c) ++ tail_text cs).
  rewrite Hl. cbn [app].
  simpl in Hline. apply andb_true_iff in Hline as [Ha Hline].
  apply negb_true_iff in Ha. rewrite Ha. f_equal.
  rewrite (sub_marker_from_content labels new c _ Hline).
  rewrite (sub_marker_from_tail _ _ _ Hcs). reflexivity.
Qed.

#[local] Arguments Ascii.eqb : simpl never.

(** Two labels without a colon that start the same line are the same. *)
Lemma label_prefix_eq (a b t : str) :
  no_colon a = true -> no_colon b = true ->
  startswith (a ++ lit ":") (b ++ lit ":" ++ t) = true -> a = b.
Proof.
  revert b. induction a as [|x a IH]; intros [|y b] Ha Hb H.
  - reflexivity.
  - simpl in Hb, H. apply andb_true_iff in Hb as [Hy _].
    apply andb_true_iff in H as [Hxy _].
    apply ascii_eqb_eq in Hxy. subst y. discriminate.
  - simpl in Ha, H. apply andb_true_iff in Ha as [Hx _].
    apply andb_true_iff in H as [Hxy _].
    apply ascii_eqb_eq in Hxy. subst x. discriminate.
  - simpl in Ha, Hb, H.
    apply andb_true_iff in Ha as [_ Ha]. apply andb_true_iff in Hb as [_ Hb].
    apply andb_true_iff in H as [Hxy H].
    apply ascii_eqb_eq in Hxy. subst y. f_equal. exact (IH b Ha Hb H).
Qed.

Lemma label_prefix_neq (a b t : str) :
  no_colon a = true -> no_colon b = true -> a <> b ->
  startswith (a ++ lit ":") (b ++ lit ":" ++ t) = false.
Proof.
  intros Ha Hb Hne.
  destruct (startswith (a ++ lit ":") (b ++ lit ":" ++ t)) eqn:E;
    [|reflexivity].
  exfalso. exact (Hne (label_prefix_eq _ _ _ Ha Hb E)).
Qed.

Lemma plain_name_facts (name : str) :
  plain_name name = true ->
  forallb not_LF name = true
  /\ no_colon name = true
  /\ exists c rest, name = c :: rest /\ is_space c = false.
Proof.
  unfold plain_name. intros H.
  apply andb_true_iff in H as [H Hfirst]. apply andb_true_iff in H as [_ Hall].
  split; [|split].
  - rewrite forallb_forall in *. intros c Hc.
    specialize (Hall c Hc). apply andb_true_iff in Hall as [Hl _]. exact Hl.
  - unfold no_colon. rewrite forallb_forall in *. intros c Hc.
    specialize (Hall c Hc). apply andb_true_iff in Hall as [_ Hl]. exact Hl.
  - destruct name as [|c rest]; [discriminate|].
    exists c, rest. split; [reflexivity|].
    apply negb_true_iff in Hfirst. exact Hfirst.
Qed.

Lemma rstrip_app_cases (a b : str) :
  rstrip (a ++ b) = match rstrip b with
                    | [] => rstrip a
                    | r => a ++ r
                    end.
Proof.
  induction a as [|c a IH]; simpl.
  - destruct (rstrip b); reflexivity.
  - rewrite !rstrip_cons, IH.
    destruct (rstrip b) as [|x r]; [reflexivity|].
    destruct (a ++ x :: r) eqn:E; [|reflexivity].
    destruct a; discriminate.
Qed.

Lemma rstrip_snoc_text (a : str) (c : ascii) :
  is_space c = false -> rstrip (a ++ [c]) = a ++ [c].
Proof.
  intros Hc. unfold rstrip. rewrite rev_app_distr. simpl. rewrite Hc.
  simpl. rewrite rev_involutive. reflexivity.
Qed.

(** A line [name: text] stripped: the label stays, the text loses its
    blanks at the end. *)
Lemma strip_labelled_line (name x : str) :
  plain_name name = true ->
  strip (name ++ lit ": " ++ x)
  = (name ++ lit ":") ++ rstrip (lit " " ++ x).
Proof.
  intros Hn. destruct (plain_name_facts _ Hn) as [_ [_ [c [rest [-> Hc]]]]].
  unfold strip.
  replace ((c :: rest) ++ lit ": " ++ x)
    with (((c :: rest) ++ [":"%char]) ++ (lit " " ++ x))
    by (rewrite <- app_assoc; reflexivity).
  rewrite rstrip_app_cases.
  rewrite (rstrip_snoc_text (c :: rest) ":"%char eq_refl).
  change (lit ":") with [":"%char].
  destruct (rstrip (lit " " ++ x)) as [|y r].
  - rewrite app_nil_r. unfold lstrip. simpl. rewrite Hc. reflexivity.
  - unfold lstrip. simpl. rewrite Hc. reflexivity.
Qed.

Lemma has_text_rstrip (s : str) : has_text (rstrip s) = has_text s.
Proof.
  induction s as [|c s IH]; [reflexivity|].
  rewrite rstrip_cons.
  change (has_text (c :: s)) with (negb (is_space c) || has_text s).
  rewrite <- IH. destruct (rstrip s) as [|a r]; [|reflexivity].
  destruct (is_space c) eqn:E; cbn; rewrite ?E; reflexivity.
Qed.

Lemma has_text_lstrip (s : str) : has_text (lstrip s) = has_text s.
Proof.
  induction s as [|c s IH]; [reflexivity|].
  unfold lstrip. simpl. destruct (is_space c) eqn:E; simpl.
  - exact IH.
  - rewrite E. reflexivity.
Qed.

Lemma has_text_strip (s : str) : has_text (strip s) = has_text s.
Proof. unfold strip. rewrite has_text_lstrip. apply has_text_rstrip. Qed.

Lemma strip_rstrip (s : str) : strip (rstrip s) = strip s.
Proof. unfold strip. rewrite rstrip_idem. reflexivity. Qed.

Lemma length_zero_has_text (s : str) :
  has_text s = true -> (length (strip s) =? 0) = false.
Proof.
  intros H. rewrite <- has_text_strip in H.
  destruct (strip s); [discriminate|reflexivity].
Qed.

(** What [tokenize_dialogue] makes of a message [name: text]. *)
Lemma message_text (name x : str) :
  plain_name name = true ->
  startswith (name ++ lit ":") (strip (name ++ lit ": " ++ x)) = true
  /\ strip (skipn (length (name ++ lit ":")) (strip (name ++ lit ": " ++ x)))
     = strip x.
Proof.
  intros Hn. rewrite (strip_labelled_line _ _ Hn). split.
  - apply startswith_refl_app.
  - rewrite skipn_app, skipn_all, Nat.sub_diag. cbn [app skipn].
    rewrite skipn_O, strip_rstrip.
    apply strip_space_cons. reflexivity.
Qed.

Lemma message_other_label (name other x : str) :
  plain_name name = true -> plain_name other = true -> other <> name ->
  startswith (other ++ lit ":") (strip (name ++ lit ": " ++ x)) = false.
Proof.
  intros Hn Ho Hne. rewrite (strip_labelled_line _ _ Hn).
  destruct (plain_name_facts _ Hn) as [_ [Hcn _]].
  destruct (plain_name_facts _ Ho) as [_ [Hco _]].
  rewrite <- app_assoc. apply label_prefix_neq; assumption.
Qed.

(** The pairing loop on the stripped lines of a transcript. *)
Lemma pair_messages_contents (name1 name2 : str) (pairs : list turn) :
  plain_name name1 = true -> plain_name name2 = true -> name1 <> name2 ->
  forallb single_line_pair pairs = true ->
  pair_messages name1 name2 (map strip (contents_of name1 name2 pairs)) ([], [])
  = map strip_turn pairs.
Proof.
  intros H1 H2 Hne. induction pairs as [|[x y] pairs IH]; intros Hp;
    [reflexivity|].
  simpl in Hp. apply andb_true_iff in Hp as [Hxy Hp].
  unfold single_line_pair in Hxy. cbn [fst snd] in Hxy.
  apply andb_true_iff in Hxy as [_ Htext].
  cbn [contents_of flat_map app map fst snd pair_messages].
  destruct (message_text name1 x H1) as [Hs1 Hx].
  destruct (message_text name2 y H2) as [Hs2 Hy].
  rewrite Hs1, Hx.
  rewrite (message_other_label name2 name1 y H2 H1 Hne), Hs2, Hy.
  cbn [fst snd].
  assert (Hboth : (length (strip x) =? 0) && (length (strip y) =? 0) = false).
  { apply orb_true_iff in Htext as [Ht|Ht];
      rewrite (length_zero_has_text _ Ht); [reflexivity|apply andb_false_r]. }
  rewrite Hboth. cbn [negb app].
  fold (contents_of name1 name2 pairs). rewrite (IH Hp). reflexivity.
Qed.

Ltac norm_app := repeat (progress (rewrite <- ?app_assoc; cbn [app])).

Lemma content_shape (name x rest : str) :
  (name ++ lit ": " ++ x) ++ rest
  = name ++ lit ":" ++ (lit " " ++ x ++ rest).
Proof. rewrite <- !app_assoc. reflexivity. Qed.

Lemma content_single_line (name x : str) :
  plain_name name = true -> forallb not_LF x = true ->
  forallb not_LF (name ++ lit ": " ++ x) = true.
Proof.
  intros Hn Hx. destruct (plain_name_facts _ Hn) as [Hl _].
  rewrite !forallb_app, Hl, Hx. reflexivity.
Qed.

Lemma content_label_match (name x rest : str) (others : list str) :
  label_match (name :: others) ((name ++ lit ": " ++ x) ++ rest)
  = Some (length name + 1).
Proof.
  cbn [label_match]. rewrite content_shape, app_assoc, startswith_refl_app.
  reflexivity.
Qed.

Lemma content_label_skip (label name x rest : str) (others : list str) :
  no_colon label = true -> plain_name name = true -> label <> name ->
  label_match (label :: others) ((name ++ lit ": " ++ x) ++ rest)
  = label_match others ((name ++ lit ": " ++ x) ++ rest).
Proof.
  intros Hl Hn Hne. destruct (plain_name_facts _ Hn) as [_ [Hc _]].
  cbn [label_match]. rewrite content_shape at 1.
  rewrite (label_prefix_neq _ _ _ Hl Hc Hne). reflexivity.
Qed.

Lemma content_labelled (name1 name2 name x : str) :
  plain_name name1 = true -> plain_name name2 = true ->
  name = name1 \/ name = name2 ->
  forallb not_LF x = true ->
  labelled [name1; name2] (name ++ lit ": " ++ x).
Proof.
  intros H1 H2 Hname Hx.
  assert (Hn : plain_name name = true) by (destruct Hname; subst; assumption).
  split; [exact (content_single_line _ _ Hn Hx)|].
  destruct (decide (name1 = name)) as [->|Hne].
  - exists (length name + 1). split.
    + rewrite !length_app. simpl. lia.
    + intros rest. apply content_label_match.
  - destruct Hname as [-> | ->]; [contradiction|].
    exists (length name2 + 1). split.
    + rewrite !length_app. simpl. lia.
    + intros rest. destruct (plain_name_facts _ H1) as [_ [Hc1 _]].
      rewrite (content_label_skip _ _ _ _ _ Hc1 H2 Hne).
      apply content_label_match.
Qed.

Lemma content_unlabelled (labels : list str) (name x : str) :
  plain_name name = true -> forallb not_LF x = true ->
  Forall (fun l => no_colon l = true /\ l <> name) labels ->
  unlabelled labels (name ++ lit ": " ++ x).
Proof.
  intros Hn Hx Hl. split; [exact (content_single_line _ _ Hn Hx)|].
  intros rest. induction Hl as [|l ls [Hc Hne] _ IH]; [reflexivity|].
  rewrite (content_label_skip _ _ _ _ _ Hc Hn Hne). exact IH.
Qed.

Lemma contents_forall (P : str -> Prop) (name1 name2 : str)
  (pairs : list turn) :
  (forall name x, name = name1 \/ name = name2 -> forallb not_LF x = true ->
                  P (name ++ lit ": " ++ x)) ->
  forallb single_line_pair pairs = true ->
  Forall P (contents_of name1 name2 pairs).
Proof.
  intros HP. induction pairs as [|[x y] pairs IH]; intros Hp; [constructor|].
  simpl in Hp. apply andb_true_iff in Hp as [Hxy Hp].
  unfold single_line_pair in Hxy. cbn [fst snd] in Hxy.
  apply andb_true_iff in Hxy as [Hxy _].
  apply andb_true_iff in Hxy as [Hx Hy].
  cbn [contents_of flat_map app fst snd].
  constructor; [apply HP; auto|]. constructor; [apply HP; auto|].
  exact (IH Hp).
Qed.

Lemma tail_text_contents (name1 name2 : str) (pairs : list turn) :
  tail_text (contents_of name1 name2 pairs) = LF :: reconstruct name1 name2 pairs.
Proof.
  induction pairs as [|[x y] pairs IH]; [reflexivity|].
  cbn [contents_of reconstruct flat_map app tail_text fst snd].
  fold (contents_of name1 name2 pairs). fold (reconstruct name1 name2 pairs).
  rewrite IH. norm_app. reflexivity.
Qed.

(** A transcript is its first line followed by the others. *)
Lemma reconstruct_cons (name1 name2 x y : str) (pairs : list turn) :
  reconstruct name1 name2 ((x, y) :: pairs)
  = (name1 ++ lit ": " ++ x)
    ++ tail_text ((name2 ++ lit ": " ++ y) :: contents_of name1 name2 pairs).
Proof.
  cbn [reconstruct flat_map tail_text fst snd].
  fold (reconstruct name1 name2 pairs).
  rewrite tail_text_contents. norm_app. reflexivity.
Qed.

Lemma plain_name_not_label (name : str) (label : str) :
  plain_name name = true -> plain_name label = false -> label <> name.
Proof. intros Hn Hl ->. congruence. Qed.

(** The transcript passes the four rewrites of [tokenize_dialogue]
    unchanged, is cut at its line starts, and pairs up as it was built. *)
Lemma tokenize_dialogue_reconstruct (name1 name2 : str) (pairs : list turn) :
  plain_name name1 = true -> plain_name name2 = true -> name1 <> name2 ->
  not_anon name1 = true -> not_anon name2 = true ->
  forallb single_line_pair pairs = true ->
  find (lit "<START>") (reconstruct name1 name2 pairs) = None ->
  find (lit "<start>") (reconstruct name1 name2 pairs) = None ->
  tokenize_dialogue (reconstruct name1 name2 pairs) name1 name2
  = map strip_turn pairs.
Proof.
  intros H1 H2 Hne Ha1 Ha2 Hp Hs1 Hs2.
  unfold tokenize_dialogue.
  rewrite (replace_absent _ _ _ Hs1), (replace_absent _ _ _ Hs2).
  destruct pairs as [|[x y] pairs]; [reflexivity|].
  pose proof (contents_forall (labelled [name1; name2]) name1 name2
                ((x, y) :: pairs)
                (fun name t Hn Ht => content_labelled name1 name2 name t
                                       H1 H2 Hn Ht) Hp) as Hlab.
  assert (Hnames : forall name, name = name1 \/ name = name2 ->
            plain_name name = true /\ not_anon name = true).
  { intros name [-> | ->]; auto. }
  assert (Hanon : Forall (unlabelled [lit "Anon"; lit "anon"])
                    (contents_of name1 name2 ((x, y) :: pairs))).
  { apply contents_forall; [|exact Hp]. intros name t Hn Ht.
    destruct (Hnames name Hn) as [Hpl Han].
    unfold not_anon in Han. apply andb_true_iff in Han as [HA Ha].
    apply negb_true_iff, bool_decide_eq_false in HA, Ha.
    apply content_unlabelled; [exact Hpl|exact Ht|].
    repeat constructor; congruence. }
  assert (Hchar : Forall (unlabelled [lit "[CHARACTER]"])
                    (contents_of name1 name2 ((x, y) :: pairs))).
  { apply contents_forall; [|exact Hp]. intros name t Hn Ht.
    destruct (Hnames name Hn) as [Hpl _].
    apply content_unlabelled; [exact Hpl|exact Ht|].
    repeat constructor.
    apply plain_name_not_label; [exact Hpl|reflexivity]. }
  assert (Hfirst : name1 ++ lit ": " ++ x <> [])
    by (destruct (plain_name_facts _ H1) as [_ [_ [c [r [-> _]]]]]; discriminate).
  cbn [contents_of flat_map app fst snd] in Hlab, Hanon, Hchar.
  fold (contents_of name1 name2 pairs) in Hlab, Hanon, Hchar.
  rewrite reconstruct_cons.
  pose proof (Forall_inv Hlab) as Hl1.
  pose proof (Forall_inv_tail Hlab) as Hlrest.
  pose proof (Forall_inv Hanon) as Ha.
  pose proof (Forall_inv_tail Hanon) as Harest.
  pose proof (Forall_inv Hchar) as Hc.
  pose proof (Forall_inv_tail Hchar) as Hcrest.
  rewrite (sub_marker_text _ _ _ _ Hfirst Ha Harest).
  rewrite (sub_marker_text _ _ _ _ Hfirst Hc Hcrest).
  rewrite (finditer_marker_text _ _ _ Hl1 Hlrest).
  cbn [length Nat.eqb].
  rewrite message_slices_text.
  exact (pair_messages_contents name1 name2 ((x, y) :: pairs) H1 H2 Hne Hp).
Qed.

(** C8 (amended). For speaker names that are plain labels, differ from
    each other and are not [Anon] or [anon], and for a transcript
    [name1: X / name2: Y] of one-line messages without [<START>] tags in
    which every pair has some text, [tokenize_dialogue] returns the pairs
    in order, each message with its speaker and stripped of the blanks
    around it; rebuilding the transcript from the turns gives the
    transcript of the stripped messages, that is the pasted transcript
    itself when its messages were stripped already. *)
Theorem C8_tokenize_round_trip (name1 name2 : str) (pairs : list turn) :
  plain_name name1 = true -> plain_name name2 = true -> name1 <> name2 ->
  not_anon name1 = true -> not_anon name2 = true ->
  forallb single_line_pair pairs = true ->
  find (lit "<START>") (reconstruct name1 name2 pairs) = None ->
  find (lit "<start>") (reconstruct name1 name2 pairs) = None ->
  tokenize_dialogue (reconstruct name1 name2 pairs) name1 name2
  = map strip_turn pairs
  /\ reconstruct name1 name2
       (tokenize_dialogue (reconstruct name1 name2 pairs) name1 name2)
     = reconstruct name1 name2 (map strip_turn pairs)
  /\ (map strip_turn pairs = pairs ->
      reconstruct name1 name2
        (tokenize_dialogue (reconstruct name1 name2 pairs) name1 name2)
      = reconstruct name1 name2 pairs).
Proof.
  intros H1 H2 Hne Ha1 Ha2 Hp Hs1 Hs2.
  rewrite (tokenize_dialogue_reconstruct name1 name2 pairs H1 H2 Hne Ha1 Ha2
             Hp Hs1 Hs2).
  split; [reflexivity|]. split; [reflexivity|].
  intros ->. reflexivity.
Qed.

(** An instance: two turns, one with blanks to strip, one with an empty
    user side. *)
Lemma C8_witness :
  let name1 := lit "You" in
  let name2 := lit "Person 2" in
  let pairs := [(lit "Hi there", lit "Hello!  ");
                ([], lit "Are you still here?")] in
  plain_name name1 = true /\ plain_name name2 = true /\ name1 <> name2
  /\ not_anon name1 = true /\ not_anon name2 = true
  /\ forallb single_line_pair pairs = true
  /\ find (lit "<START>") (reconstruct name1 name2 pairs) = None
  /\ find (lit "<start>") (reconstruct name1 name2 pairs) = None
  /\ tokenize_dialogue (reconstruct name1 name2 pairs) name1 name2
     = [(lit "Hi there", lit "Hello!"); ([], lit "Are you still here?")].
Proof.
  intros name1 name2 pairs.
  assert (Hne : name1 <> name2) by discriminate.
  repeat (split; [first [reflexivity|exact Hne]|]).
  rewrite (proj1 (C8_tokenize_round_trip name1 name2 pairs eq_refl eq_refl Hne
                    eq_refl eq_refl eq_refl eq_refl eq_refl)).
  reflexivity.
Defined.

(** A user called [Anon]: [tokenize_dialogue] rewrites the label to
    [You:], finds the bot's line only, and the user's message is lost. *)
Lemma C8_counterexample :
  let name1 := lit "Anon" in
  let name2 := lit "Bot" in
  let pairs := [(lit "Hi", lit "Hello!")] in
  reconstruct name1 name2 pairs
  = lit "Anon: Hi" ++ [LF] ++ lit "Bot: Hello!" ++ [LF]
  /\ tokenize_dialogue (reconstruct name1 name2 pairs) name1 name2
     = [([], lit "Hello!")]
  /\ reconstruct name1 name2
       (tokenize_dialogue (reconstruct name1 name2 pairs) name1 name2)
     = lit "Anon: " ++ [LF] ++ lit "Bot: Hello!" ++ [LF].
Proof. repeat split. Qed.

(** * Further properties *)

(** ** Paragraph breaks *)

(** Doubling every line feed and collapsing the runs of three or more
    leaves every run of line feeds a run of two. *)
Lemma collapse_doubled (s : str) :
  collapse_from 0 (replace_char LF [LF; LF] s) = two_line_feeds false s
  /\ forall r, collapse_from (S (S r)) (replace_char LF [LF; LF] s)
               = LF :: LF :: two_line_feeds true s.
Proof.
  induction s as [|a s [IH0 IH2]].
  - split; [reflexivity|]. intros r. cbn [replace_char flat_map collapse_from].
    apply emit_run_two.
  - unfold replace_char. cbn [flat_map two_line_feeds].
    fold (replace_char LF [LF; LF] s).
    destruct (Ascii.eqb a LF) eqn:Ea.
    + cbn [app collapse_from]. rewrite !ascii_eqb_refl.
      split; [apply IH2|]. intros r. apply IH2.
    + cbn [app collapse_from]. rewrite !Ea, IH0.
      split; [reflexivity|]. intros r. rewrite emit_run_two. reflexivity.
Qed.

Lemma two_line_feeds_has_text (b : bool) (s : str) :
  has_text (two_line_feeds b s) = has_text s.
Proof.
  revert b. induction s as [|a s IH]; intros b; [reflexivity|].
  cbn [two_line_feeds]. destruct (Ascii.eqb a LF) eqn:Ea.
  - apply ascii_eqb_eq in Ea. subst a.
    change (has_text (LF :: s)) with (negb (is_space LF) || has_text s).
    rewrite LF_is_space. cbn [negb orb].
    destruct b; [apply IH|].
    change (has_text (LF :: LF :: two_line_feeds true s))
      with (negb (is_space LF)
            || (negb (is_space LF) || has_text (two_line_feeds true s))).
    rewrite LF_is_space. cbn [negb orb]. apply IH.
  - change (has_text (a :: two_line_feeds false s))
      with (negb (is_space a) || has_text (two_line_feeds false s)).
    rewrite IH. reflexivity.
Qed.

Lemma lstrip_two_line_feeds (b : bool) (s : str) :
  lstrip (two_line_feeds b s) = two_line_feeds false (lstrip s).
Proof.
  revert b. induction s as [|a s IH]; intros b; [reflexivity|].
  cbn [two_line_feeds]. destruct (Ascii.eqb a LF) eqn:Ea.
  - apply ascii_eqb_eq in Ea. subst a.
    unfold lstrip at 2. cbn [drop_while]. rewrite LF_is_space.
    fold (lstrip s). rewrite <- (IH true).
    destruct b; [reflexivity|].
    unfold lstrip at 1. cbn [drop_while]. rewrite LF_is_space. reflexivity.
  - unfold lstrip. cbn [drop_while]. destruct (is_space a) eqn:Es.
    + apply IH.
    + cbn [two_line_feeds]. rewrite Ea. reflexivity.
Qed.

Lemma rstrip_blank (s : str) : has_text s = false -> rstrip s = [].
Proof.
  induction s as [|a s IH]; [reflexivity|].
  change (has_text (a :: s)) with (negb (is_space a) || has_text s).
  intros H. apply orb_false_elim in H as [Ha Hs].
  apply negb_false_iff in Ha.
  rewrite rstrip_cons, (IH Hs), Ha. reflexivity.
Qed.

Lemma two_line_feeds_rstrip_text (b : bool) (s : str) (c : ascii) (r : str) :
  rstrip s = c :: r -> two_line_feeds b (c :: r) <> [].
Proof.
  intros Er Hn.
  assert (Ht : has_text (c :: r) = true).
  { rewrite <- Er, has_text_rstrip.
    destruct (has_text s) eqn:Hs; [reflexivity|].
    rewrite (rstrip_blank s Hs) in Er. discriminate. }
  rewrite <- (two_line_feeds_has_text b), Hn in Ht. discriminate.
Qed.

Lemma two_line_feeds_cons (b : bool) (a : ascii) (s : str) :
  two_line_feeds b (a :: s)
  = if Ascii.eqb a LF
    then (if b then two_line_feeds true s
          else LF :: LF :: two_line_feeds true s)
    else a :: two_line_feeds false s.
Proof. reflexivity. Qed.

Lemma rstrip_two_line_feeds (s : str) :
  forall b, rstrip (two_line_feeds b s) = two_line_feeds b (rstrip s).
Proof.
  induction s as [|a s IH]; intros b; [reflexivity|].
  rewrite (rstrip_cons a s). cbn [two_line_feeds].
  destruct (Ascii.eqb a LF) eqn:Ea.
  - apply ascii_eqb_eq in Ea. subst a. rewrite LF_is_space.
    destruct (rstrip s) as [|c r] eqn:Er.
    + destruct b; [rewrite IH; reflexivity|].
      rewrite !rstrip_cons, IH, LF_is_space. reflexivity.
    + pose proof (two_line_feeds_rstrip_text true s c r Er) as Hne.
      rewrite (two_line_feeds_cons b LF (c :: r)), ascii_eqb_refl.
      destruct b; [rewrite IH; reflexivity|].
      rewrite !rstrip_cons, IH.
      destruct (two_line_feeds true (c :: r)); [contradiction|reflexivity].
  - rewrite rstrip_cons, IH.
    destruct (rstrip s) as [|c r] eqn:Er.
    + cbn [two_line_feeds].
      destruct (is_space a); cbn [two_line_feeds]; rewrite ?Ea; reflexivity.
    + pose proof (two_line_feeds_rstrip_text false s c r Er) as Hne.
      rewrite (two_line_feeds_cons b a (c :: r)), Ea.
      destruct (two_line_feeds false (c :: r)); [contradiction|reflexivity].
Qed.

(** [clean_chat_message] strips the text and makes every run of line
    feeds in it a run of two. *)
Lemma clean_chat_message_normal (text : str) :
  clean_chat_message text = two_line_feeds false (strip text).
Proof.
  unfold clean_chat_message, collapse_newlines.
  rewrite (proj1 (collapse_doubled text)).
  unfold strip. rewrite rstrip_two_line_feeds, lstrip_two_line_feeds.
  reflexivity.
Qed.

Lemma two_line_feeds_idem (s : str) :
  two_line_feeds false (two_line_feeds false s) = two_line_feeds false s
  /\ two_line_feeds true (two_line_feeds true s) = two_line_feeds true s.
Proof.
  induction s as [|a s [IHf IHt]]; [split; reflexivity|].
  cbn [two_line_feeds]. destruct (Ascii.eqb a LF) eqn:Ea.
  - split; [|exact IHt].
    cbn [two_line_feeds]. rewrite !ascii_eqb_refl, IHt. reflexivity.
  - cbn [two_line_feeds]. rewrite Ea, IHf. split; reflexivity.
Qed.

Lemma two_line_feeds_single_line (b : bool) (s : str) :
  forallb not_LF s = true -> two_line_feeds b s = s.
Proof.
  revert b. induction s as [|a s IH]; intros b; [reflexivity|].
  cbn [forallb]. unfold not_LF at 1. intros H.
  apply andb_true_iff in H as [Ha Hs]. apply negb_true_iff in Ha.
  cbn [two_line_feeds]. rewrite Ha, (IH false Hs). reflexivity.
Qed.

Lemma strip_two_line_feeds (s : str) :
  strip (two_line_feeds false s) = two_line_feeds false (strip s).
Proof.
  unfold strip. rewrite rstrip_two_line_feeds, lstrip_two_line_feeds.
  reflexivity.
Qed.

Lemma clean_chat_message_idem (text : str) :
  clean_chat_message (clean_chat_message text) = clean_chat_message text.
Proof.
  rewrite (clean_chat_message_normal (clean_chat_message text)).
  rewrite (clean_chat_message_normal text).
  rewrite strip_two_line_feeds, strip_idem.
  apply two_line_feeds_idem.
Qed.

(** X1. [clean_chat_message] returns the text stripped of surrounding
    white space with every run of line feeds inside it made a run of
    exactly two.  Its result is stripped, and cleaning it again changes
    nothing. *)
Theorem X1_clean_chat_message_idempotent (text : str) :
  clean_chat_message text = two_line_feeds false (strip text)
  /\ strip (clean_chat_message text) = clean_chat_message text
  /\ clean_chat_message (clean_chat_message text) = clean_chat_message text.
Proof.
  split; [apply clean_chat_message_normal|].
  split; [apply strip_idem|apply clean_chat_message_idem].
Qed.

(** ** The extracted reply *)

Lemma contains_occurs (p s : str) : contains p s = occurs p s.
Proof.
  unfold contains, find. generalize 0.
  induction s as [|a s IH]; intros pos; cbn [find_from occurs].
  - destruct (startswith p []); reflexivity.
  - destruct (startswith p (a :: s)); [reflexivity|]. apply IH.
Qed.

Lemma occurs_cons (p : str) (a : ascii) (s : str) :
  occurs p (a :: s) = startswith p (a :: s) || occurs p s.
Proof. reflexivity. Qed.

Lemma startswith_line_LF (q s : str) :
  forallb not_LF q = true -> startswith q (LF :: s) = true -> q = [].
Proof.
  destruct q as [|c q]; [reflexivity|].
  cbn [forallb startswith]. unfold not_LF at 1. intros H Hs.
  apply andb_true_iff in H as [Hc _]. apply negb_true_iff in Hc.
  apply andb_true_iff in Hs as [Hs _]. rewrite Hs in Hc. discriminate.
Qed.

(** A text without line feed starts the text and its paragraph form
    alike. *)
Lemma startswith_two_line_feeds (q : str) :
  forallb not_LF q = true ->
  forall t, startswith q (two_line_feeds false t) = startswith q t.
Proof.
  induction q as [|c q IH]; intros Hq t; [reflexivity|].
  cbn [forallb] in Hq. unfold not_LF at 1 in Hq.
  apply andb_true_iff in Hq as [Hc Hq]. apply negb_true_iff in Hc.
  destruct t as [|a t]; [reflexivity|].
  cbn [two_line_feeds]. destruct (Ascii.eqb a LF) eqn:Ea.
  - apply ascii_eqb_eq in Ea. subst a. cbn [startswith].
    rewrite Hc. reflexivity.
  - cbn [startswith]. rewrite (IH Hq t). reflexivity.
Qed.

Lemma occurs_two_line_feeds (q : str) :
  forallb not_LF q = true ->
  forall (s : str) (b : bool),
    occurs (LF :: q) s = false ->
    (b = true -> startswith q s = false) ->
    occurs (LF :: q) (two_line_feeds b s) = false
    /\ (b = true -> startswith q (two_line_feeds true s) = false).
Proof.
  intros Hq. induction s as [|a s IH]; intros b Ho Hb.
  - split; [reflexivity|exact Hb].
  - rewrite occurs_cons in Ho. apply orb_false_elim in Ho as [Hs Ho].
    cbn [two_line_feeds]. destruct (Ascii.eqb a LF) eqn:Ea.
    + apply ascii_eqb_eq in Ea. subst a.
      cbn [startswith] in Hs. rewrite ascii_eqb_refl in Hs.
      cbn [andb] in Hs.
      destruct (IH true Ho (fun _ => Hs)) as [IHo IHs].
      specialize (IHs eq_refl).
      destruct b; [split; [exact IHo|intros _; exact IHs]|].
      split; [|discriminate].
      rewrite !occurs_cons, IHo. cbn [startswith].
      rewrite !ascii_eqb_refl, IHs. cbn [andb orb].
      destruct (startswith q (LF :: two_line_feeds true s)) eqn:E;
        [|reflexivity].
      rewrite (startswith_line_LF q _ Hq E) in Hs. discriminate.
    + destruct (IH false Ho (fun H => False_ind _ (diff_false_true H)))
        as [IHo _].
      split.
      * rewrite occurs_cons, IHo. cbn [startswith].
        destruct (Ascii.eqb LF a) eqn:E; [|reflexivity].
        apply ascii_eqb_eq in E. subst a. rewrite ascii_eqb_refl in Ea.
        discriminate.
      * intros Ht.
        assert (Hg : two_line_feeds false (a :: s)
                     = a :: two_line_feeds false s)
          by (rewrite two_line_feeds_cons, Ea; reflexivity).
        rewrite <- Hg, (startswith_two_line_feeds q Hq). exact (Hb Ht).
Qed.

Lemma occurs_drop_while (p : str) (f : ascii -> bool) (s : str) :
  occurs p s = false -> occurs p (drop_while f s) = false.
Proof.
  induction s as [|a s IH]; [trivial|].
  intros H. cbn [drop_while]. destruct (f a); [|exact H].
  rewrite occurs_cons in H. apply orb_false_elim in H as [_ H].
  apply IH. exact H.
Qed.

Lemma startswith_app_l (p a w : str) :
  startswith p a = true -> startswith p (a ++ w) = true.
Proof.
  revert a. induction p as [|c p IH]; intros a; [reflexivity|].
  destruct a as [|d a]; cbn [startswith app]; [discriminate|].
  intros H. apply andb_true_iff in H as [Hc Hp].
  rewrite Hc, (IH a Hp). reflexivity.
Qed.

Lemma occurs_app_l (p a w : str) :
  occurs p (a ++ w) = false -> occurs p a = false.
Proof.
  induction a as [|c a IH].
  - cbn [app occurs]. intros H.
    destruct (startswith p []) eqn:E; [|reflexivity].
    pose proof (startswith_app_l p [] w E) as Hw. cbn [app] in Hw.
    destruct w; cbn [occurs] in H; rewrite Hw in H; discriminate.
  - cbn [app]. rewrite !occurs_cons. intros H.
    apply orb_false_elim in H as [Hs Ho]. rewrite (IH Ho), orb_false_r.
    destruct (startswith p (c :: a)) eqn:E; [|reflexivity].
    pose proof (startswith_app_l p (c :: a) w E) as Hw.
    cbn [app] in Hw. rewrite Hw in Hs. discriminate.
Qed.

Lemma occurs_strip (p s : str) :
  occurs p s = false -> occurs p (strip s) = false.
Proof.
  intros H. unfold strip, lstrip. apply occurs_drop_while.
  destruct (rstrip_prefix s) as [w Hw]. rewrite Hw in H.
  exact (occurs_app_l _ _ _ H).
Qed.

Lemma find_from_ge (p s : str) :
  forall pos i, find_from p s pos = Some i -> pos <= i.
Proof.
  induction s as [|a s IH]; intros pos i; cbn [find_from].
  - destruct (startswith p []); [|discriminate].
    intros H. injection H as <-. lia.
  - destruct (startswith p (a :: s)).
    + intros H. injection H as <-. lia.
    + intros H. apply IH in H. lia.
Qed.

(** The text before the first occurrence has none. *)
Lemma occurs_before_find (c : ascii) (p s : str) :
  forall pos i,
    find_from (c :: p) s pos = Some i ->
    occurs (c :: p) (firstn (i - pos) s) = false.
Proof.
  induction s as [|a s IH]; intros pos i; cbn [find_from].
  - intros _. rewrite firstn_nil. reflexivity.
  - destruct (startswith (c :: p) (a :: s)) eqn:E.
    + intros H. injection H as <-. rewrite Nat.sub_diag. reflexivity.
    + intros H. pose proof (find_from_ge _ _ _ _ H) as Hge.
      replace (i - pos) with (S (i - S pos)) by lia.
      cbn [firstn]. rewrite occurs_cons, (IH _ _ H), orb_false_r.
      destruct (startswith (c :: p) (a :: firstn (i - S pos) s)) eqn:Ef;
        [|reflexivity].
      pose proof (startswith_app_l _ _ (skipn (i - S pos) s) Ef) as Hw.
      cbn [app] in Hw. rewrite firstn_skipn in Hw.
      rewrite Hw in E. discriminate.
Qed.

Lemma occurs_single_line (q s : str) :
  forallb not_LF s = true -> occurs (LF :: q) s = false.
Proof.
  induction s as [|a s IH]; [reflexivity|].
  cbn [forallb]. unfold not_LF at 1. intros H.
  apply andb_true_iff in H as [Ha Hs]. apply negb_true_iff in Ha.
  rewrite occurs_cons, (IH Hs). cbn [startswith].
  destruct (Ascii.eqb LF a) eqn:E; [|reflexivity].
  apply ascii_eqb_eq in E. subst a. rewrite ascii_eqb_refl in Ha.
  discriminate.
Qed.

Lemma label_single_line (other : str) :
  forallb not_LF other = true -> forallb not_LF (other ++ lit ":") = true.
Proof. intros H. rewrite forallb_app, H. reflexivity. Qed.

Lemma clean_chat_message_keeps_absent (q s : str) :
  forallb not_LF q = true ->
  occurs (LF :: q) s = false ->
  occurs (LF :: q) (clean_chat_message s) = false.
Proof.
  intros Hq H. rewrite clean_chat_message_normal.
  apply (occurs_two_line_feeds q Hq (strip s) false).
  - apply occurs_strip. exact H.
  - discriminate.
Qed.

Lemma stop_at_newline_clean (other cand : str) :
  clean_reply other (stop_at_newline cand).
Proof.
  assert (Hs : strip (stop_at_newline cand) = stop_at_newline cand).
  { rewrite stop_at_newline_spec. apply strip_idem. }
  split; [exact Hs|]. split.
  - rewrite clean_chat_message_normal, Hs.
    apply two_line_feeds_single_line, stop_at_newline_single_line.
  - intros _. rewrite contains_occurs. apply occurs_single_line.
    apply stop_at_newline_single_line.
Qed.

Lemma scan_next_speaker_clean (other cand : str) :
  clean_reply other (scan_next_speaker other cand).1.1.
Proof.
  unfold scan_next_speaker.
  destruct (find ([LF] ++ other ++ lit ":") cand) as [idx|] eqn:Ef;
    cbn [fst];
    (split; [apply strip_idem|]);
    (split; [apply clean_chat_message_idem|]);
    intros Hother; rewrite contains_occurs;
    apply (clean_chat_message_keeps_absent (other ++ lit ":") _
             (label_single_line other Hother)).
  - pose proof (occurs_before_find LF (other ++ lit ":") cand 0 idx Ef)
      as Hb.
    rewrite Nat.sub_0_r in Hb. exact Hb.
  - rewrite <- contains_occurs. unfold contains.
    change (LF :: other ++ lit ":") with ([LF] ++ other ++ lit ":").
    rewrite Ef. reflexivity.
Qed.

Lemma extract_message_from_reply_raises {Ext : Extensions}
  (question reply current other : str) (check extensions : bool) (e : exn) :
  extract_message_from_reply question reply current other check extensions
  = Raise e -> e = IndexError.
Proof.
  unfold extract_message_from_reply, candidate_reply.
  destruct (py_getitem _ _) as [idx|e'] eqn:E.
  - destruct extensions; destruct check; discriminate.
  - intros H. injection H as <-. exact (py_getitem_raises _ _ _ E).
Qed.

Lemma extract_message_from_reply_stripped {Ext : Extensions}
  (question reply current other : str) (check extensions : bool)
  (r : str) (f1 f2 : bool) :
  extract_message_from_reply question reply current other check extensions
  = Ok (r, f1, f2) -> clean_reply other r.
Proof.
  unfold extract_message_from_reply.
  destruct (candidate_reply question reply current extensions)
    as [cand|e]; [|discriminate].
  destruct check; intros H.
  - injection H as <- _ _. apply stop_at_newline_clean.
  - pose proof (scan_next_speaker_clean other cand) as Hclean.
    injection H as H. rewrite H in Hclean. exact Hclean.
Qed.

(** X2. Whatever the generator produced, the reply that
    [extract_message_from_reply] returns is stripped of surrounding white
    space, is left unchanged by [clean_chat_message], and has no line of
    the other speaker in it: the text [\n{other}:] does not occur in it,
    for a name without line feed. *)
Theorem X2_extracted_reply_clean {Ext : Extensions}
  (question reply current other : str) (check extensions : bool)
  (r : str) (next_character_found substring_found : bool) :
  forallb not_LF other = true ->
  extract_message_from_reply question reply current other check extensions
  = Ok (r, next_character_found, substring_found) ->
  strip r = r
  /\ clean_chat_message r = r
  /\ contains ([LF] ++ other ++ lit ":") r = false.
Proof.
  intros Hother. unfold extract_message_from_reply.
  destruct (candidate_reply question reply current extensions)
    as [cand|e]; [|discriminate].
  destruct check; intros H.
  - injection H as <- _ _.
    destruct (stop_at_newline_clean other cand) as [Hs [Hc Hn]]. auto.
  - pose proof (scan_next_speaker_clean other cand) as Hclean.
    injection H as H. rewrite H in Hclean. cbn [fst] in Hclean.
    destruct Hclean as [Hs [Hc Hn]]. auto.
Qed.

Lemma X2_witness :
  forallb not_LF (lit "You") = true
  /\ extract_message_from_reply (Ext := no_extensions)
       (lit "Chat." ++ [LF] ++ lit "You: Hi" ++ [LF] ++ lit "Bot:")
       (lit "Chat." ++ [LF] ++ lit "You: Hi" ++ [LF] ++ lit "Bot: Hello."
        ++ [LF] ++ lit "How are you? " ++ [LF] ++ lit "You: Fine")
       (lit "Bot") (lit "You") false true
     = Ok (lit "Hello." ++ [LF; LF] ++ lit "How are you?", true, false)
  /\ contains ([LF] ++ lit "You" ++ lit ":")
       (lit "Hello." ++ [LF; LF] ++ lit "How are you?") = false.
Proof.
  split; [reflexivity|]. split; [reflexivity|].
  apply (X2_extracted_reply_clean (Ext := no_extensions)
           (lit "Chat." ++ [LF] ++ lit "You: Hi" ++ [LF] ++ lit "Bot:")
           (lit "Chat." ++ [LF] ++ lit "You: Hi" ++ [LF] ++ lit "Bot: Hello."
            ++ [LF] ++ lit "How are you? " ++ [LF] ++ lit "You: Fine")
           (lit "Bot") (lit "You") false true
           (lit "Hello." ++ [LF; LF] ++ lit "How are you?") true false);
    reflexivity.
Defined.

(** ** The chat wrapper: what a run leaves untouched *)

Lemma list_set_last_snoc {A : Type} (l : list A) (x y : A) :
  list_set_last x (l ++ [y]) = Ok (l ++ [x]).
Proof.
  unfold list_set_last. rewrite rev_app_distr. simpl.
  rewrite rev_involutive. reflexivity.
Qed.

Lemma set_last_rows_snoc (a b t v : turn) (irows vrows : list turn)
  (h : History) :
  internal h = irows ++ [t] -> visible h = vrows ++ [v] ->
  (let* _ := internal_set_last a in visible_set_last b) h
  = (Ok tt, {| internal := irows ++ [a]; visible := vrows ++ [b] |}).
Proof.
  intros Hi Hv.
  cbv [bind internal_set_last visible_set_last get_internal get_visible lift
       set_internal set_visible].
  rewrite Hi, list_set_last_snoc. cbn [internal visible].
  rewrite Hv, list_set_last_snoc. reflexivity.
Qed.

(** The loop rewrites the last row of each history and nothing else. *)
Lemma chatbot_loop_frame {Ext : Extensions}
  (question text original_text name1 name2 : str) (check : bool)
  (replies : list str) (irows vrows : list turn) :
  forall (h : History) (t v : turn),
    internal h = irows ++ [t] -> visible h = vrows ++ [v] ->
    exists t' v',
      internal (chatbot_loop question text original_text name1 name2 check
                  replies h).1.2 = irows ++ [t']
      /\ visible (chatbot_loop question text original_text name1 name2 check
                    replies h).1.2 = vrows ++ [v']
      /\ ((t' = t /\ v' = v)
          \/ exists r, t' = (text, r)
                       /\ v' = (original_text, ext_output r)
                       /\ clean_reply name1 r)
      /\ Forall (fun y => exists w, y = vrows ++ [w])
           (chatbot_loop question text original_text name1 name2 check
              replies h).2.
Proof.
  induction replies as [|r rest IH]; intros h t v Hi Hv.
  - exists t, v. cbn. repeat split; auto.
  - cbn [chatbot_loop].
    destruct (extract_message_from_reply question r name2 name1 check true)
      as [[[rep ncf] sf]|e] eqn:E.
    2:{ exists t, v. cbn. repeat split; auto. }
    pose proof (extract_message_from_reply_stripped _ _ _ _ _ _ _ _ _ E)
      as Hrep.
    rewrite (set_last_rows_snoc _ _ t v irows vrows h Hi Hv).
    match goal with
    | |- context [visible ?hh :: nil] => set (h1 := hh)
    end.
    assert (Hy : Forall (fun y => exists w, y = vrows ++ [w])
                   (if negb sf then [visible h1] else [])).
    { destruct sf; cbn; repeat constructor. eexists. reflexivity. }
    destruct ncf.
    + exists (text, rep), (original_text, ext_output rep). cbn [fst snd].
      split; [reflexivity|]. split; [reflexivity|].
      split; [right; eauto|exact Hy].
    + destruct (IH h1 (text, rep) (original_text, ext_output rep)
                  eq_refl eq_refl) as [t' [v' [Hi' [Hv' [Ht Hys]]]]].
      destruct (chatbot_loop question text original_text name1 name2 check
                  rest h1) as [[e h2] ys] eqn:E'.
      cbn [fst snd] in *. exists t', v'.
      refine (conj Hi' (conj Hv' (conj _ _))).
      * right. destruct Ht as [[-> ->]|Ht]; [eauto|exact Ht].
      * apply Forall_app. split; assumption.
Qed.

Lemma chatbot_stream_frame {Ext : Extensions} {Sampling : Type}
  (question text original_text name1 name2 : str) (check : bool)
  (g : GenRun Sampling) (h : History) :
  one_row_added text original_text name1 h
    (chatbot_stream question text original_text name1 name2 check g h).
Proof.
  unfold one_row_added, chatbot_stream.
  cbv [bind internal_append visible_append get_internal get_visible
       set_internal set_visible].
  cbn [internal visible].
  set (h0 := {| internal := internal h ++ [placeholder];
                visible := visible h ++ [placeholder] |}).
  destruct (chatbot_loop_frame question text original_text name1 name2 check
              (run_yields g) (internal h) (visible h) h0 placeholder
              placeholder eq_refl eq_refl)
    as [t' [v' [Hi [Hv [Ht Hys]]]]].
  destruct (chatbot_loop question text original_text name1 name2 check
              (run_yields g) h0) as [[e h1] ys].
  cbn [fst snd] in *. exists t', v'.
  destruct e as [| |e]; [destruct (run_raised g) as [e|]| |]; cbn [fst snd];
    refine (conj Hi (conj Hv (conj Ht (conj _ _))));
    try discriminate; try exact Hys;
    try (apply Forall_app; split; [assumption|]; repeat constructor;
         eexists; exact Hv);
    try (intros _; apply last_snoc).
Qed.

(** X3. [chatbot_wrapper] always runs its generator, and the run, however
    it ends, leaves every earlier row of both histories as it was and
    adds exactly one row to each: the placeholder, or a row that carries
    the input text, after the input extensions in the internal history
    and as typed in the visible one, with a reply of the bot.  That
    reply is stored as extracted in the internal history and after the
    output extensions in the visible one; it is stripped, left unchanged
    by [clean_chat_message], and has no line of the user in it.  Every
    value the run yields is the earlier visible history with one row
    after it, and a run that ends without exception yields the final
    visible history last. *)
Theorem X3_chatbot_wrapper_frame {Sampling : Type} {Tok : Tokenizer}
  {Ext : Extensions} {Model : LanguageModel Sampling} (args : Args)
  (text : str) (tokens : Z) (sampling : Sampling) (min_length : Z)
  (name1 name2 context : str) (check : bool) (history_size : Z)
  (h : History) :
  exists run,
    chatbot_wrapper args text tokens sampling min_length name1 name2 context
      check history_size h = Some run
    /\ one_row_added (ext_input text) text name1 h run.
Proof.
  destruct (chatbot_wrapper_returns args text tokens sampling min_length
              name1 name2 context check history_size h) as [q [g Hw]].
  rewrite Hw. eexists. split; [reflexivity|]. apply chatbot_stream_frame.
Qed.

(** ** Regenerating and replacing the last reply *)

Lemma list_pop_nil {A : Type} : list_pop (@nil A) = Raise IndexError.
Proof. reflexivity. Qed.

Lemma pop_last_turn_snoc (irows vrows : list turn) (t v : turn) :
  pop_last_turn {| internal := irows ++ [t]; visible := vrows ++ [v] |}
  = (Ok v, {| internal := irows; visible := vrows |}).
Proof.
  cbv [pop_last_turn visible_pop internal_pop bind get_visible get_internal
       lift set_visible set_internal ret].
  cbn [internal visible]. rewrite list_pop_snoc. cbn [fst snd internal visible].
  rewrite list_pop_snoc. reflexivity.
Qed.

(** X4. [regenerate_wrapper] takes the text to send again from the last
    visible row and passes it through the input extensions anew; the run
    replaces the last row of both histories and keeps every earlier row.
    With an empty visible history it raises [IndexError] and changes
    nothing; with a visible row but no internal row it raises
    [IndexError] after the visible row has been popped, so that row is
    lost without a generation. *)
Theorem X4_regenerate_wrapper_rows {Sampling : Type} {Tok : Tokenizer}
  {Ext : Extensions} {Model : LanguageModel Sampling} (args : Args)
  (tokens : Z) (sampling : Sampling) (min_length : Z)
  (name1 name2 context : str) (check : bool) (history_size : Z)
  (irows vrows : list turn) (t v : turn) :
  regenerate_wrapper args tokens sampling min_length name1 name2 context
    check history_size {| internal := irows; visible := [] |}
  = Some (Raise IndexError, {| internal := irows; visible := [] |}, [])
  /\ regenerate_wrapper args tokens sampling min_length name1 name2 context
       check history_size {| internal := []; visible := vrows ++ [v] |}
     = Some (Raise IndexError, {| internal := []; visible := vrows |}, [])
  /\ exists run,
       regenerate_wrapper args tokens sampling min_length name1 name2 context
         check history_size
         {| internal := irows ++ [t]; visible := vrows ++ [v] |} = Some run
       /\ one_row_added (ext_input v.1) v.1 name1
            {| internal := irows; visible := vrows |} run.
Proof.
  split; [reflexivity|]. split.
  - unfold regenerate_wrapper.
    cbv [pop_last_turn visible_pop internal_pop bind get_visible get_internal
         lift set_visible set_internal ret].
    cbn [internal visible]. rewrite list_pop_snoc. reflexivity.
  - unfold regenerate_wrapper. rewrite pop_last_turn_snoc.
    destruct (chatbot_wrapper_returns args v.1 tokens sampling min_length
                name1 name2 context check history_size
                {| internal := irows; visible := vrows |}) as [q [g Hw]].
    rewrite Hw. eexists. split; [reflexivity|]. apply chatbot_stream_frame.
Qed.

Ltac run_last_row :=
  repeat first
    [ rewrite py_getitem_last | rewrite list_set_last_snoc
    | rewrite py_getitem_nil | rewrite list_pop_snoc
    | progress cbn [internal visible fst snd] ].

(** X5. [replace_last_reply] rewrites the bot side of the last row of
    both histories, with the text as given in the visible history and
    after the input extensions in the internal one, and keeps the user
    sides and every earlier row; [send_last_reply_to_input] then returns
    the text after the input extensions.  With an empty visible history
    it changes nothing.  With a visible row but no internal row it raises
    [IndexError] after the visible row has been rewritten. *)
Theorem X5_replace_last_reply_rows {Ext : Extensions} (text : str)
  (irows vrows : list turn) (t v : turn) :
  let h' := {| internal := irows ++ [(t.1, ext_input text)];
               visible := vrows ++ [(v.1, text)] |} in
  replace_last_reply text
    {| internal := irows ++ [t]; visible := vrows ++ [v] |}
  = (Ok (visible h'), h')
  /\ send_last_reply_to_input h' = (Ok (ext_input text), h')
  /\ replace_last_reply text {| internal := irows; visible := [] |}
     = (Ok [], {| internal := irows; visible := [] |})
  /\ replace_last_reply text {| internal := []; visible := vrows ++ [v] |}
     = (Raise IndexError,
        {| internal := []; visible := vrows ++ [(v.1, text)] |}).
Proof.
  intros h'. subst h'. repeat split.
  - cbv [replace_last_reply bind get_visible get_internal lift ret
         visible_set_last internal_set_last set_visible set_internal].
    cbn [internal visible]. rewrite length_app. cbn [length].
    replace (0 <? length vrows + 1) with true
      by (symmetry; apply Nat.ltb_lt; lia).
    run_last_row. reflexivity.
  - cbv [send_last_reply_to_input bind get_internal lift ret].
    cbn [internal]. rewrite length_app. cbn [length].
    replace (0 <? length irows + 1) with true
      by (symmetry; apply Nat.ltb_lt; lia).
    rewrite py_getitem_last. reflexivity.
  - cbv [replace_last_reply bind get_visible get_internal lift ret
         visible_set_last internal_set_last set_visible set_internal].
    cbn [internal visible]. rewrite length_app. cbn [length].
    replace (0 <? length vrows + 1) with true
      by (symmetry; apply Nat.ltb_lt; lia).
    run_last_row. reflexivity.
Qed.

(** ** Taking a generation back *)

(** X6. [remove_last_message] undoes a run of [chatbot_wrapper],
    however the run ended: both histories are again what they were before
    the run, and the text reported for the input box is the text that was
    sent, or the empty text when the run stopped at the placeholder.  The
    one exception is an input that the input extensions turn into the
    begin-chat marker itself. *)
Theorem X6_remove_last_message_undoes_chat {Sampling : Type}
  {Tok : Tokenizer} {Ext : Extensions} {Model : LanguageModel Sampling}
  (args : Args) (text : str) (tokens : Z) (sampling : Sampling)
  (min_length : Z) (name1 name2 context : str) (check : bool)
  (history_size : Z) (h : History) :
  ext_input text <> BEGIN_VISIBLE_CHAT ->
  exists run last,
    chatbot_wrapper args text tokens sampling min_length name1 name2 context
      check history_size h = Some run
    /\ remove_last_message run.1.2 = (Ok (visible h, last), h)
    /\ (last = text \/ last = []).
Proof.
  intros Hmarker.
  destruct (chatbot_wrapper_returns args text tokens sampling min_length
              name1 name2 context check history_size h) as [q [g Hw]].
  rewrite Hw.
  destruct (chatbot_stream_frame q (ext_input text) text name1 name2 check g
              h) as [t' [v' [Hi [Hv [Ht _]]]]].
  eexists _, v'.1. split; [reflexivity|].
  destruct (remove_last_message_spec _ _ _ Hi) as [_ Hpop].
  assert (Hu : t'.1 <> BEGIN_VISIBLE_CHAT).
  { destruct Ht as [[-> _]|[r [-> _]]]; [discriminate|exact Hmarker]. }
  rewrite (Hpop Hu _ _ Hv).
  destruct h. split; [reflexivity|].
  destruct Ht as [[_ ->]|[r [_ [-> _]]]]; auto.
Qed.

Lemma X6_witness :
  exists run last,
    chatbot_wrapper (Tok := char_tokenizer) (Ext := no_extensions)
      (Model := eos_model) chat_streaming (lit "Hi") 200 tt 0 (lit "You")
      (lit "Bot") (lit "Chat.") false 0 empty_history = Some run
    /\ remove_last_message run.1.2
       = (Ok (visible empty_history, last), empty_history)
    /\ (last = lit "Hi" \/ last = []).
Proof.
  apply (X6_remove_last_message_undoes_chat (Tok := char_tokenizer)
           (Ext := no_extensions) (Model := eos_model) chat_streaming
           (lit "Hi") 200 tt 0 (lit "You") (lit "Bot") (lit "Chat.") false 0
           empty_history).
  discriminate.
Defined.

(** ** Clearing the chat *)

Lemma greeting_anchor_firstn (l : list turn) (i0 i : nat) (t : turn) :
  greeting_anchor l i0 = Some (i, t) ->
  greeting_anchor (firstn (i - i0 + 1) l) i0 = Some (i, t).
Proof.
  revert i0. induction l as [|a l IH]; intros i0; cbn [greeting_anchor];
    [discriminate|].
  destruct (contains BEGIN_VISIBLE_CHAT a.1) eqn:E.
  - intros H. injection H as <- <-. rewrite Nat.sub_diag.
    cbn [Nat.add firstn greeting_anchor]. rewrite E. reflexivity.
  - intros H. pose proof (greeting_anchor_bound _ _ _ _ H) as Hb.
    replace (i - i0 + 1) with (S (i - S i0 + 1)) by lia.
    cbn [firstn greeting_anchor]. rewrite E. apply IH. exact H.
Qed.

(** X7. [clear_chat_log] never raises and returns the visible history it
    leaves; clearing twice is the same as clearing once.  With a
    character selected and no row whose user side contains the
    begin-chat marker, it clears nothing. *)
Theorem X7_clear_chat_log_idempotent (_character : str) (h : History) :
  (clear_chat_log _character h).1
  = Ok (visible (clear_chat_log _character h).2)
  /\ clear_chat_log _character (clear_chat_log _character h).2
     = clear_chat_log _character h
  /\ (_character <> lit "None" ->
      greeting_anchor (internal h) 0 = None ->
      clear_chat_log _character h = (Ok (visible h), h)).
Proof.
  unfold clear_chat_log.
  cbv [bind get_visible get_internal ret set_visible set_internal].
  cbn [internal visible].
  destruct (bool_decide (_character = lit "None")) eqn:E; cbn [negb].
  - cbn. apply bool_decide_eq_true in E. repeat split. contradiction.
  - destruct (greeting_anchor (internal h) 0) as [[i t]|] eqn:Ea;
      cbn [internal visible fst snd].
    + split; [reflexivity|]. split; [|discriminate].
      pose proof (greeting_anchor_firstn _ _ _ _ Ea) as Hf.
      rewrite Nat.sub_0_r in Hf. rewrite Hf. cbn [internal visible snd].
      rewrite firstn_firstn, Nat.min_id. reflexivity.
    + split; [reflexivity|]. rewrite Ea. cbn [internal visible].
      destruct h; split; reflexivity.
Qed.

Lemma X7_witness :
  lit "Aqua" <> lit "None"
  /\ greeting_anchor [(lit "Hi", lit "Hello!")] 0 = None
  /\ clear_chat_log (lit "Aqua")
       {| internal := [(lit "Hi", lit "Hello!")];
          visible := [(lit "Hi", lit "Hello!")] |}
     = (Ok [(lit "Hi", lit "Hello!")],
        {| internal := [(lit "Hi", lit "Hello!")];
           visible := [(lit "Hi", lit "Hello!")] |}).
Proof.
  split; [discriminate|]. split; [reflexivity|].
  apply (X7_clear_chat_log_idempotent (lit "Aqua")
           {| internal := [(lit "Hi", lit "Hello!")];
              visible := [(lit "Hi", lit "Hello!")] |});
    [discriminate | reflexivity].
Defined.

(** ** The rows of a tokenized dialogue *)

Lemma pair_messages_rows (name1 name2 : str) (messages : list str) :
  forall entry : turn,
    strip entry.1 = entry.1 ->
    Forall (fun t : turn =>
              strip t.1 = t.1 /\ strip t.2 = t.2 /\ (t.1 <> [] \/ t.2 <> []))
           (pair_messages name1 name2 messages entry).
Proof.
  induction messages as [|m rest IH]; intros entry He; cbn [pair_messages].
  - constructor.
  - destruct (startswith (name1 ++ lit ":") m).
    + apply IH. cbn [fst]. apply strip_idem.
    + destruct (startswith (name2 ++ lit ":") m).
      * apply Forall_app. split; [|apply IH; reflexivity].
        cbn [fst snd].
        destruct (length entry.1 =? 0) eqn:E1;
          [destruct (length (strip (skipn (length (name2 ++ lit ":")) m))
                     =? 0) eqn:E2|];
          cbn [negb andb]; [constructor| |];
          (constructor; [|constructor]); cbn [fst snd];
          (split; [exact He|]); (split; [apply strip_idem|]).
        -- right. intros Hn. rewrite Hn in E2. discriminate.
        -- left. intros Hn. rewrite Hn in E1. discriminate.
      * apply IH. exact He.
Qed.

(** X8. Whatever the text and the names, every turn that
    [tokenize_dialogue] returns has both sides stripped of surrounding
    white space, and no turn has both sides empty. *)
Theorem X8_tokenize_dialogue_rows (dialogue name1 name2 : str) :
  Forall (fun t : turn =>
            strip t.1 = t.1 /\ strip t.2 = t.2 /\ (t.1 <> [] \/ t.2 <> []))
         (tokenize_dialogue dialogue name1 name2).
Proof.
  unfold tokenize_dialogue.
  destruct (length _ =? 0); [constructor|].
  apply pair_messages_rows. reflexivity.
Qed.

(** ** Loading a character *)

Lemma strip_blank (s : str) : has_text s = false -> strip s = [].
Proof.
  intros H. unfold strip. rewrite lstrip_rstrip_comm.
  assert (Hl : lstrip s = []).
  { induction s as [|c s IH]; [reflexivity|].
    cbn in H. apply orb_false_elim in H as [Hc Hs].
    apply negb_false_iff in Hc. unfold lstrip. cbn. rewrite Hc.
    apply IH. exact Hs. }
  rewrite Hl. reflexivity.
Qed.

Lemma opening_line_has_text {Ext : Extensions} (data : CharacterFile) :
  has_text (opening_lines data).1 = true.
Proof.
  unfold opening_lines. destruct (char_greeting data) as [g|];
    [|reflexivity].
  destruct (0 <? length (strip g)) eqn:E; [|reflexivity].
  cbn [fst]. destruct (has_text g) eqn:Hg; [reflexivity|].
  rewrite (strip_blank g Hg) in E. discriminate.
Qed.

Lemma load_character_history {Ext : Extensions} (settings : Settings)
  (_character : str) (data : CharacterFile) (name1 name2 name : str)
  (h : History) :
  _character <> lit "None" -> char_name data = Some name ->
  (load_character settings _character data name1 name2 h).2
  = {| internal := example_turns data name1 name
                   ++ [(BEGIN_VISIBLE_CHAT, (opening_lines data).1)];
       visible := [([], (opening_lines data).2)] |}.
Proof.
  intros Hc Hn. unfold load_character, example_turns, opening_lines.
  cbv [bind get_visible get_internal ret set_visible set_internal lift
       internal_append visible_append].
  cbn [internal visible].
  rewrite bool_decide_eq_false_2 by exact Hc. cbn [negb]. rewrite Hn.
  destruct (present (example_dialogue data)) as [d|];
    cbn [internal visible];
    destruct (char_greeting data) as [g|]; cbn [internal visible];
    try destruct (0 <? length (strip g)); reflexivity.
Qed.

(** X9. [load_character] forgets the conversation: what it returns and
    the histories it leaves do not depend on the histories before.  For
    a character file without [char_name] it raises [KeyError] with both
    histories already emptied, and without a character it leaves both
    empty. *)
Theorem X9_load_character_forgets {Ext : Extensions} (settings : Settings)
  (_character : str) (data : CharacterFile) (name1 name2 : str)
  (h : History) :
  load_character settings _character data name1 name2 h
  = load_character settings _character data name1 name2 empty_history
  /\ (_character <> lit "None" -> char_name data = None ->
      load_character settings _character data name1 name2 h
      = (Raise KeyError, empty_history))
  /\ (_character = lit "None" ->
      (load_character settings _character data name1 name2 h).2
      = empty_history).
Proof.
  unfold load_character.
  cbv [bind get_visible get_internal ret set_visible set_internal lift
       internal_append visible_append].
  cbn [internal visible].
  split; [reflexivity|]. split.
  - intros Hc Hn. rewrite bool_decide_eq_false_2 by exact Hc.
    cbn [negb]. rewrite Hn. reflexivity.
  - intros Hc. rewrite bool_decide_eq_true_2 by exact Hc. reflexivity.
Qed.

Lemma X9_witness :
  load_character (Ext := no_extensions) default_settings (lit "Aqua")
    {| char_name := None; char_persona := None; world_scenario := None;
       example_dialogue := None; char_greeting := Some (lit "Hi") |}
    (lit "You") (lit "Bot")
    {| internal := [(lit "Hi", lit "Hello!")];
       visible := [(lit "Hi", lit "Hello!")] |}
  = (Raise KeyError, empty_history)
  /\ (load_character (Ext := no_extensions) default_settings (lit "None")
        aqua (lit "You") (lit "Bot")
        {| internal := [(lit "Hi", lit "Hello!")];
           visible := [(lit "Hi", lit "Hello!")] |}).2
     = empty_history.
Proof.
  split.
  - apply (X9_load_character_forgets (Ext := no_extensions) default_settings
             (lit "Aqua")
             {| char_name := None; char_persona := None;
                world_scenario := None; example_dialogue := None;
                char_greeting := Some (lit "Hi") |}
             (lit "You") (lit "Bot")
             {| internal := [(lit "Hi", lit "Hello!")];
                visible := [(lit "Hi", lit "Hello!")] |});
      [discriminate | reflexivity].
  - apply (X9_load_character_forgets (Ext := no_extensions) default_settings
             (lit "None") aqua (lit "You") (lit "Bot")
             {| internal := [(lit "Hi", lit "Hello!")];
                visible := [(lit "Hi", lit "Hello!")] |}).
    reflexivity.
Defined.

(** X10. After a character with a [char_name] is loaded, for names
    that the patterns of the dialogue tokenizer read as they stand, the
    internal history is the example dialogue followed by the opening
    row, whose user side is the begin-chat marker and whose bot side is
    the greeting of the file, or [Hello there!] when the greeting is
    missing or blank: the stored opening line is never blank.  The
    visible history is the opening row alone, with an empty user side.
    [remove_last_message] then removes nothing and reports the empty
    text, and [send_last_reply_to_input] returns the opening line. *)
Theorem X10_load_character_opening {Ext : Extensions} (settings : Settings)
  (_character : str) (data : CharacterFile) (name1 name2 name : str)
  (h : History) :
  _character <> lit "None" -> char_name data = Some name ->
  forallb regex_literal (character_patterns _character data name1) = true ->
  let h1 := (load_character settings _character data name1 name2 h).2 in
  internal h1 = example_turns data name1 name
                ++ [(BEGIN_VISIBLE_CHAT, (opening_lines data).1)]
  /\ visible h1 = [([], (opening_lines data).2)]
  /\ has_text (opening_lines data).1 = true
  /\ remove_last_message h1 = (Ok (visible h1, []), h1)
  /\ send_last_reply_to_input h1 = (Ok (opening_lines data).1, h1).
Proof.
  intros Hc Hn _ h1. subst h1.
  rewrite (load_character_history settings _character data name1 name2 name
             h Hc Hn).
  cbn [internal visible].
  split; [reflexivity|]. split; [reflexivity|].
  split; [apply opening_line_has_text|]. split.
  - apply (proj1 (remove_last_message_spec
                    {| internal := example_turns data name1 name
                                   ++ [(BEGIN_VISIBLE_CHAT,
                                        (opening_lines data).1)];
                       visible := [([], (opening_lines data).2)] |}
                    (example_turns data name1 name)
                    (BEGIN_VISIBLE_CHAT, (opening_lines data).1) eq_refl)).
    reflexivity.
  - cbv [send_last_reply_to_input bind get_internal lift ret].
    cbn [internal]. rewrite length_app. cbn [length].
    replace (0 <? length (example_turns data name1 name) + 1) with true
      by (symmetry; apply Nat.ltb_lt; lia).
    rewrite py_getitem_last. reflexivity.
Qed.

Lemma X10_witness :
  let h1 := (load_character (Ext := no_extensions) default_settings
               (lit "Aqua") aqua (lit "You") (lit "Bot")
               empty_history).2 in
  internal h1 = example_turns aqua (lit "You") (lit "Aqua")
                ++ [(BEGIN_VISIBLE_CHAT,
                     (opening_lines (Ext := no_extensions) aqua).1)]
  /\ visible h1 = [([], (opening_lines (Ext := no_extensions) aqua).2)]
  /\ has_text (opening_lines (Ext := no_extensions) aqua).1 = true
  /\ remove_last_message h1 = (Ok (visible h1, []), h1)
  /\ send_last_reply_to_input h1
     = (Ok (opening_lines (Ext := no_extensions) aqua).1, h1).
Proof.
  apply (X10_load_character_opening (Ext := no_extensions) default_settings
           (lit "Aqua") aqua (lit "You") (lit "Bot") (lit "Aqua")
           empty_history); [discriminate | reflexivity | reflexivity].
Defined.

(** ** Loading a history *)

Lemma split_on_nonempty (c : ascii) (s : str) : split_on c s <> [].
Proof.
  destruct s as [|a s]; cbn; [discriminate|].
  destruct (Ascii.eqb a c); [discriminate|].
  destruct (split_on c s); discriminate.
Qed.

Lemma join_cons (sep w : str) (ws : list str) :
  ws <> [] -> join sep (w :: ws) = w ++ sep ++ join sep ws.
Proof. destruct ws; [contradiction|reflexivity]. Qed.

(** [sep.join(s.split(sep)) == s] for a separator of one character. *)
Lemma join_split_on (c : ascii) (s : str) : join [c] (split_on c s) = s.
Proof.
  induction s as [|a s IH]; [reflexivity|].
  cbn [split_on]. destruct (Ascii.eqb a c) eqn:E.
  - apply ascii_eqb_eq in E. subst a.
    rewrite join_cons by apply split_on_nonempty. rewrite IH. reflexivity.
  - pose proof (split_on_nonempty c s) as Hne.
    destruct (split_on c s) as [|w ws]; [contradiction|].
    destruct ws as [|w' ws].
    + cbn in IH |- *. rewrite IH. reflexivity.
    + rewrite <- IH. rewrite !join_cons by discriminate. reflexivity.
Qed.

Lemma split_on_label (label rest : str) :
  no_colon label = true ->
  split_on ":"%char (label ++ ":"%char :: rest)
  = label :: split_on ":"%char rest.
Proof.
  induction label as [|a label IH]; intros H.
  - cbn [app split_on]. rewrite ascii_eqb_refl. reflexivity.
  - cbn in H. apply andb_prop in H as [Ha Hl].
    apply negb_true_iff in Ha. cbn [app split_on]. rewrite Ha.
    rewrite (IH Hl). reflexivity.
Qed.

Lemma after_colon_labelled (label rest : str) :
  no_colon label = true ->
  after_colon (label ++ lit ":" ++ rest) = strip rest.
Proof.
  intros H. unfold after_colon.
  change (lit ":" ++ rest) with (":"%char :: rest).
  rewrite (split_on_label label rest H). cbn [tl].
  change (lit ":") with [":"%char]. rewrite join_split_on. reflexivity.
Qed.

Lemma after_colon_stripped (x : str) : strip (after_colon x) = after_colon x.
Proof. apply strip_idem. Qed.

Lemma pair_up_length_two (l : list str) :
  length (pair_up l) = Nat.div2 (length l)
  /\ forall a, length (pair_up (a :: l)) = Nat.div2 (S (length l)).
Proof.
  induction l as [|b l [IH1 IH2]].
  - split; reflexivity.
  - split; [apply IH2|]. intros a. cbn [pair_up length Nat.div2].
    rewrite IH1. reflexivity.
Qed.

Lemma pair_up_length (l : list str) :
  length (pair_up l) = Nat.div2 (length l).
Proof. apply pair_up_length_two. Qed.

Lemma pair_up_stripped_two (l : list str) :
  Forall (fun x => strip x = x) l ->
  Forall (fun t : turn => strip t.1 = t.1 /\ strip t.2 = t.2) (pair_up l)
  /\ forall a, strip a = a ->
       Forall (fun t : turn => strip t.1 = t.1 /\ strip t.2 = t.2)
              (pair_up (a :: l)).
Proof.
  induction l as [|b l IH]; intros H.
  - split; [constructor|]. intros a _. constructor.
  - pose proof (Forall_inv H) as Hb. apply Forall_inv_tail in H.
    destruct (IH H) as [IH1 IH2].
    split; [apply IH2; exact Hb|]. intros a Ha. cbn [pair_up].
    constructor; [split; assumption|exact IH1].
Qed.

Lemma after_colon_all_stripped (chat : list str) :
  Forall (fun x => strip x = x) (map after_colon chat).
Proof.
  induction chat; constructor; [apply after_colon_stripped|assumption].
Qed.

(** X11. A history file in the format of Pygmalion's interface (a list
    [chat] of lines) is read by position: two lines make a row, and a
    last line without a partner is left out.  When the first line starts
    with the bot's label it becomes an opening row of its own, with the
    begin-chat marker on the user side.  The visible history is equal
    to the internal one but for the user side of that opening row, and
    every text of it is stripped of surrounding white space. *)
Theorem X11_load_history_chat (chat : list str) (name1 name2 : str)
  (h : History) :
  let h' := (load_history (FileChat chat) name1 name2 h).2 in
  (load_history (FileChat chat) name1 name2 h).1 = Ok tt
  /\ map snd (visible h') = map snd (internal h')
  /\ tl (visible h') = tl (internal h')
  /\ length (internal h')
     = (if startswith (name2 ++ lit ":") (hd [] chat) && (0 <? length chat)
        then S (Nat.div2 (length chat - 1))
        else Nat.div2 (length chat))
  /\ Forall (fun t : turn => strip t.1 = t.1 /\ strip t.2 = t.2)
            (visible h').
Proof.
  intros h'. subst h'. unfold load_history.
  cbv [bind set_internal set_visible].
  destruct chat as [|first chat]; cbn [internal visible fst snd].
  - rewrite andb_false_r. repeat split. constructor.
  - cbn [hd length]. rewrite andb_true_r.
    destruct (startswith (name2 ++ lit ":") first);
      cbn [internal visible fst snd].
    + cbn [map hd tl length]. repeat split.
      * rewrite pair_up_length, length_map.
        replace (S (length chat) - 1) with (length chat) by lia. reflexivity.
      * constructor; [split; [reflexivity|apply after_colon_stripped]|].
        apply pair_up_stripped_two. apply after_colon_all_stripped.
    + repeat split.
      * rewrite pair_up_length, length_map. reflexivity.
      * apply (pair_up_stripped_two (map after_colon (first :: chat))).
        apply (after_colon_all_stripped (first :: chat)).
Qed.

(** The lines [label:text] of a list of labelled messages. *)
Lemma after_colon_lines (msgs : list (str * str)) :
  Forall (fun m => no_colon m.1 = true) msgs ->
  map after_colon (map (fun m => m.1 ++ lit ":" ++ m.2) msgs)
  = map (fun m => strip m.2) msgs.
Proof.
  induction msgs as [|m msgs IH]; intros H; [reflexivity|].
  cbn [map]. rewrite after_colon_labelled by exact (Forall_inv H).
  rewrite IH by exact (Forall_inv_tail H). reflexivity.
Qed.

(** X12. In such a file every line loses its speaker label, read up to
    the first colon, and its surrounding white space; colons in the
    message itself are kept.  For lines [label:message] whose labels have
    no colon, of which the first does not start with the bot's label,
    both histories become the stripped messages paired by position,
    whatever the labels say about who spoke. *)
Theorem X12_load_history_chat_messages (msgs : list (str * str))
  (name1 name2 : str) (h : History) :
  Forall (fun m => no_colon m.1 = true) msgs ->
  startswith (name2 ++ lit ":")
    (hd [] (map (fun m => m.1 ++ lit ":" ++ m.2) msgs)) = false ->
  load_history (FileChat (map (fun m => m.1 ++ lit ":" ++ m.2) msgs))
    name1 name2 h
  = (Ok tt, {| internal := pair_up (map (fun m => strip m.2) msgs);
               visible := pair_up (map (fun m => strip m.2) msgs) |}).
Proof.
  intros Hl Hs. unfold load_history.
  cbv [bind set_internal set_visible]. rewrite (after_colon_lines msgs Hl).
  destruct msgs as [|m msgs]; [reflexivity|].
  cbn [map hd] in Hs |- *. rewrite Hs. reflexivity.
Qed.

Lemma X12_witness :
  load_history
    (FileChat (map (fun m => m.1 ++ lit ":" ++ m.2)
                 [(lit "You", lit " See you at 5:30 "); (lit "You", lit " ok?");
                  (lit "Bot", lit " Fine.")]))
    (lit "You") (lit "Bot") empty_history
  = (Ok tt, {| internal := [(lit "See you at 5:30", lit "ok?")];
               visible := [(lit "See you at 5:30", lit "ok?")] |}).
Proof.
  apply (X12_load_history_chat_messages
           [(lit "You", lit " See you at 5:30 "); (lit "You", lit " ok?");
            (lit "Bot", lit " Fine.")]
           (lit "You") (lit "Bot") empty_history).
  - repeat constructor.
  - reflexivity.
Defined.

(** ** The values of a preset *)

Section PresetValues.

Context {value : Type} {Val : PyValues value}.

(** A key that no line assigns keeps the value it had. *)
Lemma preset_lines_unassigned (k : str) (lines : list str) :
  forall m m' : gmap str value,
    forallb (fun line => negb (assigns_key k line)) lines = true ->
    preset_lines lines m = Ok m' ->
    m' !! k = m !! k.
Proof.
  induction lines as [|line rest IH]; intros m m' Hn; cbn [preset_lines].
  - intros H. injection H as <-. reflexivity.
  - cbn [forallb] in Hn. apply andb_prop in Hn as [Hl Hr].
    unfold assigns_key in Hl.
    destruct (preset_assignment line) as [[k' v]|]; [|apply IH; exact Hr].
    destruct (py_eval v) as [x|e]; [|discriminate].
    intros H. rewrite (IH _ _ Hr H).
    apply negb_true_iff, bool_decide_eq_false in Hl.
    apply lookup_insert_ne. exact Hl.
Qed.

(** The last line that assigns a key decides its value. *)
Lemma preset_lines_last (k v : str) (before after : list str) (line : str)
  (m m' : gmap str value) :
  preset_assignment line = Some (k, v) ->
  forallb (fun line => negb (assigns_key k line)) after = true ->
  preset_lines (before ++ line :: after) m = Ok m' ->
  exists x, py_eval v = Ok x /\ m' !! k = Some x.
Proof.
  intros Hline Hafter. rewrite preset_lines_app.
  destruct (preset_lines before m) as [m0|e]; [|discriminate].
  cbn [preset_lines]. rewrite Hline.
  destruct (py_eval v) as [x|e]; [|discriminate].
  intros H. exists x. split; [reflexivity|].
  rewrite (preset_lines_unassigned k after _ _ Hafter H).
  apply lookup_insert_eq.
Qed.

Lemma default_params_fields (k : str) :
  In k preset_fields -> is_Some ((default_params : gmap str value) !! k).
Proof.
  intros H. unfold default_params.
  repeat (destruct H as [<-|H];
          [repeat (rewrite lookup_insert_ne by discriminate);
           rewrite lookup_insert_eq; eauto|]).
  destruct H.
Qed.

Lemma dict_get_all_present (keys : list str) (m : gmap str value) :
  (forall k, In k keys -> is_Some (m !! k)) ->
  exists vs, dict_get_all m keys = Ok vs.
Proof.
  induction keys as [|k keys IH]; intros H; cbn [dict_get_all]; [eauto|].
  unfold dict_get. destruct (H k (or_introl eq_refl)) as [x Hx]. rewrite Hx.
  destruct IH as [vs Hvs]; [intros j Hj; apply H; right; exact Hj|].
  rewrite Hvs. eauto.
Qed.

Lemma preset_lines_raises (lines : list str) :
  forall (m : gmap str value) (e : exn),
    preset_lines lines m = Raise e ->
    exists line k v,
      In line lines /\ preset_assignment line = Some (k, v)
      /\ py_eval v = Raise e.
Proof.
  induction lines as [|line rest IH]; intros m e; cbn [preset_lines];
    [discriminate|].
  destruct (preset_assignment line) as [[k v]|] eqn:El.
  - destruct (py_eval v) as [x|e'] eqn:Ev.
    + intros H. destruct (IH _ _ H) as [l [k' [v' [Hin Hr]]]].
      exists l, k', v'. split; [right; exact Hin|exact Hr].
    + intros H. injection H as <-. exists line, k, v.
      split; [left; reflexivity|]. split; assumption.
  - intros H. destruct (IH _ _ H) as [l [k' [v' [Hin Hr]]]].
    exists l, k', v'. split; [right; exact Hin|exact Hr].
Qed.

End PresetValues.

(** X14. For a preset file whose values are plain literals: in the
    dictionary that [load_preset_values] returns, a key keeps the value
    of the last line of the file that assigns it, and a key that no line
    assigns keeps its default, or stays absent when it has none; for
    [temperature] the value goes through [min(1.99, .)] first. *)
Theorem X14_preset_last_assignment_wins {value : Type} {Val : PyValues value}
  (lines : list str) (m : gmap str value) :
  plain_preset lines = true ->
  load_preset_lines lines true = Ok (PresetDict m) ->
  (forall k, k <> lit "temperature" ->
     forallb (fun line => negb (assigns_key k line)) lines = true ->
     m !! k = default_params !! k)
  /\ (forall before line after k v,
        lines = before ++ line :: after ->
        preset_assignment line = Some (k, v) ->
        forallb (fun line => negb (assigns_key k line)) after = true ->
        exists x, py_eval v = Ok x
                  /\ if bool_decide (k = lit "temperature")
                     then exists x', py_min_1_99 x = Ok x' /\ m !! k = Some x'
                     else m !! k = Some x).
Proof.
  intros _. unfold load_preset_lines.
  destruct (preset_lines lines default_params) as [p|e] eqn:E;
    [|discriminate].
  destruct (dict_get p (lit "temperature")) as [t|e] eqn:Et; [|discriminate].
  destruct (py_min_1_99 t) as [t'|e] eqn:Em; [|discriminate].
  intros H. injection H as <-. split.
  - intros k Hk Hn.
    rewrite lookup_insert_ne by (intros Heq; apply Hk; symmetry; exact Heq).
    exact (preset_lines_unassigned k lines _ _ Hn E).
  - intros before line after k v -> Hline Hafter.
    destruct (preset_lines_last k v before after line _ _ Hline Hafter E)
      as [x [Hx Hp]].
    exists x. split; [exact Hx|].
    destruct (bool_decide (k = lit "temperature")) eqn:Ek.
    + apply bool_decide_eq_true in Ek. subst k.
      unfold dict_get in Et. rewrite Hp in Et. injection Et as <-.
      exists t'. split; [exact Em|apply lookup_insert_eq].
    + apply bool_decide_eq_false in Ek.
      rewrite lookup_insert_ne
        by (intros Heq; apply Ek; symmetry; exact Heq).
      exact Hp.
Qed.

Lemma X14_witness :
  exists m,
    plain_preset
      [lit "top_k=40"; lit "temperature=0"; lit "top_k=30,"; lit "seed=7"]
    = true
    /\ load_preset_lines (Val := literal_values)
         [lit "top_k=40"; lit "temperature=0"; lit "top_k=30,"; lit "seed=7"]
         true = Ok (PresetDict m)
    /\ m !! lit "top_p" = Some (LInt 1)
    /\ m !! lit "top_k" = Some (LInt 30)
    /\ m !! lit "temperature" = Some (LInt 0).
Proof.
  eexists. split; [reflexivity|]. split; [reflexivity|].
  match goal with
  | |- ?m !! _ = _ /\ _ =>
      pose proof (X14_preset_last_assignment_wins (Val := literal_values)
                    [lit "top_k=40"; lit "temperature=0"; lit "top_k=30,";
                     lit "seed=7"] m eq_refl eq_refl) as [Hd Hl]
  end.
  split; [|split].
  - rewrite (Hd (lit "top_p")); [|discriminate|reflexivity].
    unfold default_params.
    repeat (rewrite lookup_insert_ne by discriminate).
    apply lookup_insert_eq.
  - destruct (Hl [lit "top_k=40"; lit "temperature=0"] (lit "top_k=30,")
                [lit "seed=7"] (lit "top_k") (lit "30") eq_refl eq_refl
                eq_refl) as [x [Hx Hm]].
    cbn in Hx. injection Hx as <-. exact Hm.
  - destruct (Hl [lit "top_k=40"] (lit "temperature=0")
                [lit "top_k=30,"; lit "seed=7"] (lit "temperature") (lit "0")
                eq_refl eq_refl eq_refl) as [x [Hx [x' [Hx' Hm]]]].
    cbn in Hx. injection Hx as <-. cbn in Hx'. injection Hx' as <-.
    exact Hm.
Defined.

(** *** Lines that are passed over, and lines that end the load *)

Lemma split_on_length (c : ascii) (s : str) :
  length (split_on c s) = S (length (List.filter (fun a => Ascii.eqb a c) s)).
Proof.
  induction s as [|a s IH]; [reflexivity|].
  cbn [split_on List.filter]. destruct (Ascii.eqb a c).
  - cbn [length]. rewrite IH. reflexivity.
  - pose proof (split_on_nonempty c s) as Hne.
    destruct (split_on c s) as [|w ws]; [contradiction|].
    cbn [length] in IH |- *. exact IH.
Qed.

Lemma filter_drop_while (p q : ascii -> bool) (s : str) :
  (forall c, p c = true -> q c = false) ->
  List.filter p (drop_while q s) = List.filter p s.
Proof.
  intros H. induction s as [|a s IH]; [reflexivity|].
  cbn [drop_while List.filter]. destruct (q a) eqn:Eq; [|reflexivity].
  destruct (p a) eqn:Ep; [|exact IH].
  rewrite (H a Ep) in Eq. discriminate.
Qed.

Lemma filter_rev_str (p : ascii -> bool) (s : str) :
  List.filter p (rev s) = rev (List.filter p s).
Proof.
  induction s as [|a s IH]; [reflexivity|].
  cbn [rev List.filter]. rewrite List.filter_app, IH. cbn [List.filter].
  destruct (p a); [reflexivity|apply app_nil_r].
Qed.

Lemma equals_signs_kept (line : str) :
  equals_signs (strip (rstrip_char ","%char line)) = equals_signs line.
Proof.
  unfold equals_signs, strip, lstrip, rstrip, rstrip_char.
  assert (Hs : forall c, Ascii.eqb c "="%char = true -> is_space c = false).
  { intros c Hc. apply ascii_eqb_eq in Hc. subst c. reflexivity. }
  assert (Hc : forall c, Ascii.eqb c "="%char = true
                         -> Ascii.eqb ","%char c = false).
  { intros c Hc. apply ascii_eqb_eq in Hc. subst c. reflexivity. }
  rewrite (filter_drop_while _ _ _ Hs), filter_rev_str,
    (filter_drop_while _ _ _ Hs), filter_rev_str, rev_involutive,
    filter_rev_str, (filter_drop_while _ _ _ Hc), filter_rev_str,
    rev_involutive.
  reflexivity.
Qed.

(** A line passes the test [len(i) == 2] only with one [=] sign. *)
Lemma preset_assignment_equals (line : str) :
  equals_signs line <> 1 -> preset_assignment line = None.
Proof.
  intros H. unfold preset_assignment.
  pose proof (split_on_length "="%char (strip (rstrip_char ","%char line)))
    as Hl.
  fold (equals_signs (strip (rstrip_char ","%char line))) in Hl.
  rewrite equals_signs_kept in Hl.
  destruct (split_on "="%char (strip (rstrip_char ","%char line)))
    as [|a [|b [|c l]]]; try reflexivity.
  cbn [length] in Hl. exfalso. apply H. lia.
Qed.

(** X15. For a preset file whose values are plain literals: a line
    that does not have exactly one [=] sign is passed over, the result
    is the same without it.  A line whose value does not evaluate ends
    the load with the exception of [eval], whatever follows it.
    [load_preset_values] raises nothing of its own: every exception it
    raises comes from the [eval] of a line of the file or from
    [min(1.99, .)]; no key lookup fails. *)
Theorem X15_preset_lines_skipped_or_fatal {value : Type} {Val : PyValues value}
  (before after : list str) (line : str) (return_dict : bool) :
  plain_preset (before ++ line :: after) = true ->
  (equals_signs line <> 1 ->
   load_preset_lines (before ++ line :: after) return_dict
   = load_preset_lines (before ++ after) return_dict)
  /\ (forall k v e m0,
        preset_lines before default_params = Ok m0 ->
        preset_assignment line = Some (k, v) ->
        py_eval v = Raise e ->
        load_preset_lines (before ++ line :: after) return_dict = Raise e)
  /\ (forall lines e,
        plain_preset lines = true ->
        load_preset_lines lines return_dict = Raise e ->
        (exists l k v, In l lines /\ preset_assignment l = Some (k, v)
                       /\ py_eval v = Raise e)
        \/ exists t, py_min_1_99 t = Raise e).
Proof.
  intros _. split; [|split].
  - intros H. unfold load_preset_lines. rewrite !preset_lines_app.
    destruct (preset_lines before default_params) as [m|e]; [|reflexivity].
    cbn [preset_lines]. rewrite (preset_assignment_equals line H).
    reflexivity.
  - intros k v e m0 Hb Hline He. unfold load_preset_lines.
    rewrite preset_lines_app, Hb. cbn [preset_lines].
    rewrite Hline, He. reflexivity.
  - intros lines e _. unfold load_preset_lines.
    destruct (preset_lines lines default_params) as [p|e'] eqn:E.
    2:{ intros H. injection H as <-. left.
        exact (preset_lines_raises lines _ _ E). }
    assert (Hf : forall k, In k preset_fields -> is_Some (p !! k)).
    { intros k Hk.
      exact (preset_lines_keeps lines _ _ k (default_params_fields k Hk) E). }
    unfold dict_get at 1.
    destruct (Hf (lit "temperature")) as [t Ht];
      [right; left; reflexivity|].
    rewrite Ht. destruct (py_min_1_99 t) as [t'|e'] eqn:Em.
    2:{ intros H. injection H as <-. right. eauto. }
    destruct return_dict; [discriminate|].
    destruct (dict_get_all_present preset_fields
                (<[lit "temperature" := t']> p)) as [vs Hvs].
    { intros k Hk. destruct (decide (lit "temperature" = k)) as [<-|Hne].
      - rewrite lookup_insert_eq. eauto.
      - rewrite lookup_insert_ne by exact Hne. apply Hf. exact Hk. }
    rewrite Hvs. discriminate.
Qed.

Lemma X15_witness :
  plain_preset
    ([lit "top_k=40"] ++ lit "top_p=1=2" :: [lit "do_sample=False"]) = true
  /\ load_preset_lines (Val := literal_values)
       ([lit "top_k=40"] ++ lit "top_p=1=2" :: [lit "do_sample=False"]) false
     = load_preset_lines (Val := literal_values)
         ([lit "top_k=40"] ++ [lit "do_sample=False"]) false
  /\ plain_preset
       ([lit "top_k=40"] ++ lit "top_k=007" :: [lit "do_sample=False"]) = true
  /\ load_preset_lines (Val := literal_values)
       ([lit "top_k=40"] ++ lit "top_k=007" :: [lit "do_sample=False"])
       false
     = Raise SyntaxError.
Proof.
  split; [reflexivity|]. split; [|split; [reflexivity|]].
  - apply (X15_preset_lines_skipped_or_fatal (Val := literal_values)
             [lit "top_k=40"] [lit "do_sample=False"] (lit "top_p=1=2")
             false eq_refl).
    vm_compute. lia.
  - pose proof (X15_preset_lines_skipped_or_fatal (Val := literal_values)
                  [lit "top_k=40"] [lit "do_sample=False"]
                  (lit "top_k=007") false eq_refl) as [_ [H _]].
    exact (H (lit "top_k") (lit "007") SyntaxError _ eq_refl eq_refl eq_refl).
Defined.

(** ** What the generator yields *)

Lemma stream_loop_yields {Sampling : Type} {Tok : Tokenizer}
  {Ext : Extensions} {Model : LanguageModel Sampling} (args : Args)
  (original_question question : str) (params : GenerateParams Sampling)
  (n : Z) (rounds : nat) :
  forall (i : nat) (input_ids : list Z),
    run_yields (stream_loop args original_question question params n rounds
                  i input_ids)
    = map (fun c => reply_text args original_question question
                      (call_output c))
          (run_calls (stream_loop args original_question question params n
                        rounds i input_ids)).
Proof.
  induction rounds as [|r IH]; intros i input_ids; cbn [stream_loop];
    [reflexivity|].
  destruct (py_getitem _ _) as [last|e]; [|reflexivity].
  destruct (last =? n)%Z; [reflexivity|].
  cbn [run_yields run_calls map call_output]. rewrite IH. reflexivity.
Qed.

Lemma reply_text_starts {Tok : Tokenizer} {Ext : Extensions} (args : Args)
  (original_question question : str) (output : list Z) :
  chat_mode args = false ->
  startswith original_question
    (reply_text args original_question question output) = true.
Proof.
  intros H. unfold reply_text. rewrite H. cbn [negb].
  apply startswith_refl_app.
Qed.

(** The texts that [generate_reply] hands to [formatted_outputs]. *)
Lemma generate_reply_texts {Sampling : Type} {Tok : Tokenizer}
  {Ext : Extensions} {Model : LanguageModel Sampling}
  (args : Args) (question : str) (tokens : Z) (sampling : Sampling)
  (min_length : Z) (eos_token stopping_string : option str) :
  let run := generate_reply args question tokens sampling min_length
               eos_token stopping_string in
  let q := if negb (chat_mode args) then ext_input question else question in
  (forall e, end_token eos_token = Raise e ->
     run_calls run = [] /\ run_yields run = [] /\ run_raised run = Some e)
  /\ (forall n, end_token eos_token = Ok n ->
      (args_no_stream args = true ->
       exists c,
         run_calls run = [c]
         /\ call_input c = encode q tokens true
         /\ gp_max_new_tokens (call_params c) = tokens
         /\ gp_min_length (call_params c) = min_length
         /\ run_yields run = [reply_text args question q (call_output c)]
         /\ run_raised run = None)
      /\ (args_no_stream args = false ->
          run_yields run
          = question :: map (fun c => reply_text args question q
                                        (call_output c)) (run_calls run)
          /\ Forall (fun c => gp_min_length (call_params c) = 0%Z)
                    (run_calls run)))
  /\ (chat_mode args = false ->
      Forall (fun y => startswith question y = true) (run_yields run)).
Proof.
  intros run q. subst run q. unfold generate_reply.
  destruct (end_token eos_token) as [n|e] eqn:En.
  2:{ split; [|split].
      - intros e' H. injection H as <-. repeat split.
      - intros n H. discriminate.
      - intros _. constructor. }
  split; [intros e H; discriminate|]. split.
  - intros n' Hn. injection Hn as <-. split.
    + intros Hs. rewrite Hs. eexists. repeat split.
    + intros Hs. rewrite Hs. cbn [run_yields run_calls]. split.
      * rewrite stream_loop_yields. reflexivity.
      * eapply Forall_impl; [|apply stream_loop_params].
        intros c Hc. rewrite Hc. reflexivity.
  - intros Hc. destruct (args_no_stream args); cbn [run_yields].
    + constructor; [|constructor]. apply reply_text_starts. exact Hc.
    + constructor.
      * rewrite <- (app_nil_r question) at 2. apply startswith_refl_app.
      * rewrite stream_loop_yields. apply Forall_forall.
        intros y Hy. apply in_map_iff in Hy as [c [<- _]].
        apply reply_text_starts. exact Hc.
Qed.

Lemma formatted_outputs_chat {Html : HtmlGenerator} (args : Args)
  (reply model_name : str) :
  chat_mode args = true ->
  formatted_outputs args reply model_name = ChatReply reply.
Proof. intros H. unfold formatted_outputs. rewrite H. reflexivity. Qed.

(** X16. What [generate_reply] yields: every value is what
    [formatted_outputs] makes of a text.  Without streaming there is one
    call, for all the tokens and with the [min_length] of the caller, and
    one value.  With streaming the first value is made of the question
    as it was given, before any call; then each call is followed by one
    value, made of the text of its output, and [min_length] is set to 0
    in every call.  In the chat modes the values are the texts
    themselves.  Outside the chat modes every value is a triple made of
    a text that starts with the question as it was given: for a
    GALACTICA model the text after [fix_galactica], twice, and its HTML;
    for a gpt4chan model the text after [fix_gpt4chan], the notice and
    the HTML of a board; for any other model the text as it is, the
    notice and its HTML, so that the reply of such a model starts with
    the question.  When the end token cannot be read from the text given
    for it (its encoding is empty), the generator raises before the
    first value and the first call. *)
Theorem X16_generate_reply_yields {Sampling : Type} {Tok : Tokenizer}
  {Ext : Extensions} {Model : LanguageModel Sampling} {Html : HtmlGenerator}
  (args : Args) (model_name question : str) (tokens : Z) (sampling : Sampling)
  (min_length : Z) (eos_token stopping_string : option str) :
  let run := generate_reply args question tokens sampling min_length
               eos_token stopping_string in
  let q := if negb (chat_mode args) then ext_input question else question in
  let out := fun reply => formatted_outputs args reply model_name in
  let outputs := run_outputs args model_name run in
  (forall e, end_token eos_token = Raise e ->
     run_calls run = [] /\ outputs = [] /\ run_raised run = Some e)
  /\ (forall n, end_token eos_token = Ok n ->
      (args_no_stream args = true ->
       exists c,
         run_calls run = [c]
         /\ call_input c = encode q tokens true
         /\ gp_max_new_tokens (call_params c) = tokens
         /\ gp_min_length (call_params c) = min_length
         /\ outputs = [out (reply_text args question q (call_output c))]
         /\ run_raised run = None)
      /\ (args_no_stream args = false ->
          outputs
          = out question
            :: map (fun c => out (reply_text args question q (call_output c)))
                   (run_calls run)
          /\ Forall (fun c => gp_min_length (call_params c) = 0%Z)
                    (run_calls run)))
  /\ (chat_mode args = true -> outputs = map ChatReply (run_yields run))
  /\ (chat_mode args = false ->
      Forall (fun y =>
                exists r,
                  startswith question r = true
                  /\ y = if is_galactica model_name then
                           Outputs (fix_galactica r) (fix_galactica r)
                             (generate_basic_html (fix_galactica r))
                         else if is_gpt4chan model_name then
                           Outputs (fix_gpt4chan r) ONLY_GALACTICA
                             (generate_4chan_html (fix_gpt4chan r))
                         else
                           Outputs r ONLY_GALACTICA (generate_basic_html r))
             outputs)
  /\ (chat_mode args = false -> plain_model model_name = true ->
      Forall (fun y =>
                exists r,
                  y = Outputs r ONLY_GALACTICA (generate_basic_html r)
                  /\ startswith question r = true)
             outputs).
Proof.
  intros run q out outputs.
  destruct (generate_reply_texts args question tokens sampling min_length
              eos_token stopping_string) as [Hraise [Hok Hstart]].
  fold run in Hraise, Hok, Hstart. fold q in Hok.
  subst outputs. unfold run_outputs. fold out.
  split; [|split; [|split; [|split]]].
  - intros e He. destruct (Hraise e He) as [Hc [Hy Hr]].
    rewrite Hy. repeat split; assumption.
  - intros n Hn. destruct (Hok n Hn) as [Hone Hmany]. split.
    + intros Hs. destruct (Hone Hs) as [c [Hc [Hi [Hm [Hl [Hy Hr]]]]]].
      exists c. rewrite Hy. repeat split; assumption.
    + intros Hs. destruct (Hmany Hs) as [Hy Hl].
      rewrite Hy. cbn [map]. rewrite map_map. split; [reflexivity|exact Hl].
  - intros Hc. apply map_ext. intros r. subst out. cbv beta.
    apply formatted_outputs_chat. exact Hc.
  - intros Hc. apply Forall_forall. intros y Hy.
    apply in_map_iff in Hy as [r [<- Hr]].
    exists r. split.
    + exact (proj1 (Forall_forall _ _) (Hstart Hc) r Hr).
    + subst out. cbv beta. unfold formatted_outputs. rewrite Hc.
      reflexivity.
  - intros Hc Hp. apply Forall_forall. intros y Hy.
    apply in_map_iff in Hy as [r [<- Hr]].
    exists r. split.
    + subst out. cbv beta. unfold formatted_outputs. rewrite Hc.
      unfold plain_model in Hp. apply andb_prop in Hp as [Hg H4].
      apply negb_true_iff in Hg, H4. rewrite Hg, H4. reflexivity.
    + exact (proj1 (Forall_forall _ _) (Hstart Hc) r Hr).
Qed.

Lemma X16_witness :
  let run := generate_reply (Tok := char_tokenizer) (Ext := no_extensions)
               (Model := eos_model) notebook_no_stream (lit "Hi") 200 tt 5
               None None in
  chat_mode notebook_no_stream = false
  /\ plain_model (lit "opt-1.3b") = true
  /\ Forall (fun y =>
               exists r,
                 y = Outputs r ONLY_GALACTICA
                       (generate_basic_html (HtmlGenerator := tagged_html) r)
                 /\ startswith (lit "Hi") r = true)
            (run_outputs (Html := tagged_html) notebook_no_stream
               (lit "opt-1.3b") run)
  /\ length (run_outputs (Html := tagged_html) notebook_no_stream
               (lit "opt-1.3b") run) = 1.
Proof.
  intros run. split; [reflexivity|]. split; [reflexivity|]. split.
  - apply (X16_generate_reply_yields (Tok := char_tokenizer)
             (Ext := no_extensions) (Model := eos_model)
             (Html := tagged_html) notebook_no_stream (lit "opt-1.3b")
             (lit "Hi") 200 tt 5 None None); reflexivity.
  - reflexivity.
Defined.

(** For a GALACTICA model the value yielded need not start with the
    question: its delimiters are rewritten too. *)
Example galactica_rewrites_question :
  formatted_outputs (Html := tagged_html) notebook_no_stream
    (lit "\[x\] is") (lit "GALACTICA-6.7b")
  = Outputs (lit "$x$ is") (lit "$x$ is") (lit "<div>$x$ is</div>").
Proof. reflexivity. Qed.

(** Posts without text are taken out of a gpt4chan transcript, and a
    post with text stays. *)
Example fix_gpt4chan_empty_posts :
  fix_gpt4chan (lit "--- 1" ++ [LF] ++ lit ">>2" ++ [LF] ++ lit "--- 3"
                ++ [LF] ++ lit "hello" ++ [LF] ++ lit "--- 4" ++ [LF]
                ++ lit "  " ++ [LF] ++ lit "---")
  = lit "--- 3" ++ [LF] ++ lit "hello" ++ [LF] ++ lit "---".
Proof. vm_compute. reflexivity. Qed.

Example fix_gpt4chan_chain :
  fix_gpt4chan (lit "--- 1" ++ [LF] ++ lit ">>2" ++ [LF] ++ lit "--- 3"
                ++ [LF] ++ lit ">>4" ++ [LF] ++ lit "--- 5" ++ [LF]
                ++ lit ">>6" ++ [LF] ++ lit "---")
  = lit "---".
Proof. vm_compute. reflexivity. Qed.

Example fix_gpt4chan_four_line_feeds :
  fix_gpt4chan (lit "--- 1" ++ [LF; LF; LF; LF] ++ lit "---")
  = lit "--- 1" ++ [LF; LF; LF; LF] ++ lit "---".
Proof. vm_compute. reflexivity. Qed.

(** ** The shape of the prompt *)

Lemma history_row_list_snoc (name1 name2 : str) (turns : list turn)
  (t : turn) :
  history_row_list name1 name2 (turns ++ [t])
  = history_row_list name1 name2 turns ++ turn_rows name1 name2 t.
Proof.
  unfold history_row_list. rewrite flat_map_app. cbn [flat_map].
  rewrite app_nil_r. reflexivity.
Qed.

(** The first loop puts, between the context row and the rows after it,
    the rows of the most recent turns in the order of the conversation. *)
Lemma history_rows_kept {Tok : Tokenizer} (tokens : Z) (name1 name2 : str)
  (history_size : Z) (ctx : str) (turns_rev : list turn) :
  forall (rest : list str) (count : Z),
  exists dropped kept,
    history_row_list name1 name2 (rev turns_rev) = dropped ++ kept
    /\ history_rows tokens name1 name2 history_size turns_rev (ctx :: rest)
         count = ctx :: kept ++ rest.
Proof.
  induction turns_rev as [|[user bot] older IH]; intros rest count.
  - exists [], []. split; reflexivity.
  - cbn [history_rows rev]. rewrite history_row_list_snoc.
    destruct (rows_len (ctx :: rest) tokens <? 2048 - tokens)%Z.
    2:{ eexists _, []. rewrite app_nil_r. split; reflexivity. }
    assert (Hrows :
      (if negb (bool_decide (user = BEGIN_VISIBLE_CHAT))
       then (insert1 (name1 ++ lit ": " ++ strip user ++ [LF])
               (insert1 (name2 ++ lit ": " ++ strip bot ++ [LF])
                  (ctx :: rest)),
             (count + 1 + 1)%Z)
       else (insert1 (name2 ++ lit ": " ++ strip bot ++ [LF]) (ctx :: rest),
             (count + 1)%Z))
      = (ctx :: turn_rows name1 name2 (user, bot) ++ rest,
         if negb (bool_decide (user = BEGIN_VISIBLE_CHAT))
         then (count + 1 + 1)%Z else (count + 1)%Z)).
    { unfold turn_rows. cbn [fst snd insert1].
      destruct (bool_decide (user = BEGIN_VISIBLE_CHAT)); reflexivity. }
    rewrite Hrows.
    set (count' := if negb (bool_decide (user = BEGIN_VISIBLE_CHAT))
                   then (count + 1 + 1)%Z else (count + 1)%Z).
    destruct (negb (history_size =? 0)%Z && (history_size <=? count')%Z).
    + exists (history_row_list name1 name2 (rev older)),
        (turn_rows name1 name2 (user, bot)).
      split; reflexivity.
    + destruct (IH (turn_rows name1 name2 (user, bot) ++ rest) count')
        as [dropped [kept [Hl Hr]]].
      exists dropped, (kept ++ turn_rows name1 name2 (user, bot)).
      rewrite Hl, Hr, <- !app_assoc. split; reflexivity.
Qed.

(** The second loop drops rows after the context row, from the oldest
    on, and leaves at least [limit - 2] of them when there were as
    many. *)
Lemma trim_rows_suffix {Tok : Tokenizer} (tokens : Z) (limit : nat)
  (ctx : str) :
  2 <= limit ->
  forall (fuel : nat) (rest : list str),
    length (ctx :: rest) <= fuel ->
    exists dropped kept,
      rest = dropped ++ kept
      /\ trim_rows fuel tokens limit (ctx :: rest) = Some (Ok (ctx :: kept))
      /\ (limit - 2 <= length rest -> limit - 2 <= length kept).
Proof.
  intros Hlimit. induction fuel as [|fuel IH]; intros rest Hfuel;
    [cbn [length] in Hfuel; lia|].
  cbn [trim_rows].
  destruct ((limit <? length (ctx :: rest))
            && (2048 - tokens <=? rows_len (ctx :: rest) tokens)%Z) eqn:E.
  - apply andb_true_iff in E as [El _]. apply Nat.ltb_lt in El.
    cbn [length] in El, Hfuel.
    destruct rest as [|a [|b rest]]; cbn [length] in El; try lia.
    cbn [pop1]. destruct (IH rest) as [dropped [kept [Hr [Ht Hk]]]];
      [cbn [length] in Hfuel |- *; lia|].
    exists (a :: b :: dropped), kept. rewrite Hr at 1.
    split; [reflexivity|]. split; [exact Ht|].
    intros _. apply Hk. cbn [length] in El. lia.
  - exists [], rest. split; [reflexivity|]. split; [reflexivity|trivial].
Qed.

Lemma insert1_length (x : str) (rows : list str) :
  length (insert1 x rows) = S (length rows).
Proof. destruct rows; reflexivity. Qed.

(** With a history size, the first loop stops at the turn with which the
    count of rows reaches it: at most one row more than the size. *)
Lemma history_rows_bound {Tok : Tokenizer} (tokens : Z) (name1 name2 : str)
  (history_size : Z) (turns_rev : list turn) :
  forall (rows : list str) (count : Z),
    (0 <= count < history_size)%Z ->
    (Z.of_nat (length (history_rows tokens name1 name2 history_size turns_rev
                         rows count))
     <= Z.of_nat (length rows) + (history_size - count) + 1)%Z.
Proof.
  induction turns_rev as [|[user bot] older IH]; intros rows count Hc;
    cbn [history_rows]; [lia|].
  destruct (rows_len rows tokens <? 2048 - tokens)%Z; [|lia].
  destruct (bool_decide (user = BEGIN_VISIBLE_CHAT)); cbn [negb].
  - destruct (negb (history_size =? 0)%Z
              && (history_size <=? count + 1)%Z) eqn:E.
    + rewrite insert1_length. lia.
    + assert (Hn : (history_size =? 0)%Z = false)
        by (apply Z.eqb_neq; lia).
      rewrite Hn in E. cbn [negb andb] in E. apply Z.leb_gt in E.
      specialize (IH (insert1 (name2 ++ lit ": " ++ strip bot ++ [LF]) rows)
                    (count + 1)%Z ltac:(lia)).
      rewrite insert1_length in IH. lia.
  - destruct (negb (history_size =? 0)%Z
              && (history_size <=? count + 1 + 1)%Z) eqn:E.
    + rewrite !insert1_length. lia.
    + assert (Hn : (history_size =? 0)%Z = false)
        by (apply Z.eqb_neq; lia).
      rewrite Hn in E. cbn [negb andb] in E. apply Z.leb_gt in E.
      specialize (IH (insert1 (name1 ++ lit ": " ++ strip user ++ [LF])
                        (insert1 (name2 ++ lit ": " ++ strip bot ++ [LF])
                           rows))
                    (count + 1 + 1)%Z ltac:(lia)).
      rewrite !insert1_length in IH. lia.
Qed.

Lemma prompt_rows_kept {Tok : Tokenizer} {Ext : Extensions}
  (text : str) (tokens : Z) (name1 name2 context : str) (history_size : Z)
  (impersonate : bool) (h : History) :
  exists dropped kept,
    history_row_list name1 name2 (internal h)
    ++ closing_rows text name1 name2 impersonate
    = dropped ++ kept
    /\ (generate_chat_prompt_rows text tokens name1 name2 context history_size
          impersonate h).1 = Some (Ok ((strip context ++ [LF]) :: kept))
    /\ (impersonate = false -> 1 <= length kept)
    /\ ((0 < history_size)%Z ->
        (Z.of_nat (length kept)
         <= history_size + 1
            + Z.of_nat (length (closing_rows text name1 name2 impersonate)))%Z).
Proof.
  unfold generate_chat_prompt_rows. cbv zeta.
  pose proof (fun H => history_rows_bound tokens name1 name2 history_size
                         (rev (internal h)) [strip context ++ [LF]] 0 H)
    as Hbound.
  destruct (history_rows_kept tokens name1 name2 history_size
              (strip context ++ [LF]) (rev (internal h)) [] 0)
    as [d1 [k1 [Hl Hr]]].
  rewrite rev_involutive in Hl. rewrite app_nil_r in Hr.
  unfold closing_rows.
  match goal with
  | |- context [history_rows ?a ?b ?c ?d ?e ?f ?g] =>
      set (rows0 := history_rows a b c d e f g)
  end.
  assert (Hr0 : rows0 = (strip context ++ [LF]) :: k1) by exact Hr.
  assert (Hb : (0 < history_size)%Z
               -> (Z.of_nat (length rows0) <= 1 + (history_size - 0) + 1)%Z)
    by (intros H0; apply Hbound; lia).
  clearbody rows0. subst rows0. clear Hr Hbound. cbn [length] in Hb.
  assert (Hlen : forall d2 k2 closing : list str,
             k1 ++ closing = d2 ++ k2 -> (0 < history_size)%Z ->
             (Z.of_nat (length k2)
              <= history_size + 1 + Z.of_nat (length closing))%Z).
  { intros d2 k2 closing He Hh. specialize (Hb Hh).
    apply (f_equal (@length str)) in He. rewrite !length_app in He. lia. }
  destruct impersonate; cbn [negb fst].
  - destruct (trim_rows_suffix tokens 2 (strip context ++ [LF]) (le_n 2)
                (length ((strip context ++ [LF])
                         :: k1 ++ [name1 ++ lit ":"]))
                (k1 ++ [name1 ++ lit ":"]) (le_n _))
      as [d2 [k2 [Hs [Ht _]]]].
    exists (d1 ++ d2), k2.
    split; [rewrite Hl, <- !app_assoc, <- Hs; reflexivity|].
    split; [exact Ht|]. split; [discriminate|].
    exact (Hlen _ _ _ Hs).
  - destruct (trim_rows_suffix tokens 3 (strip context ++ [LF])
                (le_S _ _ (le_n 2))
                (length ((strip context ++ [LF])
                         :: k1 ++ [name1 ++ lit ": "
                                    ++ clean_chat_message text ++ [LF];
                                   ext_bot_prefix (name2 ++ lit ":")]))
                (k1 ++ [name1 ++ lit ": " ++ clean_chat_message text
                               ++ [LF];
                        ext_bot_prefix (name2 ++ lit ":")]) (le_n _))
      as [d2 [k2 [Hs [Ht Hk]]]].
    exists (d1 ++ d2), k2.
    split; [rewrite Hl, <- !app_assoc, <- Hs; reflexivity|].
    split; [exact Ht|]. split; [|exact (Hlen _ _ _ Hs)]. intros _.
    apply Hk. rewrite length_app. cbn [length]. lia.
Qed.

Lemma suffix_keeps_last {A : Type} (l d k : list A) (x : A) :
  l ++ [x] = d ++ k -> 1 <= length k -> exists k', k = k' ++ [x].
Proof.
  intros He Hk.
  destruct (exists_last (l := k)) as [k' [a Ha]];
    [intros ->; cbn in Hk; lia|].
  subst k. rewrite app_assoc in He. apply app_inj_tail in He as [_ <-].
  exists k'. reflexivity.
Qed.

(** X17. The prompt is the stripped context and a line feed, followed by
    the most recent part of the conversation, in its order: the rows of
    the internal history, oldest first, then the pending message and the
    bot's label (or the user's label alone when impersonating); both
    loops only ever leave out rows from the oldest end.  When not
    impersonating, the bot's label, after the [bot_prefix] extensions, is
    always the end of the prompt. *)
Theorem X17_prompt_is_recent_conversation {Tok : Tokenizer}
  {Ext : Extensions} (text : str) (tokens : Z) (name1 name2 context : str)
  (history_size : Z) (impersonate : bool) (h : History) :
  exists dropped kept,
    history_row_list name1 name2 (internal h)
    ++ closing_rows text name1 name2 impersonate = dropped ++ kept
    /\ generate_chat_prompt text tokens name1 name2 context history_size
         impersonate h
       = Some (Ok (strip context ++ [LF] ++ concat kept))
    /\ (if impersonate then True
        else exists kept',
               kept = kept' ++ [ext_bot_prefix (name2 ++ lit ":")]).
Proof.
  destruct (prompt_rows_kept text tokens name1 name2 context history_size
              impersonate h) as [dropped [kept [Hs [Hr [Hk _]]]]].
  exists dropped, kept. split; [exact Hs|]. split.
  - unfold generate_chat_prompt.
    change (fst ?x) with (x.1). rewrite Hr. cbn [concat].
    rewrite <- app_assoc. reflexivity.
  - destruct impersonate; [exact I|].
    unfold closing_rows in Hs. cbn [negb] in Hs.
    change [name1 ++ lit ": " ++ clean_chat_message text ++ [LF];
            ext_bot_prefix (name2 ++ lit ":")]
      with ([name1 ++ lit ": " ++ clean_chat_message text ++ [LF]]
            ++ [ext_bot_prefix (name2 ++ lit ":")]) in Hs.
    rewrite app_assoc in Hs.
    exact (suffix_keeps_last _ _ _ _ Hs (Hk eq_refl)).
Qed.

(** X18. With a history size above 0, the prompt has at most one history
    row more than the size: the count is tested after both rows of a turn
    have been added.  With the context row and the closing rows that
    makes [history_size + 4] rows at most, or [history_size + 3] when
    impersonating. *)
Theorem X18_history_size_bound {Tok : Tokenizer} {Ext : Extensions}
  (text : str) (tokens : Z) (name1 name2 context : str) (history_size : Z)
  (impersonate : bool) (h : History) :
  (0 < history_size)%Z ->
  exists rows,
    (generate_chat_prompt_rows text tokens name1 name2 context history_size
       impersonate h).1 = Some (Ok rows)
    /\ (Z.of_nat (length rows)
        <= history_size + 2 + (if impersonate then 1 else 2))%Z.
Proof.
  intros Hh.
  destruct (prompt_rows_kept text tokens name1 name2 context history_size
              impersonate h) as [dropped [kept [_ [Hr [_ Hb]]]]].
  exists ((strip context ++ [LF]) :: kept). split; [exact Hr|].
  specialize (Hb Hh). unfold closing_rows in Hb. cbn [length].
  destruct impersonate; cbn [negb length] in Hb; lia.
Qed.

(** One turn of history and a history size of 1: both rows of the turn
    are in the prompt. *)
Lemma X18_witness :
  (0 < 1)%Z
  /\ exists rows,
       (generate_chat_prompt_rows (Tok := char_tokenizer)
          (Ext := no_extensions) (lit "Bye") 200 (lit "You") (lit "Bot")
          (lit "Chat.") 1 false
          {| internal := [(lit "Hi", lit "Hello!")];
             visible := [(lit "Hi", lit "Hello!")] |}).1 = Some (Ok rows)
       /\ (Z.of_nat (length rows) <= 1 + 2 + 2)%Z.
Proof.
  split; [lia|].
  apply (X18_history_size_bound (Tok := char_tokenizer)
           (Ext := no_extensions) (lit "Bye") 200 (lit "You") (lit "Bot")
           (lit "Chat.") 1 false
           {| internal := [(lit "Hi", lit "Hello!")];
              visible := [(lit "Hi", lit "Hello!")] |}).
  lia.
Defined.

Example history_size_one_gives_two_rows :
  generate_chat_prompt (Tok := char_tokenizer) (Ext := no_extensions)
    (lit "Bye") 200 (lit "You") (lit "Bot") (lit "Chat.") 1 false
    {| internal := [(lit "A", lit "B"); (lit "Hi", lit "Hello!")];
       visible := [(lit "A", lit "B"); (lit "Hi", lit "Hello!")] |}
  = Some (Ok (lit "Chat." ++ [LF] ++ lit "You: Hi" ++ [LF]
              ++ lit "Bot: Hello!" ++ [LF] ++ lit "You: Bye" ++ [LF]
              ++ lit "Bot:")).
Proof. reflexivity. Qed.

(** X19. When the internal history is the opening row of a character
    alone, the context is within the budget, and the context, the
    greeting, the pending message and the bot's label together reach it,
    the second loop removes the greeting and the pending message with
    it: the prompt is the context and the bot's label, without the
    message that the user has just sent. *)
Theorem X19_pending_message_dropped {Tok : Tokenizer} {Ext : Extensions}
  (text : str) (tokens : Z) (name1 name2 context greeting : str)
  (history_size : Z) (shown : list turn) :
  let ctx := strip context ++ [LF] in
  let prefix := ext_bot_prefix (name2 ++ lit ":") in
  (rows_len [ctx] tokens < 2048 - tokens)%Z ->
  (2048 - tokens
   <= rows_len [ctx; name2 ++ lit ": " ++ strip greeting ++ [LF];
                name1 ++ lit ": " ++ clean_chat_message text ++ [LF];
                prefix] tokens)%Z ->
  generate_chat_prompt text tokens name1 name2 context history_size false
    {| internal := [(BEGIN_VISIBLE_CHAT, greeting)]; visible := shown |}
  = Some (Ok (ctx ++ prefix)).
Proof.
  intros ctx prefix Hctx Hover.
  apply Z.ltb_lt in Hctx. apply Z.leb_le in Hover.
  unfold generate_chat_prompt, generate_chat_prompt_rows.
  cbn [internal rev app history_rows]. fold ctx. rewrite Hctx.
  rewrite bool_decide_eq_true_2 by reflexivity.
  cbn [negb insert1].
  destruct (negb (history_size =? 0)%Z && (history_size <=? 0 + 1)%Z);
    cbn [app length fst trim_rows];
    match goal with
    | |- context [(2048 - tokens <=? ?r)%Z] =>
        replace (2048 - tokens <=? r)%Z with true by (symmetry; exact Hover)
    end;
    cbn [Nat.ltb Nat.leb andb pop1 length concat];
    rewrite app_nil_r; reflexivity.
Qed.

Lemma X19_witness :
  generate_chat_prompt (Tok := char_tokenizer) (Ext := no_extensions)
    (lit "What is your name?") 2000 (lit "You") (lit "Aqua")
    (lit "Aqua is a guide.") 0 false
    {| internal := [(BEGIN_VISIBLE_CHAT, lit "Welcome back!")];
       visible := [([], lit "Welcome back!")] |}
  = Some (Ok (lit "Aqua is a guide." ++ [LF] ++ lit "Aqua:")).
Proof.
  apply (X19_pending_message_dropped (Tok := char_tokenizer)
           (Ext := no_extensions) (lit "What is your name?") 2000
           (lit "You") (lit "Aqua") (lit "Aqua is a guide.")
           (lit "Welcome back!") 0 [([], lit "Welcome back!")]);
    vm_compute; [reflexivity | discriminate].
Defined.

(** ** Impersonating the user *)

Lemma impersonate_loop_spec {Ext : Extensions} (question name1 name2 : str)
  (check : bool) (replies : list str) :
  forall last : option str,
    Forall (fun y => exists r, y = ext_output r /\ clean_reply name2 r)
           (impersonate_loop question name1 name2 check replies last).2
    /\ (forall e,
          (impersonate_loop question name1 name2 check replies last).1.1
          = Raised e -> e = IndexError)
    /\ ((forall e,
           (impersonate_loop question name1 name2 check replies last).1.1
           <> Raised e) ->
        (replies = []
         /\ (impersonate_loop question name1 name2 check replies last).1.1
            = Exhausted)
        \/ exists r,
             (impersonate_loop question name1 name2 check replies last).1.2
             = Some r /\ clean_reply name2 r).
Proof.
  induction replies as [|reply rest IH]; intros last; cbn [impersonate_loop].
  - cbn [fst snd]. split; [constructor|]. split; [discriminate|].
    intros _. left. split; reflexivity.
  - destruct (extract_message_from_reply question reply name1 name2 check
                false) as [[[r ncf] sf]|e] eqn:E.
    2:{ cbn [fst snd]. split; [constructor|]. split.
        - intros e' H. injection H as <-.
          exact (extract_message_from_reply_raises _ _ _ _ _ _ _ E).
        - intros H. exfalso. exact (H e eq_refl). }
    pose proof (extract_message_from_reply_stripped _ _ _ _ _ _ _ _ _ E)
      as Hr.
    assert (Hy : Forall (fun y => exists r0, y = ext_output r0
                                             /\ clean_reply name2 r0)
                   (if negb sf then [ext_output r] else [])).
    { destruct sf; cbn [negb]; repeat constructor. eauto. }
    destruct ncf.
    + cbn [fst snd]. split; [exact Hy|]. split; [discriminate|].
      intros _. right. eauto.
    + destruct (IH (Some r)) as [IHy [IHe IHl]].
      destruct (impersonate_loop question name1 name2 check rest (Some r))
        as [[e last'] ys] eqn:E'.
      cbn [fst snd] in *. split; [apply Forall_app; split; assumption|].
      split; [exact IHe|]. intros Hne. right.
      destruct (IHl Hne) as [[-> Hx]|Hx]; [|exact Hx].
      cbn in E' |- *. injection E' as _ <- _. eauto.
Qed.

Lemma stream_loop_raised {Sampling : Type} {Tok : Tokenizer}
  {Ext : Extensions} {Model : LanguageModel Sampling} (args : Args)
  (original_question question : str) (params : GenerateParams Sampling)
  (n : Z) (rounds : nat) :
  forall (i : nat) (input_ids : list Z) (e : exn),
    run_raised (stream_loop args original_question question params n rounds
                  i input_ids) = Some e -> e = IndexError.
Proof.
  induction rounds as [|r IH]; intros i input_ids e; cbn [stream_loop];
    [discriminate|].
  destruct (py_getitem _ _) as [last|e'] eqn:E.
  - destruct (last =? n)%Z; [discriminate|]. apply IH.
  - cbn [run_raised]. intros H. injection H as <-.
    exact (py_getitem_raises _ _ _ E).
Qed.

(** The generator raises nothing but [IndexError], and when it does not
    raise it yields at least once. *)
Lemma generate_reply_ends {Sampling : Type} {Tok : Tokenizer}
  {Ext : Extensions} {Model : LanguageModel Sampling}
  (args : Args) (question : str) (tokens : Z) (sampling : Sampling)
  (min_length : Z) (eos_token stopping_string : option str) :
  let run := generate_reply args question tokens sampling min_length
               eos_token stopping_string in
  (forall e, run_raised run = Some e -> e = IndexError)
  /\ (run_yields run = [] -> run_raised run <> None).
Proof.
  intros run. subst run. unfold generate_reply.
  destruct (end_token eos_token) as [n|e] eqn:En.
  - destruct (args_no_stream args); cbn [run_raised run_yields].
    + split; discriminate.
    + split; [apply stream_loop_raised|discriminate].
  - cbn [run_raised run_yields]. split; [|discriminate].
    intros e' H. injection H as <-. unfold end_token in En.
    destruct eos_token as [t|]; [|discriminate].
    exact (py_getitem_raises _ _ _ En).
Qed.

(** X20. In a chat mode and for a user name that the pattern reads as
    it stands, [impersonate_wrapper] always runs its generator, and the
    text typed by the user plays no part in it.  Every value it yields
    is a reply after the output extensions, and that reply is stripped,
    left unchanged by [clean_chat_message] and, for a name without line
    feed, without a line of the bot in it.  The only exception it raises
    is [IndexError]: the last [yield] always finds the variable [reply]
    bound. *)
Theorem X20_impersonate_wrapper_values {Sampling : Type} {Tok : Tokenizer}
  {Ext : Extensions} {Model : LanguageModel Sampling} (args : Args)
  (text : str) (tokens : Z) (sampling : Sampling) (min_length : Z)
  (name1 name2 context : str) (check : bool) (history_size : Z)
  (h : History) :
  chat_mode args = true ->
  regex_literal name1 = true ->
  exists run,
    (forall text',
       impersonate_wrapper args text' tokens sampling min_length name1 name2
         context check history_size h = Some run)
    /\ Forall (fun y => exists r, y = ext_output r /\ clean_reply name2 r)
              run.2
    /\ (forall e, run.1 = Raise e -> e = IndexError).
Proof.
  intros _ _.
  destruct (generate_chat_prompt_returns text tokens name1 name2 context
              history_size true h) as [question Hq].
  pose (g := generate_reply args question tokens sampling min_length
               (if check then Some [LF] else None)
               (Some ([LF] ++ name2 ++ lit ":"))).
  assert (Hends : (forall e, run_raised g = Some e -> e = IndexError)
                  /\ (run_yields g = [] -> run_raised g <> None))
    by apply generate_reply_ends.
  destruct Hends as [Hraised Hyields].
  exists (impersonate_stream question name1 name2 check g). split.
  - intros text'. unfold impersonate_wrapper.
    change (generate_chat_prompt text' tokens name1 name2 context
              history_size true h)
      with (generate_chat_prompt text tokens name1 name2 context
              history_size true h).
    rewrite Hq. reflexivity.
  - clearbody g.
    unfold impersonate_stream.
    destruct (impersonate_loop_spec question name1 name2 check
                (run_yields g) None) as [Hy [He Hl]].
    destruct (impersonate_loop question name1 name2 check (run_yields g)
                None) as [[e last] ys].
    cbn [fst snd] in Hy, He, Hl.
    destruct e as [| |e].
    + destruct (run_raised g) as [e|] eqn:Er; cbn [fst snd].
      * split; [exact Hy|]. intros e' H. injection H as <-.
        apply Hraised. reflexivity.
      * destruct Hl as [[Hnil _]|[r [-> Hr]]]; [discriminate| |].
        -- exfalso. exact (Hyields Hnil eq_refl).
        -- cbn [fst snd]. split; [|discriminate].
           apply Forall_app. split; [exact Hy|]. repeat constructor. eauto.
    + destruct Hl as [[_ Hb]|[r [-> Hr]]]; [discriminate|discriminate|].
      cbn [fst snd]. split; [|discriminate].
      apply Forall_app. split; [exact Hy|]. repeat constructor. eauto.
    + cbn [fst snd]. split; [exact Hy|]. intros e' H. injection H as <-.
      apply He. reflexivity.
Qed.

Lemma X20_witness :
  chat_mode chat_streaming = true
  /\ regex_literal (lit "You") = true
  /\ exists run,
       impersonate_wrapper (Tok := char_tokenizer) (Ext := no_extensions)
         (Model := eos_model) chat_streaming (lit "typed") 200 tt 0
         (lit "You") (lit "Aqua") (lit "Aqua is a guide.") false 0
         {| internal := [(BEGIN_VISIBLE_CHAT, lit "Welcome back!")];
            visible := [([], lit "Welcome back!")] |}
       = Some run
       /\ Forall (fun y => exists r, y = r /\ clean_reply (lit "Aqua") r)
                 run.2
       /\ (forall e, run.1 = Raise e -> e = IndexError).
Proof.
  split; [reflexivity|]. split; [reflexivity|].
  destruct (X20_impersonate_wrapper_values (Tok := char_tokenizer)
              (Ext := no_extensions) (Model := eos_model) chat_streaming
              (lit "") 200 tt 0 (lit "You") (lit "Aqua")
              (lit "Aqua is a guide.") false 0
              {| internal := [(BEGIN_VISIBLE_CHAT, lit "Welcome back!")];
                 visible := [([], lit "Welcome back!")] |}
              eq_refl eq_refl) as [run [Hrun [Hy He]]].
  exists run. split; [apply Hrun|]. split; [exact Hy|exact He].
Defined.



(** ** Extensions *)

Lemma state_set_fresh (ext : str) (v : bool * nat) (state : ExtensionState) :
  ext ∉ map fst state -> state_set ext v state = state ++ [(ext, v)].
Proof.
  induction state as [|[k w] rest IH]; intros Hf; [reflexivity|].
  cbn [state_set map fst] in *.
  rewrite bool_decide_eq_false_2
    by (intros ->; apply Hf; apply list_elem_of_here).
  rewrite IH; [reflexivity|].
  intros Hin. apply Hf. apply list_elem_of_further. exact Hin.
Qed.

Lemma loaded_entries_names (available : list str) (names : list str) :
  forall (i : nat) (ext : str),
    ext ∈ map fst (loaded_entries available names i) -> ext ∈ names.
Proof.
  induction names as [|e rest IH]; intros i ext; cbn [loaded_entries].
  - intros H. inversion H.
  - rewrite map_app. intros H. apply elem_of_app in H as [H|H].
    + destruct (bool_decide (e ∈ available)); [|inversion H].
      cbn [map fst] in H. apply list_elem_of_singleton in H. subst ext.
      apply list_elem_of_here.
    + apply list_elem_of_further. exact (IH _ _ H).
Qed.

(** For names that are all different, the loader appends one entry for
    each name that is available, with its index as the priority. *)
Lemma load_extensions_entries (available : list str) (names : list str) :
  NoDup names ->
  forall (i : nat) (state : ExtensionState),
    (forall ext, ext ∈ names -> ext ∉ map fst state) ->
    load_extensions available names i state
    = state ++ loaded_entries available names i.
Proof.
  induction 1 as [|e rest He Hnd IH]; intros i state Hf;
    cbn [load_extensions loaded_entries].
  - rewrite app_nil_r. reflexivity.
  - destruct (bool_decide (e ∈ available)).
    + rewrite (state_set_fresh e _ state)
        by (apply Hf; apply list_elem_of_here).
      rewrite IH; [rewrite <- app_assoc; reflexivity|].
      intros ext Hin. rewrite map_app. intros Hn.
      apply elem_of_app in Hn as [Hn|Hn].
      * apply (Hf ext); [apply list_elem_of_further; exact Hin|exact Hn].
      * cbn [map fst] in Hn. apply list_elem_of_singleton in Hn. subst ext.
        apply He. apply list_elem_of_In. exact Hin.
    + cbn [app]. apply IH. intros ext Hin. apply Hf.
      apply list_elem_of_further. exact Hin.
Qed.

Lemma loaded_entries_priority (available : list str) (names : list str) :
  forall i, Forall (fun x : str * (bool * nat) => i <= x.2.2)
                   (loaded_entries available names i).
Proof.
  induction names as [|e rest IH]; intros i; cbn [loaded_entries];
    [constructor|].
  apply Forall_app. split.
  - destruct (bool_decide (e ∈ available)); repeat constructor.
  - eapply Forall_impl; [|apply (IH (S i))]. cbn. intros x Hx. lia.
Qed.

Lemma insert_by_priority_first (x : str * (bool * nat))
  (l : ExtensionState) :
  Forall (fun y : str * (bool * nat) => x.2.2 <= y.2.2) l ->
  insert_by_priority x l = x :: l.
Proof.
  destruct l as [|y l]; [reflexivity|]. intros H.
  cbn [insert_by_priority].
  rewrite (proj2 (Nat.leb_le _ _) (Forall_inv H)). reflexivity.
Qed.

(** The entries of the loader are in the order of their priorities. *)
Lemma loaded_entries_sorted (available : list str) (names : list str) :
  forall i,
    sorted_by_priority (loaded_entries available names i)
    = loaded_entries available names i.
Proof.
  induction names as [|e rest IH]; intros i; cbn [loaded_entries];
    [reflexivity|].
  destruct (bool_decide (e ∈ available)); cbn [app]; [|apply IH].
  unfold sorted_by_priority in *. cbn [fold_right]. rewrite IH.
  apply insert_by_priority_first.
  eapply Forall_impl; [|apply (loaded_entries_priority available rest (S i))].
  cbn. intros x Hx. lia.
Qed.

Lemma apply_loaded_entries (scripts : str -> Script) (typ : str)
  (available : list str) (names : list str) :
  forall (i : nat) (text : str),
    fold_left
      (fun text (entry : str * (bool * nat)) =>
         if entry.2.1 then apply_modifier (scripts entry.1) typ text
         else text)
      (loaded_entries available names i) text
    = fold_left (fun text ext => apply_modifier (scripts ext) typ text)
        (List.filter (fun ext => bool_decide (ext ∈ available)) names) text.
Proof.
  induction names as [|e rest IH]; intros i text;
    cbn [loaded_entries List.filter]; [reflexivity|].
  destruct (bool_decide (e ∈ available)); cbn [app fold_left fst snd];
    apply IH.
Qed.

Lemma apply_modifier_other (script : Script) (typ text : str) :
  typ <> lit "input" -> typ <> lit "output" -> typ <> lit "bot_prefix" ->
  apply_modifier script typ text = text.
Proof.
  intros H1 H2 H3. unfold apply_modifier.
  rewrite !bool_decide_eq_false_2 by assumption. reflexivity.
Qed.

(** X22. With the extensions given on the command line all different,
    [apply_extensions] applies the modifiers of those that are available,
    one after the other in the order of the command line, each to the
    result of the one before; an extension whose module lacks the
    modifier asked for leaves the text as it is.  When [typ] is none of
    [input], [output] and [bot_prefix], or when no extension was asked
    for, the text is returned unchanged. *)
Theorem X22_extensions_in_listed_order (scripts : str -> Script)
  (available : list str) (names : list str) (text typ : str) :
  (NoDup names ->
   apply_extensions scripts (load_extensions available names 0 []) text typ
   = fold_left (fun text ext => apply_modifier (scripts ext) typ text)
       (List.filter (fun ext => bool_decide (ext ∈ available)) names) text)
  /\ (typ <> lit "input" -> typ <> lit "output" -> typ <> lit "bot_prefix" ->
      forall state, apply_extensions scripts state text typ = text)
  /\ apply_extensions scripts (initial_extension_state available None)
       text typ = text.
Proof.
  split; [|split].
  - intros Hnd. unfold apply_extensions.
    rewrite (load_extensions_entries available names Hnd 0 [])
      by (intros ext _ H; inversion H).
    cbn [app]. rewrite loaded_entries_sorted. apply apply_loaded_entries.
  - intros H1 H2 H3 state. unfold apply_extensions.
    generalize (sorted_by_priority state) as l.
    induction l as [|x l IH]; [reflexivity|].
    cbn [fold_left]. rewrite (apply_modifier_other _ _ _ H1 H2 H3).
    destruct x.2.1; exact IH.
  - reflexivity.
Qed.

(** The [bot_prefix] modifier of a loaded extension ends the prompt. *)
Example prompt_with_bot_prefix_extension :
  let smile := {| input_modifier := None;
                  output_modifier := None;
                  bot_prefix_modifier :=
                    Some (fun s => s ++ lit " *smiles*") |} in
  generate_chat_prompt (Tok := char_tokenizer)
    (Ext := loaded_extensions (fun _ => smile)
              (initial_extension_state [lit "smile"] (Some (lit "smile"))))
    (lit "Hi") 200 (lit "You") (lit "Bot") (lit "Chat.") 0 false
    empty_history
  = Some (Ok (lit "Chat." ++ [LF] ++ lit "You: Hi" ++ [LF]
              ++ lit "Bot: *smiles*")).
Proof. reflexivity. Qed.

Lemma X22_witness :
  let shout := {| input_modifier := Some (fun s => s ++ lit "!");
                  output_modifier := None;
                  bot_prefix_modifier := None |} in
  let ask := {| input_modifier := Some (fun s => s ++ lit "?");
                output_modifier := Some (fun s => lit "> " ++ s);
                bot_prefix_modifier := None |} in
  let scripts := fun ext => if bool_decide (ext = lit "ask") then ask
                            else shout in
  let state := initial_extension_state [lit "ask"; lit "shout"]
                 (Some (lit "shout,missing,ask")) in
  apply_extensions scripts state (lit "Hi") (lit "input") = lit "Hi!?"
  /\ apply_extensions scripts state (lit "Hi") (lit "output") = lit "> Hi"
  /\ apply_extensions scripts state (lit "Hi") (lit "html") = lit "Hi".
Proof.
  intros shout ask scripts state.
  pose proof (X22_extensions_in_listed_order scripts
                [lit "ask"; lit "shout"]
                [lit "shout"; lit "missing"; lit "ask"]) as H.
  assert (Hnd : NoDup [lit "shout"; lit "missing"; lit "ask"]).
  { repeat constructor; cbn; intros Hin;
      repeat (destruct Hin as [Hin|Hin]; [discriminate Hin|]);
      exact Hin. }
  split; [|split].
  - exact (proj1 (H (lit "Hi") (lit "input")) Hnd).
  - exact (proj1 (H (lit "Hi") (lit "output")) Hnd).
  - apply (proj1 (proj2 (H (lit "Hi") (lit "html")))); discriminate.
Defined.

(** ** Uploading a character *)

Lemma parse_decimal_zero (s : str) :
  parse_decimal ("0"%char :: s) = parse_decimal s.
Proof.
  unfold parse_decimal.
  cbn [String.string_of_list_ascii NilEmpty.uint_of_string].
  destruct (NilEmpty.uint_of_string (String.string_of_list_ascii s));
    reflexivity.
Qed.

Lemma parse_decimal_zeros (n : nat) (s : str) :
  parse_decimal (repeat "0"%char n ++ s) = parse_decimal s.
Proof.
  induction n as [|n IH]; [reflexivity|].
  cbn [repeat app]. rewrite parse_decimal_zero. exact IH.
Qed.

Lemma parse_format_03d (i : nat) : parse_decimal (format_03d i) = Some i.
Proof.
  unfold format_03d. rewrite parse_decimal_zeros.
  unfold parse_decimal, decimal, lit.
  rewrite String.string_of_list_ascii_of_string, NilEmpty.usu.
  cbn [option_map]. rewrite Unsigned.of_to. reflexivity.
Qed.

(** The names that the loop tries are all different. *)
Lemma candidate_inj (char_name : str) (i j : nat) :
  candidate char_name i = candidate char_name j -> i = j.
Proof.
  destruct i as [|i], j as [|j]; cbn [candidate]; intros H.
  - reflexivity.
  - apply (f_equal (@length ascii)) in H. rewrite !length_app in H.
    cbn [length lit String.list_ascii_of_string] in H. lia.
  - apply (f_equal (@length ascii)) in H. rewrite !length_app in H.
    cbn [length lit String.list_ascii_of_string] in H. lia.
  - apply app_inv_head in H. apply app_inv_head in H.
    apply (f_equal parse_decimal) in H. rewrite !parse_format_03d in H.
    congruence.
Qed.

Lemma free_name_some (files : gset str) (char_name : str) (fuel : nat) :
  forall (k : nat) (out : str),
    free_name fuel files char_name (candidate char_name k) (S k) = Some out ->
    exists i, k <= i <= k + fuel
              /\ out = candidate char_name i /\ (out ∉ files)
              /\ forall j, k <= j < i -> candidate char_name j ∈ files.
Proof.
  induction fuel as [|fuel IH]; intros k out; cbn [free_name].
  - destruct (bool_decide (candidate char_name k ∈ files)) eqn:E;
      [discriminate|].
    apply bool_decide_eq_false in E. intros H. injection H as <-.
    exists k. repeat split; [lia|lia|exact E|]. intros j Hj. lia.
  - destruct (bool_decide (candidate char_name k ∈ files)) eqn:E.
    + apply bool_decide_eq_true in E. intros H.
      destruct (IH (S k) out H) as [i [Hi [Ho [Hf Hb]]]].
      exists i. repeat split; [lia|lia|exact Ho|exact Hf|].
      intros j Hj. destruct (Nat.eq_dec j k) as [->|Hne]; [exact E|].
      apply Hb. lia.
    + apply bool_decide_eq_false in E. intros H. injection H as <-.
      exists k. repeat split; [lia|lia|exact E|]. intros j Hj. lia.
Qed.

Lemma free_name_none (files : gset str) (char_name : str) (fuel : nat) :
  forall k,
    free_name fuel files char_name (candidate char_name k) (S k) = None ->
    forall j, k <= j <= k + fuel -> candidate char_name j ∈ files.
Proof.
  induction fuel as [|fuel IH]; intros k; cbn [free_name];
    destruct (bool_decide (candidate char_name k ∈ files)) eqn:E;
    try discriminate; apply bool_decide_eq_true in E; intros H j Hj.
  - replace j with k by lia. exact E.
  - destruct (Nat.eq_dec j k) as [->|Hne]; [exact E|].
    apply (IH (S k) H). lia.
Qed.

(** More names than files cannot all be taken. *)
Lemma candidates_not_all_taken (files : gset str) (char_name : str) :
  ~ (forall j, j <= size files -> candidate char_name j ∈ files).
Proof.
  intros Hall.
  set (l := candidate char_name <$> seq 0 (S (size files))).
  assert (Hnd : base.NoDup l).
  { apply NoDup_fmap_2_strong; [|apply NoDup_seq].
    intros x y _ _. apply candidate_inj. }
  assert (Hsub : (list_to_set l : gset str) ⊆ files).
  { intros x Hx. apply elem_of_list_to_set in Hx.
    apply list_elem_of_fmap in Hx as [j [-> Hj]].
    apply elem_of_seq in Hj. apply Hall. lia. }
  apply subseteq_size in Hsub. rewrite (size_list_to_set l Hnd) in Hsub.
  unfold l in Hsub. rewrite length_fmap, length_seq in Hsub. lia.
Qed.

Lemma free_name_returns (files : gset str) (char_name : str) :
  exists i,
    free_name (size files) files char_name char_name 1
    = Some (candidate char_name i)
    /\ (candidate char_name i ∉ files)
    /\ forall j, j < i -> candidate char_name j ∈ files.
Proof.
  destruct (free_name (size files) files char_name char_name 1)
    as [out|] eqn:E.
  - destruct (free_name_some files char_name (size files) 0 out E)
      as [i [_ [-> [Hf Hb]]]].
    exists i. split; [reflexivity|]. split; [exact Hf|].
    intros j Hj. apply Hb. lia.
  - exfalso. apply (candidates_not_all_taken files char_name).
    intros j Hj.
    apply (free_name_none files char_name (size files) 0 E). lia.
Qed.

(** X23. [upload_character] always comes to an end: the loop finds a free
    name after at most as many rounds as there are character files.  The
    name it settles on is the first free one of [name], [name_001],
    [name_002], ..., where [name] is the [char_name] of the file;
    without the Tavern prefix this is the name of the file written, so
    no character file that exists is overwritten, and all of them are
    still there afterwards.  A file without [char_name] raises
    [KeyError] with nothing written. *)
Theorem X23_upload_character_free_name (files : gset str)
  (data : CharacterFile) (tavern : bool) :
  match char_name data with
  | None => upload_character files data tavern = Some (Raise KeyError)
  | Some name =>
      exists i,
        let out := if tavern then lit "TavernAI-" ++ candidate name i
                   else candidate name i in
        upload_character files data tavern
        = Some (Ok (out, {[ out ]} ∪ files))
        /\ (candidate name i ∉ files)
        /\ (forall j, j < i -> candidate name j ∈ files)
        /\ files ⊆ {[ out ]} ∪ files
        /\ (if tavern then True else out ∉ files)
  end.
Proof.
  unfold upload_character. destruct (char_name data) as [name|];
    [|reflexivity].
  destruct (free_name_returns files name) as [i [Hr [Hf Hb]]].
  exists i. rewrite Hr. cbv zeta.
  split; [reflexivity|]. split; [exact Hf|]. split; [exact Hb|].
  split; [set_solver|]. destruct tavern; [exact I|exact Hf].
Qed.

(** An instance: the first two names are taken, the third is free. *)
Lemma X23_witness :
  upload_character {[ lit "Aqua"; lit "Aqua_001"; lit "Ruby" ]} aqua false
  = Some (Ok (lit "Aqua_002",
              {[ lit "Aqua_002" ]}
              ∪ {[ lit "Aqua"; lit "Aqua_001"; lit "Ruby" ]})).
Proof.
  destruct (X23_upload_character_free_name
              {[ lit "Aqua"; lit "Aqua_001"; lit "Ruby" ]} aqua false)
    as [i [Hu [Hf [Hb _]]]].
  destruct i as [|[|[|i]]].
  - exfalso. apply Hf. cbn [candidate]. set_solver.
  - exfalso. apply Hf. cbn [candidate]. vm_compute format_03d. set_solver.
  - exact Hu.
  - exfalso. specialize (Hb 2 ltac:(lia)). cbn [candidate] in Hb.
    vm_compute format_03d in Hb.
    apply elem_of_union in Hb as [Hb|Hb];
      [apply elem_of_union in Hb as [Hb|Hb]|];
      apply elem_of_singleton in Hb; discriminate.
Defined.

(** X24. The Tavern prefix is put in front of the name after the loop
    has looked for a free one, and the name with the prefix is not looked
    up: when [name] is free and [TavernAI-name] exists, a Tavern upload
    writes to [TavernAI-name], the file that exists, and there are no
    more character files afterwards than before. *)
Theorem X24_tavern_upload_overwrites (files : gset str)
  (data : CharacterFile) (name : str) :
  char_name data = Some name ->
  name ∉ files ->
  (lit "TavernAI-" ++ name) ∈ files ->
  upload_character files data true
  = Some (Ok (lit "TavernAI-" ++ name, files)).
Proof.
  intros Hn Hfree Htaken. unfold upload_character. rewrite Hn.
  assert (Hr : free_name (size files) files name name 1 = Some name).
  { destruct (size files); cbn [free_name];
      rewrite bool_decide_eq_false_2 by exact Hfree; reflexivity. }
  rewrite Hr. cbv zeta.
  replace ({[ lit "TavernAI-" ++ name ]} ∪ files) with files
    by (apply leibniz_equiv; intros x;
        rewrite elem_of_union, elem_of_singleton;
        split; [auto|intros [-> | Hx]; assumption]).
  reflexivity.
Qed.

Lemma X24_witness :
  upload_character {[ lit "TavernAI-Aqua" ]} aqua true
  = Some (Ok (lit "TavernAI-Aqua", {[ lit "TavernAI-Aqua" ]})).
Proof.
  apply (X24_tavern_upload_overwrites {[ lit "TavernAI-Aqua" ]} aqua
           (lit "Aqua")).
  - reflexivity.
  - intros H. apply elem_of_singleton in H. discriminate.
  - apply elem_of_singleton. reflexivity.
Defined.

(** ** LaTeX delimiters *)

Section ReplacePair.

(** [s.replace(xy, c)] for a pattern of two characters and a replacement
    of one. *)
Variables (x y c : ascii).

Lemma replace_pair_match (rest : str) :
  replace [x; y] [c] (x :: y :: rest) = c :: replace [x; y] [c] rest.
Proof.
  unfold replace. cbn [replace_from startswith length Nat.sub app].
  rewrite !ascii_eqb_refl. reflexivity.
Qed.

Lemma replace_pair_other (z : ascii) (rest : str) :
  startswith [x; y] (z :: rest) = false ->
  replace [x; y] [c] (z :: rest) = z :: replace [x; y] [c] rest.
Proof.
  intros H. unfold replace. cbn [replace_from]. rewrite H. reflexivity.
Qed.

(** One step of the replacement, whichever applies. *)
Lemma replace_pair_step (z : ascii) (rest : str) :
  (exists rest', z = x /\ rest = y :: rest'
                 /\ replace [x; y] [c] (z :: rest)
                    = c :: replace [x; y] [c] rest')
  \/ (startswith [x; y] (z :: rest) = false
      /\ replace [x; y] [c] (z :: rest) = z :: replace [x; y] [c] rest).
Proof.
  destruct (startswith [x; y] (z :: rest)) eqn:E.
  - left. apply startswith_app in E as [rest' E]. cbn [app] in E.
    injection E as -> ->. exists rest'.
    split; [reflexivity|]. split; [reflexivity|apply replace_pair_match].
  - right. split; [reflexivity|apply replace_pair_other; exact E].
Qed.

(** The result starts with the replacement or as the text does. *)
Lemma replace_pair_head (s : str) :
  match replace [x; y] [c] s with
  | [] => True
  | h :: _ => h = c \/ exists t, s = h :: t
  end.
Proof.
  destruct s as [|z rest]; [exact I|].
  destruct (replace_pair_step z rest) as [[rest' [_ [_ ->]]]|[_ ->]];
    [left; reflexivity|right; eauto].
Qed.

Lemma replace_pair_length (n : nat) :
  forall s, length s <= n -> length (replace [x; y] [c] s) <= length s.
Proof.
  induction n as [|n IH]; intros s Hn.
  - destruct s; [cbn; lia|cbn in Hn; lia].
  - destruct s as [|z rest]; [cbn; lia|].
    destruct (replace_pair_step z rest)
      as [[rest' [_ [-> ->]]]|[_ ->]]; cbn [length] in *.
    + specialize (IH rest' ltac:(lia)). lia.
    + specialize (IH rest ltac:(lia)). lia.
Qed.

Variables (a b : ascii).
Hypothesis c_not_a : Ascii.eqb a c = false.
Hypothesis c_not_b : Ascii.eqb b c = false.

Lemma startswith_pair_cons (h : ascii) (t : str) :
  startswith [a; b] (h :: t)
  = Ascii.eqb a h && match t with
                     | [] => false
                     | k :: _ => Ascii.eqb b k
                     end.
Proof.
  cbn [startswith]. destruct t; [reflexivity|].
  rewrite andb_true_r. reflexivity.
Qed.

(** A pair that does not occur in the text does not occur after a
    replacement by a character that is in it neither. *)
Lemma replace_pair_keeps_absent (n : nat) :
  forall s, length s <= n ->
    occurs [a; b] s = false -> occurs [a; b] (replace [x; y] [c] s) = false.
Proof.
  induction n as [|n IH]; intros s Hn Ho.
  - destruct s; [reflexivity|cbn in Hn; lia].
  - destruct s as [|z rest]; [reflexivity|].
    rewrite occurs_cons in Ho. apply orb_false_elim in Ho as [Hs Ho].
    destruct (replace_pair_step z rest)
      as [[rest' [-> [-> ->]]]|[_ ->]]; cbn [length] in Hn.
    + rewrite occurs_cons in Ho. apply orb_false_elim in Ho as [_ Ho].
      rewrite occurs_cons, (IH rest' ltac:(lia) Ho), orb_false_r.
      rewrite startswith_pair_cons, c_not_a. reflexivity.
    + rewrite occurs_cons, (IH rest ltac:(lia) Ho), orb_false_r.
      rewrite startswith_pair_cons in Hs |- *.
      destruct (Ascii.eqb a z); [|reflexivity]. cbn [andb] in Hs |- *.
      pose proof (replace_pair_head rest) as Hh.
      destruct (replace [x; y] [c] rest) as [|h t]; [reflexivity|].
      destruct Hh as [->|[t' ->]]; [exact c_not_b|exact Hs].
Qed.

End ReplacePair.

(** After [s.replace(xy, c)] the pair [xy] does not occur, when [c] is
    neither [x] nor [y]. *)
Lemma replace_pair_removes (x y c : ascii) (n : nat) :
  Ascii.eqb x c = false -> Ascii.eqb y c = false ->
  forall s, length s <= n -> occurs [x; y] (replace [x; y] [c] s) = false.
Proof.
  intros Hx Hy. induction n as [|n IH]; intros s Hn.
  - destruct s; [reflexivity|cbn in Hn; lia].
  - destruct s as [|z rest]; [reflexivity|].
    destruct (replace_pair_step x y c z rest)
      as [[rest' [-> [-> ->]]]|[Hs ->]]; cbn [length] in Hn.
    + rewrite occurs_cons, (IH rest' ltac:(lia)), orb_false_r.
      rewrite (startswith_pair_cons x y), Hx. reflexivity.
    + rewrite occurs_cons, (IH rest ltac:(lia)), orb_false_r.
      rewrite (startswith_pair_cons x y) in Hs |- *.
      destruct (Ascii.eqb x z); [|reflexivity]. cbn [andb] in Hs |- *.
      pose proof (replace_pair_head x y c rest) as Hh.
      destruct (replace [x; y] [c] rest) as [|h t]; [reflexivity|].
      destruct Hh as [->|[t' ->]]; [exact Hy|exact Hs].
Qed.

Lemma occurs_absent_replace (p r s : str) :
  occurs p s = false -> replace p r s = s.
Proof.
  intros H. apply replace_absent. rewrite <- contains_occurs in H.
  unfold contains in H. destruct (find p s); [discriminate|reflexivity].
Qed.

(** X25. The text that [fix_galactica] returns has none of the four
    delimiters [\[], [\]], [\(] and [\)] in it, whatever the text it was
    given, and is never longer than that text.  A text that has none of
    the delimiters and no [$$] is returned as it is. *)
Theorem X25_fix_galactica_no_delimiters (s : str) :
  Forall (fun d => contains d (fix_galactica s) = false) latex_delimiters
  /\ length (fix_galactica s) <= length s
  /\ (Forall (fun d => contains d s = false) (lit "$$" :: latex_delimiters) ->
      fix_galactica s = s).
Proof.
  unfold fix_galactica, latex_delimiters.
  change (lit "\[") with ["\"%char; "["%char].
  change (lit "\]") with ["\"%char; "]"%char].
  change (lit "\(") with ["\"%char; "("%char].
  change (lit "\)") with ["\"%char; ")"%char].
  change (lit "$$") with ["$"%char; "$"%char].
  change (lit "$") with ["$"%char].
  set (s1 := replace ["\"%char; "["%char] ["$"%char] s).
  set (s2 := replace ["\"%char; "]"%char] ["$"%char] s1).
  set (s3 := replace ["\"%char; "("%char] ["$"%char] s2).
  set (s4 := replace ["\"%char; ")"%char] ["$"%char] s3).
  set (s5 := replace ["$"%char; "$"%char] ["$"%char] s4).
  assert (H1 : occurs ["\"%char; "["%char] s1 = false)
    by (apply (replace_pair_removes _ _ _ (length s)); reflexivity || lia).
  assert (H2 : occurs ["\"%char; "]"%char] s2 = false)
    by (apply (replace_pair_removes _ _ _ (length s1)); reflexivity || lia).
  assert (H3 : occurs ["\"%char; "("%char] s3 = false)
    by (apply (replace_pair_removes _ _ _ (length s2)); reflexivity || lia).
  assert (H4 : occurs ["\"%char; ")"%char] s4 = false)
    by (apply (replace_pair_removes _ _ _ (length s3)); reflexivity || lia).
  assert (K : forall x y a b t,
             Ascii.eqb a "$" = false -> Ascii.eqb b "$" = false ->
             occurs [a; b] t = false ->
             occurs [a; b] (replace [x; y] ["$"%char] t) = false).
  { intros x y a b t Ha Hb Ht.
    exact (replace_pair_keeps_absent x y "$" a b Ha Hb (length t) t
             (le_n _) Ht). }
  split; [|split].
  - repeat (apply Forall_cons; [cbv beta; rewrite contains_occurs|]);
      [| | | |apply Forall_nil].
    + do 4 (apply K; [reflexivity|reflexivity|]). exact H1.
    + do 3 (apply K; [reflexivity|reflexivity|]). exact H2.
    + do 2 (apply K; [reflexivity|reflexivity|]). exact H3.
    + do 1 (apply K; [reflexivity|reflexivity|]). exact H4.
  - pose proof (replace_pair_length "\" "[" "$" (length s) s (le_n _)).
    pose proof (replace_pair_length "\" "]" "$" (length s1) s1 (le_n _)).
    pose proof (replace_pair_length "\" "(" "$" (length s2) s2 (le_n _)).
    pose proof (replace_pair_length "\" ")" "$" (length s3) s3 (le_n _)).
    pose proof (replace_pair_length "$" "$" "$" (length s4) s4 (le_n _)).
    fold s1 in H. fold s2 in H0. fold s3 in H5. fold s4 in H6.
    fold s5 in H7. lia.
  - intros Hnone.
    repeat match type of Hnone with
           | Forall _ (_ :: _) =>
               let Hd := fresh "Hd" in
               pose proof (Forall_inv Hnone) as Hd; cbv beta in Hd;
               rewrite contains_occurs in Hd;
               apply Forall_inv_tail in Hnone
           end.
    subst s5 s4 s3 s2 s1.
    rewrite (occurs_absent_replace _ _ s) by assumption.
    rewrite (occurs_absent_replace _ _ s) by assumption.
    rewrite (occurs_absent_replace _ _ s) by assumption.
    rewrite (occurs_absent_replace _ _ s) by assumption.
    apply occurs_absent_replace. assumption.
Qed.

Lemma X25_witness :
  fix_galactica (lit "The area is r squared.") = lit "The area is r squared.".
Proof.
  apply (X25_fix_galactica_no_delimiters (lit "The area is r squared.")).
  repeat constructor.
Defined.

(** Three dollar signs in a row, as [\(\[\]] leaves them, become two:
    the last replacement is not repeated. *)
Example fix_galactica_leaves_two_dollars :
  fix_galactica (lit "\(\[\]x") = lit "$$x".
Proof. reflexivity. Qed.
